(** * Fuzzy search of the HowToMgr guide catalog

    A shallow embedding of [lib/search-keywords.js] (keyword thesaurus and
    keyword scorer), of [lib/fuzzy-search.js] (classes [FuzzySearch] and
    [SearchManager]) and of [components/SearchBox.js] (the callback of the
    debounce timer, the relevance test and the edit distance), with the
    properties of the search engine stated over it.

    Conventions.
    - A JavaScript string is a [string] of 7-bit code units; [toLowerCase]
      and the whitespace class are the ASCII ones.
    - Positions and lengths are [nat]; a JavaScript number that carries a
      score is an exact rational [Q].  All score constants of the source are
      short decimals and are read as the rationals they denote.
    - A call that throws returns [Throw]; everything else returns [Normal]. *)

From Stdlib Require Import String Ascii List Bool Arith ZArith QArith Qround
  DecimalString Lia Lqa Sorting.Sorted Sorting.Permutation.
Import ListNotations.

Close Scope Q_scope.
Open Scope string_scope.
Open Scope list_scope.
Open Scope nat_scope.

(** ** Completions *)

Inductive JsError : Type :=
| TypeError.

Inductive outcome (A : Type) : Type :=
| Normal (a : A)
| Throw (e : JsError).

Arguments Normal {A} a.
Arguments Throw {A} e.

Definition bind {A B : Type} (m : outcome A) (k : A -> outcome B) : outcome B :=
  match m with
  | Normal a => k a
  | Throw e => Throw e
  end.

Notation "x <- m ;; k" := (bind m (fun x => k))
  (at level 61, m at next level, right associativity).

(** [for (...) { ... }] over a list whose body may throw. *)
Fixpoint forEachM {A S : Type} (body : S -> A -> outcome S) (l : list A) (s : S)
  : outcome S :=
  match l with
  | [] => Normal s
  | a :: l' => s' <- body s a ;; forEachM body l' s'
  end.

(** ** Strings *)

Module Js.

Definition isUpper (c : ascii) : bool :=
  let n := nat_of_ascii c in (65 <=? n)%nat && (n <=? 90)%nat.

Definition isLower (c : ascii) : bool :=
  let n := nat_of_ascii c in (97 <=? n)%nat && (n <=? 122)%nat.

Definition isDigit (c : ascii) : bool :=
  let n := nat_of_ascii c in (48 <=? n)%nat && (n <=? 57)%nat.

Definition lowerChar (c : ascii) : ascii :=
  if isUpper c then ascii_of_nat (nat_of_ascii c + 32) else c.

Definition upperChar (c : ascii) : ascii :=
  if isLower c then ascii_of_nat (nat_of_ascii c - 32) else c.

(** [\s], which is also what [trim] removes: TAB, LF, VT, FF, CR, SPACE. *)
Definition isSpace (c : ascii) : bool :=
  let n := nat_of_ascii c in
  ((9 <=? n)%nat && (n <=? 13)%nat) || (n =? 32)%nat.

(** [\w], the class behind the [\b] assertion. *)
Definition isWordChar (c : ascii) : bool :=
  isUpper c || isLower c || isDigit c || (nat_of_ascii c =? 95)%nat.

(** [s.toLowerCase()], for a string of ASCII characters ([isAscii]
    below). *)
Fixpoint toLowerCase (s : string) : string :=
  match s with
  | EmptyString => EmptyString
  | String c s' => String (lowerChar c) (toLowerCase s')
  end.

Fixpoint trimStart (s : string) : string :=
  match s with
  | EmptyString => EmptyString
  | String c s' => if isSpace c then trimStart s' else s
  end.

Fixpoint trimEnd (s : string) : string :=
  match s with
  | EmptyString => EmptyString
  | String c s' =>
      let r := trimEnd s' in
      if isSpace c && (r =? "")%string then "" else String c r
  end.

Definition trim (s : string) : string := trimEnd (trimStart s).

(** [text.startsWith(q)] *)
Fixpoint startsWith (text q : string) : bool :=
  match q, text with
  | EmptyString, _ => true
  | String a q', String b text' => Ascii.eqb a b && startsWith text' q'
  | String _ _, EmptyString => false
  end.

(** [text.indexOf(q)]; [None] stands for [-1]. *)
Fixpoint indexOf (text q : string) : option nat :=
  if startsWith text q then Some 0
  else match text with
       | EmptyString => None
       | String _ text' => option_map S (indexOf text' q)
       end.

Definition includes (text q : string) : bool :=
  match indexOf text q with Some _ => true | None => false end.

(** [s.slice(from, to)] for [0 <= from]; both ends are clamped to the
    length of [s]. *)
Definition slice (s : string) (from to : nat) : string :=
  substring from (to - from) s.

(** [text.slice(from)] *)
Definition sliceFrom (s : string) (from : nat) : string :=
  substring from (String.length s - from) s.

(** [parts.join(' ')] *)
Fixpoint join (parts : list string) : string :=
  match parts with
  | [] => ""
  | [p] => p
  | p :: rest => (p ++ " " ++ join rest)%string
  end.

(** [s.split(/\s+/)]: the pieces between maximal runs of whitespace; a
    leading or trailing run leaves an empty piece, and the empty string
    splits into one empty piece. *)
Fixpoint splitSpaces (s : string) : list string :=
  match s with
  | EmptyString => [""]
  | String c s' =>
      if isSpace c then
        match s' with
        | String d _ => if isSpace d then splitSpaces s' else "" :: splitSpaces s'
        | EmptyString => "" :: splitSpaces s'
        end
      else
        match splitSpaces s' with
        | w :: ws => String c w :: ws
        | [] => [String c ""]
        end
  end.

(** [.filter(Boolean)] on an array of strings and [undefined]s. *)
Definition filterBoolean (l : list (option string)) : list string :=
  flat_map (fun o => match o with
                     | Some s => if (s =? "")%string then [] else [s]
                     | None => []
                     end) l.

(** The strings on which the operations above are those of JavaScript:
    every code unit is a 7-bit ASCII character.  Beyond them
    [String.prototype.toLowerCase] maps further letters, some of them to
    two code units, and the [i] flag of a regular expression equates
    further pairs of characters; a property that depends on either says
    of which strings it speaks. *)
Definition isAsciiChar (c : ascii) : bool := (nat_of_ascii c <? 128)%nat.

Fixpoint isAscii (s : string) : bool :=
  match s with
  | EmptyString => true
  | String c s' => isAsciiChar c && isAscii s'
  end.

End Js.

Import Js.

(** ** Numbers *)

(** [Math.min] and [Math.max] *)
Definition Qmin (a b : Q) : Q := if Qle_bool a b then a else b.
Definition Qmax (a b : Q) : Q := if Qle_bool a b then b else a.
Definition Qgtb (a b : Q) : bool := negb (Qle_bool a b).
Definition Qgeb (a b : Q) : bool := Qle_bool b a.
Definition QofNat (n : nat) : Q := inject_Z (Z.of_nat n).

(** ** Keyword thesaurus ([lib/search-keywords.js]) *)

Definition SEARCH_KEYWORDS : list (string * list string) :=
  [ ("kubectl", ["kubernetes"; "k8s"]);
    ("k8s", ["kubernetes"; "kubectl"]);
    ("kubernetes", ["kubectl"; "k8s"; "container"; "orchestration"]);
    ("docker", ["container"; "containerization"]);
    ("containers", ["docker"; "kubernetes"; "k8s"; "podman"]);
    ("nginx", ["web server"; "reverse proxy"; "load balancer"; "http"]);
    ("apache", ["web server"; "http server"; "httpd"]);
    ("web server", ["nginx"; "apache"; "haproxy"; "traefik"; "caddy"]);
    ("reverse proxy", ["nginx"; "haproxy"; "traefik"]);
    ("load balancer", ["nginx"; "haproxy"; "traefik"]);
    ("postgres", ["postgresql"]);
    ("postgresql", ["postgres"; "sql"; "database"]);
    ("mysql", ["mariadb"; "sql"; "database"]);
    ("mariadb", ["mysql"; "sql"; "database"]);
    ("mongodb", ["mongo"; "nosql"; "database"]);
    ("mongo", ["mongodb"]);
    ("redis", ["cache"; "key-value"; "database"]);
    ("database", ["mysql"; "postgresql"; "mongodb"; "redis"; "sql"; "nosql"]);
    ("sql", ["mysql"; "postgresql"; "mariadb"]);
    ("nosql", ["mongodb"; "redis"]);
    ("authentication", ["keycloak"; "authelia"; "auth"]);
    ("auth", ["keycloak"; "authelia"; "authentication"]);
    ("vpn", ["wireguard"; "openvpn"]);
    ("firewall", ["fail2ban"; "security"]);
    ("secrets", ["vault"; "security"]);
    ("vault", ["secrets"; "hashicorp"; "security"]);
    ("metrics", ["prometheus"; "grafana"; "monitoring"]);
    ("monitoring", ["prometheus"; "grafana"; "nagios"; "zabbix"]);
    ("dashboards", ["grafana"; "monitoring"]);
    ("alerting", ["prometheus"; "grafana"; "monitoring"]);
    ("chat", ["mattermost"; "rocketchat"; "matrix"; "communication"]);
    ("slack", ["mattermost"; "rocketchat"]);
    ("teams", ["mattermost"; "rocketchat"]);
    ("video", ["jitsi"; "communication"]);
    ("conference", ["jitsi"; "communication"]);
    ("streaming", ["plex"; "jellyfin"; "media"]);
    ("movies", ["plex"; "jellyfin"; "radarr"; "media"]);
    ("tv", ["plex"; "jellyfin"; "sonarr"; "media"]);
    ("music", ["plex"; "jellyfin"; "lidarr"; "media"]);
    ("media server", ["plex"; "jellyfin"]);
    ("cms", ["wordpress"; "drupal"; "ghost"]);
    ("blog", ["wordpress"; "ghost"]);
    ("wiki", ["bookstack"; "outline"]);
    ("notes", ["bookstack"; "outline"]);
    ("files", ["nextcloud"; "owncloud"]);
    ("cloud storage", ["nextcloud"; "owncloud"]);
    ("automation", ["ansible"; "terraform"]);
    ("infrastructure as code", ["terraform"; "ansible"]);
    ("iac", ["terraform"; "ansible"]);
    ("ci/cd", ["gitlab"; "jenkins"]);
    ("continuous integration", ["gitlab"; "jenkins"]);
    ("git", ["gitlab"; "gitea"]);
    ("repository", ["gitlab"; "gitea"]);
    ("k8", ["kubernetes"]);
    ("tf", ["terraform"]);
    ("pg", ["postgresql"]);
    ("db", ["database"]);
    ("lb", ["load balancer"]);
    ("rp", ["reverse proxy"]) ].

(** [SEARCH_KEYWORDS] is an object literal, so [SEARCH_KEYWORDS[k]] also
    finds what the literal inherits from [Object.prototype].  Each inherited
    value is a function or an object: truthy, and without a [forEach]. *)
Definition objectPrototypeKeys : list string :=
  [ "constructor"; "hasOwnProperty"; "isPrototypeOf"; "propertyIsEnumerable";
    "toLocaleString"; "toString"; "valueOf"; "__proto__";
    "__defineGetter__"; "__defineSetter__"; "__lookupGetter__";
    "__lookupSetter__" ].

Inductive property : Type :=
| Aliases (aliases : list string)
| Inherited
| Undefined.

Fixpoint ownProperty (table : list (string * list string)) (k : string)
  : option (list string) :=
  match table with
  | [] => None
  | (k', v) :: table' => if (k =? k')%string then Some v else ownProperty table' k
  end.

Definition getProperty (table : list (string * list string)) (k : string)
  : property :=
  match ownProperty table k with
  | Some v => Aliases v
  | None => if existsb (String.eqb k) objectPrototypeKeys then Inherited
            else Undefined
  end.

(** [set.add(t)] on a [Set] kept in insertion order. *)
Definition setAdd (s : list string) (t : string) : list string :=
  if existsb (String.eqb t) s then s else s ++ [t].

Definition expandSearchQuery (query : string) : outcome (list string) :=
  let normalizedQuery := trim (toLowerCase query) in
  let expandedTerms := [normalizedQuery] in
  expandedTerms <-
    match getProperty SEARCH_KEYWORDS normalizedQuery with
    | Undefined => Normal expandedTerms
    | Aliases aliases => Normal (fold_left setAdd aliases expandedTerms)
    | Inherited => Throw TypeError
    end ;;
  Normal
    (if 3 <? String.length normalizedQuery then
       fold_left
         (fun terms '(keyword, aliases) =>
            if includes keyword normalizedQuery || includes normalizedQuery keyword
            then fold_left setAdd aliases (setAdd terms keyword)
            else terms)
         SEARCH_KEYWORDS expandedTerms
     else expandedTerms).

(** ** Catalog entries *)

Record Item : Type := mkItem {
  name : string;
  displayName : string;
  description : string;
  category : string;
  language : option string;
  topics : list string;
  stars : Z;
  slug : string
}.

(** ** Keyword scorer ([calculateSearchScore]) *)

Definition searchableTextOf (item : Item) : string :=
  toLowerCase
    (join (filterBoolean
             ([Some (name item); Some (displayName item);
               Some (description item); Some (category item);
               language item] ++ map Some (topics item)))).

Definition calculateSearchScore (item : Item) (query : string)
    (expandedTerms : list string) : Q :=
  let score := 0%Q in
  let searchableText := searchableTextOf item in
  let score :=
    if includes searchableText (toLowerCase query) then (score + 1.0)%Q
    else score in
  let score :=
    fold_left (fun score term =>
                 if includes searchableText term then (score + 0.7)%Q else score)
              expandedTerms score in
  let words := splitSpaces searchableText in
  let score :=
    fold_left (fun score word =>
                 if includes word (toLowerCase query) then (score + 0.5)%Q
                 else score)
              words score in
  let score :=
    if includes (toLowerCase (name item)) (toLowerCase query)
       || includes (toLowerCase (displayName item)) (toLowerCase query)
    then (score + 0.8)%Q else score in
  let score := if (stars item >? 10)%Z then (score + 0.1)%Q else score in
  Qmin score 2.0%Q.

(** ** Array.prototype.sort

    The sort is stable.  Every comparator of the source is a difference of
    two numbers, hence consistent, and for a consistent comparator the
    result is fixed whatever the engine's algorithm: the one permutation
    that is ordered by the comparator and keeps the former order of the
    elements that compare equal.  Insertion from the right computes it:
    [x] goes before [y] unless [comparefn x y > 0]. *)

Section ArraySort.
Context {A : Type} (comparefn : A -> A -> Q).

Fixpoint sortInsert (x : A) (sorted : list A) : list A :=
  match sorted with
  | [] => [x]
  | y :: rest =>
      if Qle_bool (comparefn x y) 0 then x :: sorted
      else y :: sortInsert x rest
  end.

Definition arraySort (l : list A) : list A := fold_right sortInsert [] l.
End ArraySort.

(** ** Suggestions ([getSearchSuggestions]) *)

(** ['exact'] and ['partial'] *)
Inductive SuggestionType : Type :=
| ExactSuggestion
| PartialSuggestion.

Module Suggestion.
Record t : Type := mk { text : string; type : SuggestionType }.
End Suggestion.

Definition isExact (s : Suggestion.t) : bool :=
  match Suggestion.type s with
  | ExactSuggestion => true
  | PartialSuggestion => false
  end.

(** The comparator of [suggestions.sort]: exact matches first, then by
    length. *)
Definition bySuggestion (a b : Suggestion.t) : Q :=
  if Bool.eqb (isExact a) (isExact b)
  then (QofNat (String.length (Suggestion.text a))
        - QofNat (String.length (Suggestion.text b)))%Q
  else if isExact a then (-1)%Q else 1%Q.

(** [getSearchSuggestions(query, maxSuggestions)]; [maxSuggestions] is 5
    when the caller leaves it out. *)
Definition getSearchSuggestions (query : string) (maxSuggestions : nat)
  : list Suggestion.t :=
  let normalizedQuery := trim (toLowerCase query) in
  if String.length normalizedQuery <? 2 then []
  else
    let suggestions :=
      fold_left
        (fun suggestions keyword =>
           if startsWith keyword normalizedQuery
           then suggestions ++ [Suggestion.mk keyword ExactSuggestion]
           else if includes keyword normalizedQuery
                then suggestions ++ [Suggestion.mk keyword PartialSuggestion]
                else suggestions)
        (map fst SEARCH_KEYWORDS) [] in
    firstn maxSuggestions (arraySort bySuggestion suggestions).

(** ** Fuzzy matcher ([lib/fuzzy-search.js]) *)

Inductive MatchType : Type :=
| Exact
| WordBoundary
| Character.

(** A match object.  [queryIndex] is set by [fuzzyCharacterMatch]; [mkey],
    [mvalue] and [expandedTerm] are the [key], [value] and [expandedTerm]
    that [search] adds. *)
Record Match : Type := mkMatch {
  start : nat;
  end_ : nat;
  matchType : MatchType;
  queryIndex : option nat;
  mkey : option string;
  mvalue : option string;
  expandedTerm : option string
}.

Definition spanOf (s e : nat) (ty : MatchType) (qi : option nat) : Match :=
  mkMatch s e ty qi None None None.

(** [current.end = e] *)
Definition setEnd (m : Match) (e : nat) : Match :=
  mkMatch (start m) e (matchType m) (queryIndex m) (mkey m) (mvalue m)
          (expandedTerm m).

Module MatchResult.
Record t : Type := mk { score : Q; matches : list Match }.
Definition none : t := mk 0%Q [].
End MatchResult.

(** A result of [search]; the fields after [matches] are absent from the
    objects that the short-query branches build. *)
Module SearchResult.
Record t (T : Type) : Type := mk {
  item : T;
  score : Q;
  matches : list Match;
  refIndex : option nat;
  matchedKey : option string;
  keywordScore : option Q;
  fuzzyScore : option Q
}.
Arguments mk {T}.
Arguments item {T}.
Arguments score {T}.
Arguments matches {T}.
Arguments refIndex {T}.
Arguments matchedKey {T}.
Arguments keywordScore {T}.
Arguments fuzzyScore {T}.
End SearchResult.

Module FuzzySearch.

Record t : Type := mk {
  threshold : Q;
  distance : Q;
  keys : list string
}.

Record Options : Type := mkOptions {
  optThreshold : option Q;
  optDistance : option Q;
  optKeys : option (list string)
}.

(** [options.x || d] on a number. *)
Definition orElseQ (o : option Q) (d : Q) : Q :=
  match o with
  | Some x => if Qeq_bool x 0 then d else x
  | None => d
  end.

Definition new (options : Options) : t :=
  {| threshold := orElseQ (optThreshold options) 0.3%Q;
     distance := orElseQ (optDistance options) 100%Q;
     keys := match optKeys options with
             | Some ks => ks
             | None => ["name"; "displayName"; "description"]
             end |}.

Definition default : t := new (mkOptions None None None).

(** [getValue(obj, key)] for a key that names a field of an entry, as the
    keys of the options do.  No field of an entry is an object, so dotted
    keys are left out; a key that names no field is taken to read
    [undefined], which yields the empty string. *)
Definition getValue (item : Item) (key : string) : string :=
  if (key =? "name")%string then name item
  else if (key =? "displayName")%string then displayName item
  else if (key =? "description")%string then description item
  else if (key =? "category")%string then category item
  else if (key =? "language")%string then
    match language item with Some l => l | None => "" end
  else if (key =? "topics")%string then join (topics item)
  else if (key =? "slug")%string then slug item
  else if (key =? "stars")%string then
    (if (stars item =? 0)%Z then ""
     else DecimalString.NilZero.string_of_int (Z.to_int (stars item)))
  else "".

Section Matcher.
Variable this : t.

(** [text.startsWith(q)] up to the case of letters, as the [i] flag
    compares ASCII strings ([isAscii]). *)
Fixpoint startsWithIgnoreCase (text q : string) : bool :=
  match q, text with
  | EmptyString, _ => true
  | String a q', String b text' =>
      Ascii.eqb (upperChar a) (upperChar b) && startsWithIgnoreCase text' q'
  | String _ _, EmptyString => false
  end.

Definition isWord (c : option ascii) : bool :=
  match c with Some c => isWordChar c | None => false end.

(** [text.match(new RegExp('\\b' + escapeRegex(query), 'i'))]: the index
    of the leftmost position that is a word boundary and where the
    escaped, hence literal, query starts.  [prev] is the character before
    the position and [i] the position. *)
Fixpoint wordBoundaryFrom (prev : option ascii) (text query : string) (i : nat)
  : option nat :=
  let next := match text with String c _ => Some c | EmptyString => None end in
  if xorb (isWord prev) (isWord next) && startsWithIgnoreCase text query
  then Some i
  else match text with
       | EmptyString => None
       | String c text' => wordBoundaryFrom (Some c) text' query (S i)
       end.

Definition wordBoundaryMatch (text query : string) : option nat :=
  wordBoundaryFrom None text query 0.

(** [mergeConsecutiveMatches] *)
Fixpoint mergeLoop (rest : list Match) (current : Match) (merged : list Match)
  : list Match :=
  match rest with
  | [] => merged ++ [current]
  | m :: rest' =>
      if start m =? end_ current
      then mergeLoop rest' (setEnd current (end_ m)) merged
      else mergeLoop rest' m (merged ++ [current])
  end.

Definition mergeConsecutiveMatches (matches : list Match) : list Match :=
  match matches with
  | [] | [_] => matches
  | first :: rest => mergeLoop rest first []
  end.

(** The variables of the loop of [fuzzyCharacterMatch]. *)
Record Scan : Type := mkScan {
  scanScore : Q;
  scanMatches : list Match;
  scanQueryIndex : nat;
  lastMatchIndex : Z;
  consecutiveMatches : nat
}.

Definition scanInit : Scan := mkScan 0%Q [] 0 (-1)%Z 0.

(** [textIndex === 0 || /\s|-|_/.test(text[textIndex - 1])] *)
Definition atWordStart (prev : option ascii) : bool :=
  match prev with
  | None => true
  | Some p => isSpace p || Ascii.eqb p "-" || Ascii.eqb p "_"
  end.

(** One turn of the loop, at [textIndex] on character [c]. *)
Definition scanStep (query : string) (queryLen : nat) (textIndex : nat)
    (prev : option ascii) (c : ascii) (s : Scan) : Scan :=
  match get (scanQueryIndex s) query with
  | Some qc =>
      if Ascii.eqb c qc then
        let matches :=
          scanMatches s
            ++ [spanOf textIndex (textIndex + 1) Character
                       (Some (scanQueryIndex s))] in
        let '(consecutive, score) :=
          if (Z.of_nat textIndex =? lastMatchIndex s + 1)%Z then
            let consecutive := consecutiveMatches s + 1 in
            (consecutive,
             (scanScore s + (0.1 + QofNat consecutive * 0.05))%Q)
          else (0, scanScore s) in
        let score := (score + 0.8 / QofNat queryLen)%Q in
        let score := if atWordStart prev then (score + 0.1)%Q else score in
        mkScan score matches (scanQueryIndex s + 1) (Z.of_nat textIndex)
               consecutive
      else s
  | None => s
  end.

(** [for (textIndex = 0; textIndex < textLen && queryIndex < queryLen;
    textIndex++)] over the rest [text] of the text. *)
Fixpoint scanLoop (query : string) (queryLen : nat) (text : string)
    (textIndex : nat) (prev : option ascii) (s : Scan) : Scan :=
  match text with
  | EmptyString => s
  | String c text' =>
      if scanQueryIndex s <? queryLen
      then scanLoop query queryLen text' (textIndex + 1) (Some c)
                    (scanStep query queryLen textIndex prev c s)
      else s
  end.

Definition fuzzyCharacterMatch (query text : string) : MatchResult.t :=
  let queryLen := String.length query in
  let textLen := String.length text in
  let s := scanLoop query queryLen text 0 None scanInit in
  if scanQueryIndex s =? queryLen then
    let matches := scanMatches s in
    let score :=
      if 1 <? List.length matches then
        let d :=
          (Z.of_nat (start (last matches (spanOf 0 0 Character None)))
           - Z.of_nat (start (hd (spanOf 0 0 Character None) matches)))%Z in
        let maxDistance := Qmin (distance this) (QofNat textLen) in
        (scanScore s * Qmax 0.1 (1 - inject_Z d / maxDistance))%Q
      else scanScore s in
    let score := (score + Qmax 0 ((50 - QofNat textLen) / 100))%Q in
    MatchResult.mk (Qmin score 1) (mergeConsecutiveMatches matches)
  else MatchResult.none.

Definition fuzzyMatch (query text : string) : MatchResult.t :=
  let queryLen := String.length query in
  let textLen := String.length text in
  if textLen <? queryLen then MatchResult.none
  else
    match indexOf text query with
    | Some exactIndex =>
        MatchResult.mk 1.0%Q
          [spanOf exactIndex (exactIndex + queryLen) Exact None]
    | None =>
        match wordBoundaryMatch text query with
        | Some index =>
            MatchResult.mk 0.9%Q
              [spanOf index (index + queryLen) WordBoundary None]
        | None => fuzzyCharacterMatch query text
        end
    end.
End Matcher.

(** The elements of an array with their indices. *)
Definition entries {T : Type} (l : list T) : list (nat * T) :=
  combine (seq 0 (List.length l)) l.

(** [(a, b) => b.score - a.score] *)
Definition byScore {T : Type} (a b : SearchResult.t T) : Q :=
  (SearchResult.score b - SearchResult.score a)%Q.

Section Search.
Variable this : t.
(** [search] reads the fields of an entry off its items, which are
    entries or, from [searchIndex], index records that carry them. *)
Context {T : Type} (view : T -> Item).

Record Best : Type := mkBest {
  bestFuzzyScore : Q;
  bestMatches : list Match;
  bestKey : string
}.

(** [{...match, key, value}] and [{...match, key, value, expandedTerm}] *)
Definition withKey (key value : string) (term : option string) (m : Match)
  : Match :=
  mkMatch (start m) (end_ m) (matchType m) (queryIndex m) (Some key)
          (Some value)
          (match term with Some _ => term | None => expandedTerm m end).

(** The body of [for (const key of this.keys)]. *)
Definition tryKey (normalizedQuery : string) (expandedTerms : list string)
    (item : T) (best : Best) (key : string) : Best :=
  let value := getValue (view item) key in
  if (value =? "")%string then best
  else
    let directResult := fuzzyMatch this normalizedQuery (toLowerCase value) in
    let best :=
      if Qgtb (MatchResult.score directResult) (bestFuzzyScore best)
      then mkBest (MatchResult.score directResult)
                  (map (withKey key value None)
                       (MatchResult.matches directResult))
                  key
      else best in
    fold_left
      (fun best term =>
         let expandedResult := fuzzyMatch this term (toLowerCase value) in
         if Qgtb (MatchResult.score expandedResult) (bestFuzzyScore best)
         then mkBest (MatchResult.score expandedResult * 0.8)%Q
                     (map (withKey key value (Some term))
                          (MatchResult.matches expandedResult))
                     key
         else best)
      expandedTerms best.

(** The body of [for (let i = 0; i < items.length; i++)]: the result
    pushed for [items[i]], if any. *)
Definition scoreItem (query normalizedQuery : string)
    (expandedTerms : list string) (i : nat) (item : T)
  : option (SearchResult.t T) :=
  let keywordScore := calculateSearchScore (view item) query expandedTerms in
  let best :=
    fold_left (tryKey normalizedQuery expandedTerms item) (keys this)
              (mkBest 0%Q [] "") in
  let totalScore := (0 + keywordScore + bestFuzzyScore best)%Q in
  if Qgeb totalScore (threshold this)
  then Some (SearchResult.mk item totalScore (bestMatches best) (Some i)
               (Some (bestKey best)) (Some keywordScore)
               (Some (bestFuzzyScore best)))
  else None.

(** [!query || query.length < n] *)
Definition shorterThan (n : nat) (query : option string) : bool :=
  match query with
  | Some q => (q =? "")%string || (String.length q <? n)
  | None => true
  end.

(** [search(items, query)]; [items.indexOf(item)] is the position of
    [item], the entries of a catalog being distinct objects. *)
Definition search (items : list T) (query : option string)
  : outcome (list (SearchResult.t T)) :=
  match query with
  | Some q =>
      if shorterThan 2 query then
        Normal (map (fun '(i, item) =>
                       SearchResult.mk item 0%Q [] (Some i) None None None)
                    (entries items))
      else
        let normalizedQuery := trim (toLowerCase q) in
        expandedTerms <- expandSearchQuery normalizedQuery ;;
        let results :=
          flat_map (fun '(i, item) =>
                      match scoreItem q normalizedQuery expandedTerms i item with
                      | Some r => [r]
                      | None => []
                      end)
                   (entries items) in
        Normal (arraySort byScore results)
  | None =>
      Normal (map (fun '(i, item) =>
                     SearchResult.mk item 0%Q [] (Some i) None None None)
                  (entries items))
  end.
End Search.

Record Indexed : Type := mkIndexed {
  base : Item;
  _searchText : string;
  _searchWords : list string;
  _originalIndex : nat
}.

Section Index.
Variable this : t.

Definition createIndex (items : list Item) : list Indexed :=
  map (fun '(index, item) =>
         let searchableText :=
           toLowerCase
             (join (filter (fun v => negb (v =? "")%string)
                           (map (getValue item) (keys this)))) in
         mkIndexed item searchableText
                   (filter (fun word => 1 <? String.length word)
                           (splitSpaces searchableText))
                   index)
      (entries items).

Definition searchIndex (indexedItems : list Indexed) (query : option string)
  : outcome (list (SearchResult.t Indexed)) :=
  match query with
  | Some q =>
      if shorterThan 2 query then
        Normal (map (fun item =>
                       SearchResult.mk item 0%Q [] None None None None)
                    indexedItems)
      else
        let normalizedQuery := trim (toLowerCase q) in
        results <-
          forEachM
            (fun results item =>
               let hasWordMatch :=
                 existsb (fun word => includes word normalizedQuery
                                      || includes normalizedQuery word)
                         (_searchWords item) in
               if negb hasWordMatch && (3 <? String.length normalizedQuery)
               then Normal results
               else
                 found <- search this base [item] query ;;
                 match found with
                 | result :: _ =>
                     if Qgeb (SearchResult.score result) (threshold this)
                     then Normal (results ++ [result])
                     else Normal results
                 | [] => Normal results
                 end)
            indexedItems [] ;;
        Normal (arraySort byScore results)
  | None =>
      Normal (map (fun item =>
                     SearchResult.mk item 0%Q [] None None None None)
                  indexedItems)
  end.
End Index.

(** The double quote of [class="..."]. *)
Definition dquote : string := String (ascii_of_nat 34) EmptyString.

(** [highlightMatches(text, matches, highlightClass)] *)
Definition highlightMatches (text : string) (matches : list Match)
    (highlightClass : string) : string :=
  match matches with
  | [] => text
  | _ =>
      let sortedMatches :=
        arraySort (fun a b => (QofNat (start a) - QofNat (start b))%Q) matches in
      let '(result, lastIndex) :=
        fold_left
          (fun '(result, lastIndex) m =>
             ((result ++ slice text lastIndex (start m)
                ++ "<mark class=" ++ dquote ++ highlightClass ++ dquote ++ ">"
                ++ slice text (start m) (end_ m) ++ "</mark>")%string,
              end_ m))
          sortedMatches ("", 0) in
      (result ++ sliceFrom text lastIndex)%string
  end.

End FuzzySearch.

(** ** Search session ([SearchManager]) *)

Module SearchManager.

Record Options : Type := mkOptions {
  searchOptions : FuzzySearch.Options;
  optMaxResults : option nat;
  optMinQueryLength : option nat
}.

Record t : Type := mk {
  fuzzySearch : FuzzySearch.t;
  maxResults : nat;
  minQueryLength : nat;
  searchData : list Item;
  searchIndex : list FuzzySearch.Indexed;
  currentQuery : option string;
  selectedIndex : Z
}.

(** [options.x || d] on a count. *)
Definition orElse (o : option nat) (d : nat) : nat :=
  match o with
  | Some 0 | None => d
  | Some n => n
  end.

Definition new (options : Options) : t :=
  {| fuzzySearch := FuzzySearch.new (searchOptions options);
     maxResults := orElse (optMaxResults options) 8;
     minQueryLength := orElse (optMinQueryLength options) 2;
     searchData := [];
     searchIndex := [];
     currentQuery := Some "";
     selectedIndex := (-1)%Z |}.

Definition default : t :=
  new (mkOptions (FuzzySearch.mkOptions None None None) None None).

Definition setData (this : t) (data : list Item) : t :=
  {| fuzzySearch := fuzzySearch this;
     maxResults := maxResults this;
     minQueryLength := minQueryLength this;
     searchData := data;
     searchIndex := FuzzySearch.createIndex (fuzzySearch this) data;
     currentQuery := currentQuery this;
     selectedIndex := selectedIndex this |}.

(** [{...result.item, score, highlightedName, highlightedDescription}] *)
Record Formatted : Type := mkFormatted {
  entry : FuzzySearch.Indexed;
  score : Q;
  highlightedName : string;
  highlightedDescription : string
}.

(** [result.item.displayName || result.item.name] *)
Definition shownName (item : Item) : string :=
  if (displayName item =? "")%string then name item else displayName item.

Definition format (result : SearchResult.t FuzzySearch.Indexed) : Formatted :=
  let item := FuzzySearch.base (SearchResult.item result) in
  {| entry := SearchResult.item result;
     score := SearchResult.score result;
     highlightedName :=
       FuzzySearch.highlightMatches (shownName item)
         (SearchResult.matches result) "search-highlight";
     highlightedDescription :=
       FuzzySearch.highlightMatches (description item)
         (SearchResult.matches result) "search-highlight" |}.

Section Search.
(** The method [searchIndex] of [this.fuzzySearch], which [search] calls
    on long enough queries. *)
Variable fuzzySearchIndex :
  FuzzySearch.t -> list FuzzySearch.Indexed -> option string ->
  outcome (list (SearchResult.t FuzzySearch.Indexed)).

(** [search(query)]: the session after the call, and what the call
    returns or throws. *)
Definition searchWith (this : t) (query : option string)
  : t * outcome (list Formatted) :=
  let this :=
    {| fuzzySearch := fuzzySearch this;
       maxResults := maxResults this;
       minQueryLength := minQueryLength this;
       searchData := searchData this;
       searchIndex := searchIndex this;
       currentQuery := query;
       selectedIndex := (-1)%Z |} in
  if FuzzySearch.shorterThan (minQueryLength this) query
  then (this, Normal [])
  else
    (this,
     results <- fuzzySearchIndex (fuzzySearch this) (searchIndex this) query ;;
     Normal (map format (firstn (maxResults this) results))).
End Search.

Definition search : t -> option string -> t * outcome (list Formatted) :=
  searchWith FuzzySearch.searchIndex.

(** What a key press does beyond the state of the session. *)
Inductive Effect (R : Type) : Type :=
| PreventDefault
| UpdateSelection
| Select (result : R)
| SearchChange (text : string).

Arguments PreventDefault {R}.
Arguments UpdateSelection {R}.
Arguments Select {R} result.
Arguments SearchChange {R} text.

Definition withSelectedIndex (this : t) (i : Z) : t :=
  {| fuzzySearch := fuzzySearch this;
     maxResults := maxResults this;
     minQueryLength := minQueryLength this;
     searchData := searchData this;
     searchIndex := searchIndex this;
     currentQuery := currentQuery this;
     selectedIndex := i |}.

(** [results[i]] for an integer [i]: [undefined] outside the array. *)
Definition at_ {R : Type} (results : list R) (i : Z) : option R :=
  if (i <? 0)%Z then None else nth_error results (Z.to_nat i).

(** [handleKeyDown(event, results, onSelect)] for [event.key = key]: the
    session after the call and, in order, the calls made to
    [event.preventDefault], [this.updateSelection], [onSelect] and
    [this.onSearchChange]. *)
Definition handleKeyDown {R : Type} (this : t) (key : string) (results : list R)
  : t * list (Effect R) :=
  if (key =? "ArrowDown")%string then
    (withSelectedIndex this
       (Z.min (selectedIndex this + 1) (Z.of_nat (List.length results) - 1)),
     [PreventDefault; UpdateSelection])
  else if (key =? "ArrowUp")%string then
    (withSelectedIndex this (Z.max (selectedIndex this - 1) (-1)),
     [PreventDefault; UpdateSelection])
  else if (key =? "Enter")%string then
    (this,
     PreventDefault ::
     (if (0 <=? selectedIndex this)%Z
      then match at_ results (selectedIndex this) with
           | Some result => [Select result]
           | None => []
           end
      else []))
  else if (key =? "Escape")%string then
    (withSelectedIndex this (-1), [PreventDefault; SearchChange ""])
  else (this, []).

End SearchManager.

(** ** Search analytics ([SearchAnalytics]) *)

Module SearchAnalytics.

Record Search : Type := mkSearch {
  query : string;
  resultsCount : nat;
  selectedResult : option Item;
  timestamp : Z
}.

(** [popularTerms] is a [Map], kept in the order of first insertion. *)
Record t : Type := mk {
  searches : list Search;
  popularTerms : list (string * nat)
}.

Definition new : t := mk [] [].

Fixpoint mapGet (m : list (string * nat)) (k : string) : option nat :=
  match m with
  | [] => None
  | (k', v) :: m' => if (k =? k')%string then Some v else mapGet m' k
  end.

Fixpoint mapSet (m : list (string * nat)) (k : string) (v : nat)
  : list (string * nat) :=
  match m with
  | [] => [(k, v)]
  | (k', v') :: m' =>
      if (k =? k')%string then (k, v) :: m' else (k', v') :: mapSet m' k v
  end.

(** [l.slice(-n)] *)
Definition lastN {A : Type} (n : nat) (l : list A) : list A :=
  skipn (List.length l - n) l.

(** [trackSearch(query, resultsCount, selectedResult)] at the time [now]
    that [Date.now()] returns. *)
Definition trackSearch (this : t) (query : string) (resultsCount : nat)
    (selectedResult : option Item) (now : Z) : t :=
  let searches :=
    searches this ++ [mkSearch query resultsCount selectedResult now] in
  let popularTerms :=
    if 2 <=? String.length query then
      let count :=
        match mapGet (popularTerms this) query with
        | Some c => c
        | None => 0
        end in
      mapSet (popularTerms this) query (count + 1)
    else popularTerms this in
  let searches :=
    if 100 <? List.length searches then lastN 100 searches else searches in
  mk searches popularTerms.

(** [getPopularTerms(limit)]; the pairs are [{term, count}]. *)
Definition getPopularTerms (this : t) (limit : nat) : list (string * nat) :=
  firstn limit
    (arraySort (fun a b => (QofNat (snd b) - QofNat (snd a))%Q)
               (popularTerms this)).

Record Stats : Type := mkStats {
  totalSearches : nat;
  successRate : Q;
  clickRate : Q;
  avgResultsPerSearch : Q
}.

Definition isSome {A : Type} (o : option A) : bool :=
  match o with Some _ => true | None => false end.

Definition getSearchStats (this : t) : Stats :=
  let total := List.length (searches this) in
  let withResults :=
    List.length (filter (fun s => 0 <? resultsCount s) (searches this)) in
  let withClicks :=
    List.length (filter (fun s => isSome (selectedResult s)) (searches this)) in
  {| totalSearches := total;
     successRate :=
       if 0 <? total then (QofNat withResults / QofNat total)%Q else 0%Q;
     clickRate :=
       if 0 <? total then (QofNat withClicks / QofNat total)%Q else 0%Q;
     avgResultsPerSearch :=
       if 0 <? total
       then (fold_left (fun sum s => (sum + QofNat (resultsCount s))%Q)
                       (searches this) 0%Q / QofNat total)%Q
       else 0%Q |}.

End SearchAnalytics.

(** ** The search box ([components/SearchBox.js]) *)

Module SearchBox.

Record State : Type := mkState {
  query : string;
  results : list Item;
  isOpen : bool;
  selectedIndex : Z;
  isLoading : bool;
  searchError : option string
}.

Section Effect.
(** [guides.filter(...).sort(...).slice(0, 8)] of the long-query branch. *)
Variable rank : list Item -> string -> outcome (list Item).

(** The callback of the debounce timer: the state after it has run. *)
Definition onTimer (guides : list Item) (s : State) : State :=
  if 2 <=? String.length (query s) then
    match rank guides (query s) with
    | Normal searchResults =>
        mkState (query s) searchResults
                ((0 <? List.length searchResults)
                 || (2 <=? String.length (query s)))
                (-1)%Z false None
    | Throw _ =>
        mkState (query s) (results s) false (selectedIndex s) false
                (Some "Search temporarily unavailable. Please try again.")
    end
  else mkState (query s) [] false (-1)%Z (isLoading s) None.
End Effect.

(** [Math.min(a, b, c)] *)
Definition min3 (a b c : nat) : nat := Nat.min a (Nat.min b c).

(** The value assigned to [matrix[i][j]]: [prevRow] is [matrix[i - 1]],
    [row] is [matrix[i]] as filled so far, [c2] is [str2.charAt(i - 1)] and
    [c1] is [str1.charAt(j - 1)]. *)
Definition cell (prevRow row : list nat) (c2 c1 : ascii) (j : nat) : nat :=
  if Ascii.eqb c2 c1 then nth (j - 1) prevRow 0
  else min3 (nth (j - 1) prevRow 0 + 1)
            (nth (j - 1) row 0 + 1)
            (nth j prevRow 0 + 1).

(** [for (let j = 1; j <= str1.length; j++)] over the rest of [str1]. *)
Fixpoint fillRow (prevRow : list nat) (c2 : ascii) (str1 : list ascii)
    (j : nat) (row : list nat) : list nat :=
  match str1 with
  | [] => row
  | c1 :: rest =>
      fillRow prevRow c2 rest (j + 1) (row ++ [cell prevRow row c2 c1 j])
  end.

(** [for (let i = 1; i <= str2.length; i++)] over the rest of [str2];
    [matrix] holds the rows [0 .. i - 1], and row [i] starts as [[i]]. *)
Fixpoint fillRows (str1 str2 : list ascii) (i : nat) (matrix : list (list nat))
  : list (list nat) :=
  match str2 with
  | [] => matrix
  | c2 :: rest =>
      let row := fillRow (nth (i - 1) matrix []) c2 str1 1 [i] in
      fillRows str1 rest (i + 1) (matrix ++ [row])
  end.

Definition levenshteinMatrix (str1 str2 : string) : list (list nat) :=
  let s1 := list_ascii_of_string str1 in
  let s2 := list_ascii_of_string str2 in
  fillRows s1 s2 1 [seq 0 (List.length s1 + 1)].

Definition levenshteinDistance (str1 str2 : string) : nat :=
  nth (String.length str1)
      (nth (String.length str2) (levenshteinMatrix str1 str2) []) 0.

(** [Math.floor(Math.max(normalizedQuery.length, word.length) * 0.3)] *)
Definition maxDistance (normalizedQuery word : string) : Z :=
  Qfloor (QofNat (Nat.max (String.length normalizedQuery) (String.length word))
          * 0.3)%Q.

(** [words.some(callback)] for a callback that may throw. *)
Fixpoint someM {A : Type} (callback : A -> outcome bool) (l : list A)
  : outcome bool :=
  match l with
  | [] => Normal false
  | a :: l' => b <- callback a ;; if b then Normal true else someM callback l'
  end.

(** The edit-distance step of [isRelevantMatch] as the source has it.  Its
    callback reads [this.levenshteinDistance], and [this] is [undefined]
    in the arrow functions of a function component of a module: the read
    throws a [TypeError] at the first word of three characters or more,
    before any distance or threshold is computed. *)
Definition levenshteinStep (normalizedQuery : string) (words : list string)
  : outcome bool :=
  someM (fun word => if String.length word <? 3 then Normal false
                     else Throw TypeError)
        words.

(** [[\s\-_\.]], the separators of the words of the searchable content. *)
Definition isSeparator (c : ascii) : bool :=
  isSpace c || Ascii.eqb c "-" || Ascii.eqb c "_" || Ascii.eqb c ".".

(** [s.split(/[\s\-_\.]/)]: a new piece at each separator. *)
Fixpoint splitWords (s : string) : list string :=
  match s with
  | EmptyString => [""]
  | String c s' =>
      if isSeparator c then "" :: splitWords s'
      else match splitWords s' with
           | w :: ws => String c w :: ws
           | [] => [String c ""]
           end
  end.

(** [word.indexOf(char, from)]; [i] is the position of the head of
    [word]. *)
Fixpoint indexOfFrom (word : string) (char : ascii) (from i : nat) : option nat :=
  match word with
  | EmptyString => None
  | String d word' =>
      if (from <=? i) && Ascii.eqb d char then Some i
      else indexOfFrom word' char from (i + 1)
  end.

(** The callback of the character step of [isRelevantMatch]; the second
    component of the state of the loop is [lastMatchIndex + 1]. *)
Definition charactersInOrder (queryChars : list ascii) (word : string) : bool :=
  if String.length word <? 3 then false
  else
    let '(matchedChars, _) :=
      fold_left
        (fun '(matchedChars, from) char =>
           match indexOfFrom word char from 0 with
           | Some charIndex => (matchedChars + 1, charIndex + 1)
           | None => (matchedChars, from)
           end)
        queryChars (0, 0) in
    let threshold :=
      Z.max (Qceiling (QofNat (List.length queryChars) * 0.7)%Q)
            (Z.of_nat (Nat.min 3 (List.length queryChars))) in
    (threshold <=? Z.of_nat matchedChars)%Z.

(** The searchable content of a guide; [searchText] is its optional
    pre-built text. *)
Definition searchableContent (guide : Item) (searchText : option string)
  : string :=
  toLowerCase
    (join (filterBoolean
             ([Some (name guide); Some (displayName guide);
               Some (description guide); Some (category guide);
               language guide] ++ map Some (topics guide) ++ [searchText]))).

Section Relevance.
(** The edit-distance step, [words.some(...)] over
    [this.levenshteinDistance], on the normalized query and the words. *)
Variable editDistanceStep : string -> list string -> outcome bool.

Definition isRelevantMatch (guide : Item) (searchText : option string)
    (query : string) : outcome bool :=
  let normalizedQuery := trim (toLowerCase query) in
  let content := searchableContent guide searchText in
  if includes content normalizedQuery then Normal true
  else
    let words := splitWords content in
    if existsb (fun word => startsWith word normalizedQuery) words
    then Normal true
    else if (3 <=? String.length normalizedQuery)
            && existsb (fun word => (4 <=? String.length word)
                                    && includes word normalizedQuery) words
    then Normal true
    else if 3 <=? String.length normalizedQuery
    then Normal (existsb (charactersInOrder
                            (list_ascii_of_string normalizedQuery)) words)
    else if 4 <=? String.length normalizedQuery
    then editDistanceStep normalizedQuery words
    else Normal false.
End Relevance.

(** [s.split(/[\s\-_\.]+/)]: the pieces between maximal runs of
    separators. *)
Fixpoint splitRuns (s : string) : list string :=
  match s with
  | EmptyString => [""]
  | String c s' =>
      if isSeparator c then
        match s' with
        | String d _ =>
            if isSeparator d then splitRuns s' else "" :: splitRuns s'
        | EmptyString => "" :: splitRuns s'
        end
      else
        match splitRuns s' with
        | w :: ws => String c w :: ws
        | [] => [String c ""]
        end
  end.

(** [for (let i = 0; i < word.length && queryIndex < query.length; i++)
    if (word[i] === query[queryIndex]) { matches++; queryIndex++; }] over
    the rest of [word]: the final [matches]. *)
Fixpoint countInOrder (word query : string) (queryIndex matches : nat) : nat :=
  match word with
  | EmptyString => matches
  | String c word' =>
      if queryIndex <? String.length query then
        match get queryIndex query with
        | Some qc =>
            if Ascii.eqb c qc
            then countInOrder word' query (queryIndex + 1) (matches + 1)
            else countInOrder word' query queryIndex matches
        | None => countInOrder word' query queryIndex matches
        end
      else matches
  end.

(** [calculateFuzzyScore(query, target)] *)
Definition calculateFuzzyScore (query target : string) : Q :=
  if (String.length query =? 0) || (String.length target =? 0) then 0%Q
  else (QofNat (countInOrder target query 0 0) / QofNat (String.length query))%Q.

(** [getSimpleScore(guide, query)] *)
Definition getSimpleScore (guide : Item) (query : string) : Z :=
  let normalizedQuery := toLowerCase query in
  let score := 0%Z in
  let score :=
    if (toLowerCase (name guide) =? normalizedQuery)%string
    then (score + 100)%Z else score in
  let score :=
    if (toLowerCase (displayName guide) =? normalizedQuery)%string
    then (score + 90)%Z else score in
  let score :=
    if includes (toLowerCase (name guide)) normalizedQuery
    then (score + 50)%Z else score in
  let score :=
    if includes (toLowerCase (displayName guide)) normalizedQuery
    then (score + 40)%Z else score in
  let score :=
    if includes (toLowerCase (description guide)) normalizedQuery
    then (score + 20)%Z else score in
  let score :=
    if includes (category guide) normalizedQuery
    then (score + 30)%Z else score in
  let score :=
    match language guide with
    | Some l => if includes (toLowerCase l) normalizedQuery
                then (score + 15)%Z else score
    | None => score
    end in
  (score + Z.min (stars guide) 10)%Z.

Section Filter.
(** [guide.searchText], the optional pre-built text of a guide. *)
Variable searchTextOf : Item -> option string.

(** The callback of [guides.filter] in the debounced search. *)
Definition passesFilter (guide : Item) (query : string) : bool :=
  let searchTarget := searchableContent guide (searchTextOf guide) in
  let normalizedQuery := toLowerCase query in
  if includes searchTarget normalizedQuery then true
  else
    let words := splitRuns searchTarget in
    if existsb (fun word => startsWith word normalizedQuery) words then true
    else if 3 <=? String.length normalizedQuery then
      existsb
        (fun word =>
           if String.length word <? 3 then false
           else
             let matches := countInOrder word normalizedQuery 0 0 in
             Qle_bool (Qmin (QofNat (String.length normalizedQuery) * 0.7)
                            (QofNat (String.length word) * 0.6))%Q
                      (QofNat matches))
        words
    else false.

(** [guides.filter(...).sort(...).slice(0, 8)] *)
Definition searchGuides (guides : list Item) (query : string) : list Item :=
  firstn 8
    (arraySort
       (fun a b =>
          inject_Z (getSimpleScore b query - getSimpleScore a query))
       (filter (fun guide => passesFilter guide query) guides)).
End Filter.

(** What a key press does beyond the state of the box. *)
Inductive Effect : Type :=
| PreventDefault
| RouterPush (url : string)
| Blur.

(** [handleClose()] *)
Definition handleClose (s : State) : State * list Effect :=
  (mkState "" (results s) false (-1)%Z (isLoading s) (searchError s), [Blur]).

(** [results[i]] for an integer [i]: [undefined] outside the array. *)
Definition at_ (results : list Item) (i : Z) : option Item :=
  if (i <? 0)%Z then None else nth_error results (Z.to_nat i).

Definition withSelectedIndex (s : State) (i : Z) : State :=
  mkState (query s) (results s) (isOpen s) i (isLoading s) (searchError s).

(** [handleKeyDown(e)] for [e.key = key]. *)
Definition handleKeyDown (s : State) (key : string) : State * list Effect :=
  if negb (isOpen s) || (List.length (results s) =? 0) then (s, [])
  else if (key =? "ArrowDown")%string then
    (withSelectedIndex s
       (Z.min (selectedIndex s + 1) (Z.of_nat (List.length (results s)) - 1)),
     [PreventDefault])
  else if (key =? "ArrowUp")%string then
    (withSelectedIndex s (Z.max (selectedIndex s - 1) (-1)), [PreventDefault])
  else if (key =? "Enter")%string then
    if (0 <=? selectedIndex s)%Z then
      match at_ (results s) (selectedIndex s) with
      | Some result =>
          let '(s', effects) := handleClose s in
          (s',
           PreventDefault
           :: RouterPush ("/" ++ category result ++ "/" ++ slug result ++ "/")
           :: effects)
      | None => (s, [PreventDefault])
      end
    else (s, [PreventDefault])
  else if (key =? "Escape")%string then
    let '(s', effects) := handleClose s in (s', PreventDefault :: effects)
  else (s, []).

End SearchBox.

(** * Vocabulary of the properties *)

Import FuzzySearch.

(** ** Sample entries *)

Definition nginx : Item :=
  mkItem "nginx" "NGINX" "High-performance web server" "web-server" None
         ["proxy"] 12 "nginx".

Definition nagios : Item :=
  mkItem "nagios" "Nagios" "Infrastructure monitoring" "monitoring" None [] 3
         "nagios".

Definition nginxUi : Item :=
  mkItem "nginx-ui" "Nginx UI" "Web interface for the Nginx server"
         "web-server" None [] 1 "nginx-ui".

Definition nginxProxyManager : Item :=
  mkItem "nginx-proxy-manager" "Nginx Proxy Manager"
         "Reverse proxy with a web interface" "web-server" None [] 5
         "nginx-proxy-manager".

Definition caddy : Item :=
  mkItem "caddy" "Caddy" "Modern web server, an alternative to nginx"
         "web-server" None [] 7 "caddy".

(** ** Queries *)

(** A query that is [null], empty or shorter than two characters. *)
Definition tooShort (query : option string) : Prop :=
  match query with
  | Some q => String.length q < 2
  | None => True
  end.

(** The normal form that [expandSearchQuery] and [search] give a query. *)
Definition normalize (query : string) : string := trim (toLowerCase query).

(** No upper-case letter occurs in [s]. *)
Fixpoint noUpper (s : string) : bool :=
  match s with
  | EmptyString => true
  | String c s' => negb (isUpper c) && noUpper s'
  end.

(** ** Edit distance *)

Module Levenshtein.
Import SearchBox.

(** The recurrence that the matrix tabulates, on prefixes read backwards:
    [lev (rev p1) (rev p2)] is the entry at row [length p2] and column
    [length p1] for a prefix [p1] of [str1] and a prefix [p2] of [str2]. *)
Fixpoint lev (r1 : list ascii) : list ascii -> nat :=
  match r1 with
  | [] => fun r2 => List.length r2
  | c1 :: r1' =>
      fix levRow (r2 : list ascii) : nat :=
        match r2 with
        | [] => S (List.length r1')
        | c2 :: r2' =>
            if Ascii.eqb c2 c1 then lev r1' r2'
            else min3 (lev r1' r2' + 1) (lev r1' r2 + 1) (levRow r2' + 1)
        end
  end.

(** [row] holds the entries of the columns [0 .. n] for the prefix of
    [str2] that reads [r2] backwards. *)
Definition rowUpTo (s1 : list ascii) (n : nat) (r2 : list ascii)
    (row : list nat) : Prop :=
  List.length row = n + 1
  /\ forall j, j <= n -> nth j row 0 = lev (rev (firstn j s1)) r2.

End Levenshtein.

(** ** Subsequences and scans *)

(** [Subsequence q text]: the characters of [q] occur in [text], in order. *)
Inductive Subsequence : string -> string -> Prop :=
| sub_empty (text : string) : Subsequence "" text
| sub_take (c : ascii) (q text : string) :
    Subsequence q text -> Subsequence (String c q) (String c text)
| sub_skip (c : ascii) (q text : string) :
    Subsequence q text -> Subsequence q (String c text).

Create HintDb search.
#[local] Hint Constructors Subsequence : search.

(** How many characters of [q] a left-to-right scan of [text] finds. *)
Fixpoint consumed (text q : string) : nat :=
  match text with
  | EmptyString => 0
  | String c text' =>
      match q with
      | EmptyString => 0
      | String a q' =>
          if Ascii.eqb c a then S (consumed text' q') else consumed text' q
      end
  end.

(** [dropS n q] is [q] from position [n] on. *)
Fixpoint dropS (n : nat) (q : string) : string :=
  match n, q with
  | 0, _ => q
  | S n', String _ q' => dropS n' q'
  | S _, EmptyString => EmptyString
  end.

(** What the scan keeps true of its variables. *)
Definition scanInv (s : Scan) : Prop :=
  List.length (scanMatches s) = scanQueryIndex s
  /\ Forall (fun m => matchType m = Character) (scanMatches s)
  /\ (0 <= scanScore s)%Q
  /\ (0 < scanQueryIndex s -> (0 < scanScore s)%Q).

(** ** Order of results *)

(** [(a, b) => f(b) - f(a)], the comparator of every sort by score. *)
Definition descending {A : Type} (f : A -> Q) (a b : A) : Q := (f b - f a)%Q.

(** [a] is ranked ahead of [b]: a greater score [f], or the same score
    and the earlier place in the order [before] of the array that is
    sorted. *)
Definition ranked {A : Type} (f : A -> Q) (before : A -> A -> Prop) (a b : A)
  : Prop :=
  (f b < f a)%Q \/ ((f a == f b)%Q /\ before a b).

(** The place in the catalog of the item of a result of [search]. *)
Definition placeOf {T : Type} (r : SearchResult.t T) : nat :=
  match SearchResult.refIndex r with
  | Some i => i
  | None => 0
  end.

(** ** Substrings and spans *)

(** [Within q text]: [q] occurs in [text]. *)
Definition Within (q text : string) : Prop :=
  exists pre post, text = (pre ++ q ++ post)%string.

(** [chain g lo l n]: the spans of [l] come in order without overlap,
    from position [lo] on and up to position [n], each at least [g]
    characters long. *)
Fixpoint chain (g lo : nat) (l : list Match) (n : nat) : Prop :=
  match l with
  | [] => lo <= n
  | m :: l' => lo <= start m /\ start m + g <= end_ m /\ chain g (end_ m) l' n
  end.

(** The spans [l] were all found in the value of one key of the entry
    [x], which they record, and form a chain within that value. *)
Definition spansOfOneField {T : Type} (view : T -> Item) (x : T)
    (l : list Match) : Prop :=
  exists key,
    chain 0 0 l (String.length (getValue (view x) key))
    /\ Forall (fun m => mkey m = Some key
                        /\ mvalue m = Some (getValue (view x) key)) l.

(** ** Expansion *)

(** The test of the partial scan of [expandSearchQuery]:
    [keyword.includes(q) || q.includes(keyword)]. *)
Definition related (q keyword : string) : bool :=
  includes keyword q || includes q keyword.

(** ** Best matches and what they mark *)

(** What the loop over the keys keeps true of the best match so far, the
    keys being taken from [ks]: the score lies between 0 and 1, and either
    no key has matched yet, or the best key is one of [ks] and comes with a
    positive score and at least one span. *)
Definition bestInv (ks : list string) (b : Best) : Prop :=
  (0 <= bestFuzzyScore b <= 1)%Q
  /\ ((bestKey b = "" /\ (bestFuzzyScore b == 0)%Q /\ bestMatches b = [])
      \/ (In (bestKey b) ks /\ (0 < bestFuzzyScore b)%Q
          /\ bestMatches b <> [])).

(** The characters of [text] that the spans [l] mark, span after span. *)
Definition spell (text : string) (l : list Match) : string :=
  fold_right (fun m acc => (slice text (start m) (end_ m) ++ acc)%string) "" l.

(** The spans of the best match so far mark, in the lower-cased value of
    its key for the entry [x], the characters of one of [terms], and
    record that key, that value and, unless the term is the query [nq]
    itself, that term. *)
Definition marksTerm {T : Type} (view : T -> Item) (x : T) (nq : string)
    (terms : list string) (key : string) (l : list Match) : Prop :=
  exists term,
    In term terms
    /\ spell (toLowerCase (getValue (view x) key)) l = term
    /\ Forall (fun m => mkey m = Some key
                        /\ mvalue m = Some (getValue (view x) key)
                        /\ (expandedTerm m = Some term \/ term = nq)) l.

(** ** The index *)

(** No whitespace occurs in [s]. *)
Fixpoint noSpace (s : string) : bool :=
  match s with
  | EmptyString => true
  | String c s' => negb (isSpace c) && noSpace s'
  end.

(** The word filter of [searchIndex] lets the entry [e] through for the
    normalized query [nq]: the query has at most three characters, or
    one of the words of the entry contains it or is contained in it. *)
Definition sharesWord (nq : string) (e : Indexed) : Prop :=
  String.length nq <= 3
  \/ exists word,
       In word (_searchWords e) /\ (Within nq word \/ Within word nq).

(** ** Tracked calls *)

(** A call of [trackSearch]: its arguments and the time of the call. *)
Record Tracked : Type := mkTracked {
  trackedQuery : string;
  trackedCount : nat;
  trackedSelection : option Item;
  trackedTime : Z
}.

(** The analytics after the calls [calls] on a fresh instance. *)
Definition trackAll (calls : list Tracked) : SearchAnalytics.t :=
  fold_left
    (fun this c =>
       SearchAnalytics.trackSearch this (trackedQuery c) (trackedCount c)
         (trackedSelection c) (trackedTime c))
    calls SearchAnalytics.new.

(** The record that [trackSearch] keeps of a call. *)
Definition recordOf (c : Tracked) : SearchAnalytics.Search :=
  SearchAnalytics.mkSearch (trackedQuery c) (trackedCount c)
    (trackedSelection c) (trackedTime c).

(** How many of the calls had the query [q]. *)
Definition timesAsked (calls : list Tracked) (q : string) : nat :=
  List.length (filter (fun c => (trackedQuery c =? q)%string) calls).

(** * Properties *)

(** ** Short queries *)

Lemma shorterThan_tooShort (n : nat) (query : option string) :
  2 <= n -> tooShort query -> shorterThan n query = true.
Proof.
  intros Hn Hq. destruct query as [q|]; simpl in *; [|reflexivity].
  apply orb_true_iff. right. apply Nat.ltb_lt. lia.
Qed.

Lemma entries_fst {T : Type} (l : list T) :
  map fst (entries l) = seq 0 (List.length l).
Proof.
  unfold entries. generalize 0. induction l as [|x l IH]; intros n; simpl.
  - reflexivity.
  - f_equal. apply IH.
Qed.

Lemma entries_snd {T : Type} (l : list T) : map snd (entries l) = l.
Proof.
  unfold entries. generalize 0. induction l as [|x l IH]; intros n; simpl.
  - reflexivity.
  - f_equal. apply IH.
Qed.

Lemma search_short {T : Type} (this : FuzzySearch.t) (view : T -> Item)
    (items : list T) (query : option string) :
  tooShort query ->
  search this view items query
  = Normal (map (fun '(i, item) =>
                   SearchResult.mk item 0%Q [] (Some i) None None None)
                (entries items)).
Proof.
  intros Hq. unfold search. destruct query as [q|]; [|reflexivity].
  rewrite (shorterThan_tooShort 2 (Some q)); auto.
Qed.

Lemma searchIndex_short (this : FuzzySearch.t) (indexedItems : list Indexed)
    (query : option string) :
  tooShort query ->
  searchIndex this indexedItems query
  = Normal (map (fun item => SearchResult.mk item 0%Q [] None None None None)
                indexedItems).
Proof.
  intros Hq. unfold searchIndex. destruct query as [q|]; [|reflexivity].
  rewrite (shorterThan_tooShort 2 (Some q)); auto.
Qed.

(** C10. For a query that is null, empty or shorter than two characters,
    [FuzzySearch.search] returns one result per catalog item, in catalog
    order, each with score 0 and no matches, and so does [searchIndex];
    the empty answer to such a query is given by [SearchManager.search]. *)
Theorem search_short_query_lists_catalog :
  forall (T : Type) (this : FuzzySearch.t) (view : T -> Item) (items : list T)
         (query : option string),
    tooShort query ->
    (exists rs,
        search this view items query = Normal rs
        /\ map SearchResult.item rs = items
        /\ map SearchResult.refIndex rs = map Some (seq 0 (List.length items))
        /\ Forall (fun r => SearchResult.score r = 0%Q
                            /\ SearchResult.matches r = []) rs)
    /\ (forall indexedItems,
           exists rs,
             searchIndex this indexedItems query = Normal rs
             /\ map SearchResult.item rs = indexedItems
             /\ Forall (fun r => SearchResult.score r = 0%Q
                                 /\ SearchResult.matches r = []) rs)
    /\ (forall data,
           snd (SearchManager.search
                  (SearchManager.setData SearchManager.default data) query)
           = Normal []).
Proof.
  intros T this view items query Hq. split; [|split].
  - eexists. split; [apply search_short; exact Hq|].
    split; [|split].
    + rewrite map_map. rewrite <- (entries_snd items) at 2.
      apply map_ext. intros [i x]. reflexivity.
    + rewrite map_map. rewrite <- entries_fst, map_map.
      apply map_ext. intros [i x]. reflexivity.
    + apply Forall_forall. intros r Hr. apply in_map_iff in Hr.
      destruct Hr as [[i x] [<- _]]. split; reflexivity.
  - intros indexedItems. eexists.
    split; [apply searchIndex_short; exact Hq|]. split.
    + rewrite map_map. simpl. apply map_id.
    + apply Forall_forall. intros r Hr. apply in_map_iff in Hr.
      destruct Hr as [x [<- _]]. split; reflexivity.
  - intros data. unfold SearchManager.search, SearchManager.searchWith.
    cbn [SearchManager.minQueryLength SearchManager.setData
         SearchManager.default SearchManager.new SearchManager.orElse
         SearchManager.optMinQueryLength].
    rewrite shorterThan_tooShort; auto.
Qed.

Lemma search_short_query_lists_catalog_witness :
  exists rs,
    search FuzzySearch.default id [nginx; nagios] (Some "n") = Normal rs
    /\ map SearchResult.item rs = [nginx; nagios].
Proof.
  destruct (search_short_query_lists_catalog Item FuzzySearch.default id
              [nginx; nagios] (Some "n")) as [[rs [H1 [H2 _]]] _].
  - simpl. lia.
  - exists rs. split; assumption.
Defined.

(** C3, as stated.  The minimum length of a session is an option, and
    [options.minQueryLength || 2] keeps a minimum of 1.  The query [n]
    then passes the guard of the session and reaches [searchIndex], whose
    own guard answers with one result for every entry: the result list is
    not empty. *)
Lemma one_character_query_lists_catalog :
  let this :=
    SearchManager.setData
      (SearchManager.new
         (SearchManager.mkOptions (FuzzySearch.mkOptions None None None)
                                  None (Some 1)))
      [nginx; nagios] in
  SearchManager.minQueryLength this = 1
  /\ String.length "n" < 2
  /\ exists f1 f2,
       snd (SearchManager.search this (Some "n")) = Normal [f1; f2]
       /\ base (SearchManager.entry f1) = nginx
       /\ base (SearchManager.entry f2) = nagios.
Proof.
  cbv zeta. split; [reflexivity|]. split; [simpl; lia|].
  eexists. eexists. split; [vm_compute; reflexivity|].
  split; reflexivity.
Qed.

(** C3, amended.  In a session whose minimum query length is at least 2,
    as it is by default, a query that is null, empty or shorter than two
    characters makes the session search return the empty list as a normal
    result, after recording the query and clearing the selection,
    whatever the fuzzy search it would call on a longer query does: it is
    not called.  The search box, whose minimum is the constant 2, likewise
    sets the empty result list and no error without reaching its
    filter. *)
Theorem manager_short_query_is_empty :
  forall (fuzzySearchIndex :
            FuzzySearch.t -> list Indexed -> option string ->
            outcome (list (SearchResult.t Indexed)))
         (this : SearchManager.t) (query : option string),
    2 <= SearchManager.minQueryLength this ->
    tooShort query ->
    snd (SearchManager.searchWith fuzzySearchIndex this query) = Normal []
    /\ SearchManager.currentQuery
         (fst (SearchManager.searchWith fuzzySearchIndex this query)) = query
    /\ SearchManager.selectedIndex
         (fst (SearchManager.searchWith fuzzySearchIndex this query)) = (-1)%Z
    /\ (forall rank guides s,
           String.length (SearchBox.query s) < 2 ->
           SearchBox.results (SearchBox.onTimer rank guides s) = []
           /\ SearchBox.searchError (SearchBox.onTimer rank guides s) = None
           /\ SearchBox.isOpen (SearchBox.onTimer rank guides s) = false).
Proof.
  intros impl this query Hmin Hq. unfold SearchManager.searchWith. simpl.
  rewrite shorterThan_tooShort by assumption. simpl.
  repeat split; try reflexivity.
  all: unfold SearchBox.onTimer;
    destruct (Nat.leb_spec 2 (String.length (SearchBox.query s))); try lia;
    reflexivity.
Qed.

Lemma manager_short_query_is_empty_witness :
  snd (SearchManager.searchWith (fun _ _ _ => Throw TypeError)
         (SearchManager.setData SearchManager.default [nginx; nagios])
         (Some "n"))
  = Normal [].
Proof.
  apply (manager_short_query_is_empty (fun _ _ _ => Throw TypeError)
           (SearchManager.setData SearchManager.default [nginx; nagios])
           (Some "n")).
  - simpl. lia.
  - simpl. lia.
Defined.

(** ** Thesaurus expansion *)

Lemma setAdd_head (x t : string) (rest : list string) :
  exists rest', setAdd (x :: rest) t = x :: rest'.
Proof.
  unfold setAdd. destruct (existsb (String.eqb t) (x :: rest)).
  - exists rest. reflexivity.
  - exists (rest ++ [t]). reflexivity.
Qed.

Lemma fold_setAdd_head (aliases : list string) (x : string) (rest : list string) :
  exists rest', fold_left setAdd aliases (x :: rest) = x :: rest'.
Proof.
  revert rest. induction aliases as [|a aliases IH]; intros rest; simpl.
  - exists rest. reflexivity.
  - destruct (setAdd_head x a rest) as [rest' ->]. apply IH.
Qed.

Lemma partial_scan_head (q : string) (table : list (string * list string))
    (x : string) (rest : list string) :
  exists rest',
    fold_left
      (fun terms '(keyword, aliases) =>
         if includes keyword q || includes q keyword
         then fold_left setAdd aliases (setAdd terms keyword)
         else terms)
      table (x :: rest) = x :: rest'.
Proof.
  revert rest. induction table as [|[keyword aliases] table IH]; intros rest; simpl.
  - exists rest. reflexivity.
  - destruct (includes keyword q || includes q keyword).
    + destruct (setAdd_head x keyword rest) as [r1 ->].
      destruct (fold_setAdd_head aliases x r1) as [r2 ->]. apply IH.
    + apply IH.
Qed.

(** Outside the names inherited from [Object.prototype], the expansion
    returns normally and starts with the normalized term. *)
Lemma expandSearchQuery_head (t : string) :
  getProperty SEARCH_KEYWORDS (normalize t) <> Inherited ->
  exists rest, expandSearchQuery t = Normal (normalize t :: rest).
Proof.
  intros Hp. unfold expandSearchQuery. fold (normalize t).
  destruct (getProperty SEARCH_KEYWORDS (normalize t)) as [aliases| |] eqn:E.
  - destruct (fold_setAdd_head aliases (normalize t) []) as [r1 ->].
    unfold bind.
    destruct (3 <? String.length (normalize t)).
    + destruct (partial_scan_head (normalize t) SEARCH_KEYWORDS (normalize t) r1)
        as [r2 ->].
      exists r2. reflexivity.
    + exists r1. reflexivity.
  - contradiction.
  - unfold bind. destruct (3 <? String.length (normalize t)).
    + destruct (partial_scan_head (normalize t) SEARCH_KEYWORDS (normalize t) [])
        as [r2 ->].
      exists r2. reflexivity.
    + exists []. reflexivity.
Qed.

Lemma expandSearchQuery_throws (t : string) :
  getProperty SEARCH_KEYWORDS (normalize t) = Inherited ->
  expandSearchQuery t = Throw TypeError.
Proof.
  intros Hp. unfold expandSearchQuery. fold (normalize t). rewrite Hp.
  reflexivity.
Qed.

Lemma lowerChar_not_upper (c : ascii) : isUpper (lowerChar c) = false.
Proof.
  unfold lowerChar. destruct (isUpper c) eqn:E; [|exact E].
  unfold isUpper in *. apply andb_true_iff in E. destruct E as [E1 E2].
  apply Nat.leb_le in E1. apply Nat.leb_le in E2.
  rewrite nat_ascii_embedding by lia.
  apply andb_false_iff. right. apply Nat.leb_gt. lia.
Qed.

Lemma noUpper_toLowerCase (s : string) : noUpper (toLowerCase s) = true.
Proof.
  induction s as [|c s IH]; simpl; [reflexivity|].
  rewrite lowerChar_not_upper, IH. reflexivity.
Qed.

Lemma noUpper_trimStart (s : string) :
  noUpper s = true -> noUpper (trimStart s) = true.
Proof.
  induction s as [|c s IH]; simpl; intros H; [reflexivity|].
  apply andb_true_iff in H. destruct H as [H1 H2].
  destruct (isSpace c); [auto|]. simpl. rewrite H1, H2. reflexivity.
Qed.

Lemma noUpper_trimEnd (s : string) :
  noUpper s = true -> noUpper (trimEnd s) = true.
Proof.
  induction s as [|c s IH]; simpl; intros H; [reflexivity|].
  apply andb_true_iff in H. destruct H as [H1 H2].
  destruct (isSpace c && (trimEnd s =? "")%string); [reflexivity|].
  simpl. rewrite H1, IH; auto.
Qed.

Lemma noUpper_normalize (t : string) : noUpper (normalize t) = true.
Proof.
  unfold normalize, trim.
  apply noUpper_trimEnd, noUpper_trimStart, noUpper_toLowerCase.
Qed.

(** The expansion throws on exactly two terms. *)
Lemma expandSearchQuery_inherited (t : string) :
  getProperty SEARCH_KEYWORDS (normalize t) = Inherited
  <-> normalize t = "constructor" \/ normalize t = "__proto__".
Proof.
  split.
  - intros H. pose proof (noUpper_normalize t) as Hl.
    unfold getProperty in H.
    destruct (ownProperty SEARCH_KEYWORDS (normalize t)); [discriminate|].
    destruct (existsb (String.eqb (normalize t)) objectPrototypeKeys) eqn:E;
      [|discriminate].
    apply existsb_exists in E. destruct E as [k [Hk Heq]].
    apply String.eqb_eq in Heq. rewrite Heq in *. clear Heq H.
    simpl in Hk.
    repeat (destruct Hk as [<-|Hk]; [first [left; reflexivity | right; reflexivity | discriminate Hl]|]).
    contradiction.
  - intros [-> | ->]; reflexivity.
Qed.

(** C7. [expandSearchQuery] has an error condition: on the term
    [constructor] the lookup [SEARCH_KEYWORDS[normalizedQuery]] finds the
    function inherited from [Object.prototype], which is truthy and has no
    [forEach], and the call throws instead of returning the singleton of
    the term; so does a search for that term. *)
Theorem expandSearchQuery_constructor_throws :
  expandSearchQuery "constructor" = Throw TypeError
  /\ search FuzzySearch.default id [nginx; nagios] (Some "constructor")
     = Throw TypeError.
Proof. split; reflexivity. Qed.

(** ** Edit distance *)

Module LevenshteinFacts.
Import SearchBox Levenshtein.

Lemma lev_nil_r (r1 : list ascii) : lev r1 [] = List.length r1.
Proof. destruct r1; reflexivity. Qed.

Lemma lev_cons (c1 c2 : ascii) (r1 r2 : list ascii) :
  lev (c1 :: r1) (c2 :: r2)
  = if Ascii.eqb c2 c1 then lev r1 r2
    else min3 (lev r1 r2 + 1) (lev r1 (c2 :: r2) + 1) (lev (c1 :: r1) r2 + 1).
Proof. reflexivity. Qed.

Lemma min3_swap (a b c : nat) : min3 a b c = min3 a c b.
Proof. unfold min3. lia. Qed.

Lemma lev_sym (r1 r2 : list ascii) : lev r1 r2 = lev r2 r1.
Proof.
  revert r2. induction r1 as [|c1 r1 IH1]; intros r2.
  - rewrite lev_nil_r. reflexivity.
  - induction r2 as [|c2 r2 IH2].
    + rewrite lev_nil_r. reflexivity.
    + rewrite !lev_cons, Ascii.eqb_sym.
      rewrite (IH1 r2), (IH1 (c2 :: r2)), IH2.
      destruct (Ascii.eqb c1 c2); [reflexivity|apply min3_swap].
Qed.

Lemma lev_refl (r : list ascii) : lev r r = 0.
Proof.
  induction r as [|c r IH]; [reflexivity|].
  rewrite lev_cons, Ascii.eqb_refl. exact IH.
Qed.

Section Table.
Variable s1 : list ascii.

Lemma firstn_snoc (done rest : list ascii) (c : ascii) :
  s1 = done ++ c :: rest ->
  rev (firstn (List.length done + 1) s1) = c :: rev done.
Proof.
  intros ->. replace (List.length done + 1) with (List.length (done ++ [c])).
  - change (done ++ c :: rest) with (done ++ [c] ++ rest).
    rewrite app_assoc, firstn_app, firstn_all, Nat.sub_diag. simpl.
    rewrite app_nil_r, rev_app_distr. reflexivity.
  - rewrite length_app. reflexivity.
Qed.

Lemma firstn_done (done rest : list ascii) :
  s1 = done ++ rest -> firstn (List.length done) s1 = done.
Proof.
  intros ->. rewrite firstn_app, firstn_all, Nat.sub_diag. simpl.
  apply app_nil_r.
Qed.

Lemma fillRow_spec (c2 : ascii) (r2 : list ascii) (prevRow : list nat) :
  rowUpTo s1 (List.length s1) r2 prevRow ->
  forall rest done row,
    s1 = done ++ rest ->
    rowUpTo s1 (List.length done) (c2 :: r2) row ->
    rowUpTo s1 (List.length s1) (c2 :: r2)
            (fillRow prevRow c2 rest (List.length done + 1) row).
Proof.
  intros [Hlen Hprev]. induction rest as [|c1 rest IH]; intros done row Hs Hrow.
  - simpl. rewrite app_nil_r in Hs. rewrite <- Hs in Hrow. exact Hrow.
  - simpl.
    replace (List.length done + 1 + 1) with (List.length (done ++ [c1]) + 1)
      by (rewrite length_app; simpl; lia).
    apply IH.
    + rewrite Hs, <- app_assoc. reflexivity.
    + destruct Hrow as [Hl Hr]. split.
      * rewrite !length_app. simpl. lia.
      * intros j Hj. rewrite length_app in Hj. simpl in Hj.
        destruct (Nat.eq_dec j (List.length done + 1)) as [->|Hne].
        -- rewrite app_nth2 by lia. rewrite Hl, Nat.sub_diag. simpl.
           unfold cell.
           replace (List.length done + 1 - 1) with (List.length done) by lia.
           rewrite (Hprev (List.length done)), (Hr (List.length done)),
             (Hprev (List.length done + 1));
             try (rewrite Hs, length_app; simpl; lia); try lia.
           rewrite (firstn_snoc done rest c1 Hs), (firstn_done done _ Hs).
           rewrite lev_cons. reflexivity.
        -- rewrite app_nth1 by lia. apply Hr. lia.
Qed.

Lemma rowUpTo_zero (c2 : ascii) (r2 : list ascii) :
  rowUpTo s1 0 (c2 :: r2) [List.length r2 + 1].
Proof.
  split; [reflexivity|]. intros j Hj. replace j with 0 by lia. simpl. lia.
Qed.

Lemma fillRows_spec :
  forall rest done matrix,
    List.length matrix = List.length done + 1 ->
    rowUpTo s1 (List.length s1) (rev done) (nth (List.length done) matrix []) ->
    rowUpTo s1 (List.length s1) (rev (done ++ rest))
            (nth (List.length (done ++ rest))
                 (fillRows s1 rest (List.length done + 1) matrix) []).
Proof.
  induction rest as [|c2 rest IH]; intros done matrix Hlen Hrow.
  - simpl. rewrite app_nil_r. exact Hrow.
  - simpl.
    replace (done ++ c2 :: rest) with ((done ++ [c2]) ++ rest)
      by (rewrite <- app_assoc; reflexivity).
    replace (List.length done + 1 + 1) with (List.length (done ++ [c2]) + 1)
      by (rewrite length_app; simpl; lia).
    apply IH.
    + rewrite !length_app. simpl. lia.
    + rewrite length_app. simpl. rewrite app_nth2 by lia.
      replace (List.length done + 1 - List.length matrix) with 0 by lia.
      simpl. rewrite rev_app_distr. simpl.
      replace (List.length done + 1 - 1) with (List.length done) by lia.
      apply (fillRow_spec c2 (rev done) _ Hrow s1 [] _ eq_refl).
      replace (List.length done) with (List.length (rev done))
        by apply length_rev.
      apply rowUpTo_zero.
Qed.
End Table.

Lemma length_list_ascii_of_string (s : string) :
  List.length (list_ascii_of_string s) = String.length s.
Proof. induction s as [|c s IH]; simpl; [reflexivity|f_equal; exact IH]. Qed.

(** The matrix entry that [levenshteinDistance] returns is the recurrence
    at the two whole strings. *)
Lemma levenshteinDistance_lev (str1 str2 : string) :
  levenshteinDistance str1 str2
  = lev (rev (list_ascii_of_string str1)) (rev (list_ascii_of_string str2)).
Proof.
  unfold levenshteinDistance, levenshteinMatrix.
  set (s1 := list_ascii_of_string str1). set (s2 := list_ascii_of_string str2).
  assert (H0 : rowUpTo s1 (List.length s1) (rev [])
                 (nth (List.length (@nil ascii)) [seq 0 (List.length s1 + 1)] [])).
  { simpl. split; [apply length_seq|].
    intros j Hj. rewrite seq_nth by lia. rewrite lev_nil_r, length_rev.
    rewrite length_firstn. lia. }
  pose proof (fillRows_spec s1 s2 [] [seq 0 (List.length s1 + 1)] eq_refl H0)
    as [_ H].
  simpl in H. rewrite <- !length_list_ascii_of_string. fold s1 s2.
  rewrite (H (List.length s1)) by lia. rewrite firstn_all. reflexivity.
Qed.

End LevenshteinFacts.

(** C8. The edit distance of the search box is symmetric, and the distance
    from a string to itself is 0. *)
Theorem levenshteinDistance_symmetric :
  forall a b : string,
    SearchBox.levenshteinDistance a b = SearchBox.levenshteinDistance b a
    /\ SearchBox.levenshteinDistance a a = 0.
Proof.
  intros a b. rewrite !LevenshteinFacts.levenshteinDistance_lev. split.
  - apply LevenshteinFacts.lev_sym.
  - apply LevenshteinFacts.lev_refl.
Qed.

(** ** The character-subsequence tier *)

Lemma Subsequence_tail (a : ascii) (q text : string) :
  Subsequence (String a q) text -> Subsequence q text.
Proof.
  intros H. remember (String a q) as aq eqn:E. revert a q E.
  induction H as [text|c q' text H IH|c q' text H IH]; intros a q E.
  - discriminate.
  - injection E as -> ->. auto with search.
  - eauto with search.
Qed.

Lemma Subsequence_length (q text : string) :
  Subsequence q text -> String.length q <= String.length text.
Proof. induction 1; simpl; lia. Qed.

Lemma consumed_empty (text : string) : consumed text "" = 0.
Proof. destruct text; reflexivity. Qed.

Lemma consumed_le (text q : string) : consumed text q <= String.length q.
Proof.
  revert q. induction text as [|c text IH]; intros q; simpl; [lia|].
  destruct q as [|a q]; simpl; [lia|].
  destruct (Ascii.eqb c a).
  - specialize (IH q). lia.
  - apply (IH (String a q)).
Qed.

Lemma consumed_all_iff (text q : string) :
  consumed text q = String.length q <-> Subsequence q text.
Proof.
  split.
  - revert q. induction text as [|c text IH]; intros q H.
    + destruct q; [constructor|discriminate].
    + destruct q as [|a q]; [constructor|]. simpl in H.
      destruct (Ascii.eqb_spec c a) as [->|Hne].
      * apply sub_take, IH. simpl in H. lia.
      * apply sub_skip, IH. exact H.
  - revert q. induction text as [|c text IH]; intros q H.
    + inversion H. reflexivity.
    + destruct q as [|a q]; [reflexivity|]. simpl.
      destruct (Ascii.eqb_spec c a) as [->|Hne].
      * f_equal. apply IH.
        inversion H; subst; [assumption|eapply Subsequence_tail; eassumption].
      * apply IH. inversion H; subst; [congruence|assumption].
Qed.

Lemma get_dropS (n : nat) (q : string) :
  get n q = match dropS n q with String c _ => Some c | EmptyString => None end.
Proof.
  revert n. induction q as [|c q IH]; intros [|n]; simpl; auto.
Qed.

Lemma dropS_next (n : nat) (q : string) (c : ascii) (r : string) :
  dropS n q = String c r -> dropS (n + 1) q = r.
Proof.
  revert q. induction n as [|n IH]; intros q H; simpl in *.
  - subst q. reflexivity.
  - destruct q as [|d q]; [discriminate|]. apply IH. exact H.
Qed.

Lemma dropS_length (n : nat) (q : string) :
  String.length (dropS n q) = String.length q - n.
Proof.
  revert q. induction n as [|n IH]; intros q; simpl; [lia|].
  destruct q as [|d q]; simpl; [reflexivity|apply IH].
Qed.

Section ScanFacts.
Variable this : FuzzySearch.t.
Variable query : string.

(** The scan leaves the query index at the number of characters it
    found. *)
Lemma scanLoop_queryIndex (text : string) :
  forall textIndex prev s,
    scanQueryIndex
      (scanLoop query (String.length query) text textIndex prev s)
    = scanQueryIndex s + consumed text (dropS (scanQueryIndex s) query).
Proof.
  induction text as [|c text IH]; intros textIndex prev s; simpl; [lia|].
  pose proof (dropS_length (scanQueryIndex s) query) as Hlen.
  destruct (Nat.ltb_spec (scanQueryIndex s) (String.length query)) as [Hlt|Hge].
  - rewrite IH. unfold scanStep. rewrite get_dropS.
    destruct (dropS (scanQueryIndex s) query) as [|a r] eqn:E;
      [simpl in Hlen; lia|].
    destruct (Ascii.eqb c a) eqn:Eca.
    + destruct (Z.of_nat textIndex =? lastMatchIndex s + 1)%Z; simpl;
        rewrite (dropS_next _ _ _ _ E); lia.
    + rewrite E. reflexivity.
  - destruct (dropS (scanQueryIndex s) query) as [|a r];
      [lia|simpl in Hlen; lia].
Qed.

Lemma base_score_positive :
  query <> "" -> (0 < 0.8 / QofNat (String.length query))%Q.
Proof.
  intros Hq. apply Qlt_shift_div_l; [|lra].
  unfold QofNat. change 0%Q with (inject_Z 0). rewrite <- Zlt_Qlt.
  destruct query; [congruence|simpl; lia].
Qed.

Lemma scanStep_inv (textIndex : nat) (prev : option ascii) (c : ascii)
    (s : Scan) :
  query <> "" -> scanInv s ->
  scanInv (scanStep query (String.length query) textIndex prev c s).
Proof.
  intros Hq (Hlen & Hty & Hnn & Hpos). unfold scanStep.
  pose proof (base_score_positive Hq) as Hb.
  destruct (get (scanQueryIndex s) query) as [qc|]; [|repeat split; auto].
  destruct (Ascii.eqb c qc); [|repeat split; auto].
  assert (Hc : forall n : nat, (0 <= 0.1 + QofNat n * 0.05)%Q).
  { intros n. assert (0 <= QofNat n)%Q.
    { unfold QofNat. change 0%Q with (inject_Z 0). rewrite <- Zle_Qle. lia. }
    lra. }
  specialize (Hc (consecutiveMatches s + 1)).
  destruct (Z.of_nat textIndex =? lastMatchIndex s + 1)%Z;
    destruct (atWordStart prev);
    unfold scanInv; cbn [scanMatches scanScore scanQueryIndex].
  all: split; [|split; [|split]];
    [ rewrite length_app; simpl; lia
    | apply Forall_app; split; [assumption|repeat constructor]
    | lra
    | intros _; lra ].
Qed.

Lemma scanLoop_inv (text : string) :
  query <> "" ->
  forall textIndex prev s,
    scanInv s ->
    scanInv (scanLoop query (String.length query) text textIndex prev s).
Proof.
  intros Hq. induction text as [|c text IH]; intros textIndex prev s Hs;
    simpl; [assumption|].
  destruct (scanQueryIndex s <? String.length query); [|assumption].
  apply IH, scanStep_inv; assumption.
Qed.

Lemma scanInit_inv : scanInv scanInit.
Proof.
  repeat split; simpl; [constructor|lra|lia].
Qed.
End ScanFacts.

Lemma Qmax_ge_l (a b : Q) : (a <= Qmax a b)%Q.
Proof.
  unfold Qmax. destruct (Qle_bool a b) eqn:E; [|lra].
  apply Qle_bool_iff in E. exact E.
Qed.

Lemma Qmin_le_r (a b : Q) : (Qmin a b <= b)%Q.
Proof.
  unfold Qmin. destruct (Qle_bool a b) eqn:E; [|lra].
  apply Qle_bool_iff in E. exact E.
Qed.

Lemma Qmin_positive (a b : Q) : (0 < a -> 0 < b -> 0 < Qmin a b)%Q.
Proof. unfold Qmin. destruct (Qle_bool a b); auto. Qed.

Lemma Qgtb_true (a b : Q) : Qgtb a b = true <-> (b < a)%Q.
Proof.
  unfold Qgtb. rewrite negb_true_iff. split.
  - intros E. apply Qnot_le_lt. intros H. apply Qle_bool_iff in H. congruence.
  - intros H. destruct (Qle_bool a b) eqn:E; [|reflexivity].
    apply Qle_bool_iff in E. lra.
Qed.

Lemma Qgeb_true (a b : Q) : Qgeb a b = true <-> (b <= a)%Q.
Proof. unfold Qgeb. apply Qle_bool_iff. Qed.

Section MergeFacts.
Variable P : Match -> Prop.
Hypothesis P_setEnd : forall m e, P m -> P (setEnd m e).

Lemma mergeLoop_Forall (rest : list Match) :
  forall current merged,
    Forall P merged -> P current -> Forall P rest ->
    Forall P (mergeLoop rest current merged).
Proof.
  induction rest as [|m rest IH]; intros current merged Hm Hc Hr; simpl.
  - apply Forall_app. split; [assumption|repeat constructor; assumption].
  - inversion Hr; subst. destruct (start m =? end_ current).
    + apply IH; auto.
    + apply IH; auto. apply Forall_app. split; [assumption|].
      repeat constructor; assumption.
Qed.

Lemma mergeConsecutiveMatches_Forall (matches : list Match) :
  Forall P matches -> Forall P (mergeConsecutiveMatches matches).
Proof.
  intros H. destruct matches as [|m [|m' rest]]; simpl; try assumption.
  inversion H; subst. inversion H3; subst.
  destruct (start m' =? end_ m); apply mergeLoop_Forall; auto.
Qed.
End MergeFacts.

Lemma mergeLoop_not_nil (rest : list Match) :
  forall current merged, mergeLoop rest current merged <> [].
Proof.
  induction rest as [|m rest IH]; intros current merged; simpl.
  - intros H. apply app_eq_nil in H. destruct H; discriminate.
  - destruct (start m =? end_ current); apply IH.
Qed.

Lemma mergeConsecutiveMatches_not_nil (matches : list Match) :
  matches <> [] -> mergeConsecutiveMatches matches <> [].
Proof.
  intros H. destruct matches as [|m [|m' rest]]; [congruence|assumption|].
  apply mergeLoop_not_nil.
Qed.

Section TierFacts.
Variable this : FuzzySearch.t.

(** Without every character of the query found in order, the tier
    gives nothing. *)
Lemma fuzzyCharacterMatch_none (query text : string) :
  ~ Subsequence query text ->
  fuzzyCharacterMatch this query text = MatchResult.none.
Proof.
  intros Hn. unfold fuzzyCharacterMatch.
  rewrite scanLoop_queryIndex. simpl.
  destruct (Nat.eqb_spec (consumed text query) (String.length query)) as [E|E];
    [|reflexivity].
  apply consumed_all_iff in E. contradiction.
Qed.

(** With them, it gives a match. *)
Lemma fuzzyCharacterMatch_found (query text : string) :
  Subsequence query text -> query <> "" ->
  (0 < MatchResult.score (fuzzyCharacterMatch this query text))%Q
  /\ MatchResult.matches (fuzzyCharacterMatch this query text) <> []
  /\ Forall (fun m => matchType m = Character)
            (MatchResult.matches (fuzzyCharacterMatch this query text)).
Proof.
  intros Hsub Hq. unfold fuzzyCharacterMatch.
  pose proof (scanLoop_queryIndex query text 0 None scanInit) as Hqi.
  pose proof (scanLoop_inv query text Hq 0 None scanInit scanInit_inv)
    as (Hlen & Hty & Hnn & Hpos).
  set (s := scanLoop query (String.length query) text 0 None scanInit) in *.
  simpl in Hqi. apply consumed_all_iff in Hsub. rewrite Hsub in Hqi.
  rewrite Hqi, Nat.eqb_refl. cbn [MatchResult.score MatchResult.matches].
  assert (Hn : 0 < String.length query)
    by (destruct query; [congruence|simpl; lia]).
  split; [|split].
  - apply Qmin_positive; [|lra].
    pose proof (Qmax_ge_l 0 ((50 - QofNat (String.length text)) / 100)).
    assert (0 < scanScore s)%Q by (apply Hpos; lia).
    destruct (1 <? List.length (scanMatches s)); [|lra].
    match goal with
    | |- context [Qmax 0.1 ?x] => pose proof (Qmax_ge_l 0.1 x)
    end.
    nra.
  - apply mergeConsecutiveMatches_not_nil. intros E. rewrite E in Hlen.
    simpl in Hlen. lia.
  - apply mergeConsecutiveMatches_Forall; [|assumption].
    intros m e Hm. exact Hm.
Qed.

(** [fuzzyMatch] goes on to the character tier whenever the first two
    tiers fail, whatever the length of the query. *)
Lemma fuzzyMatch_falls_through (query text : string) :
  indexOf text query = None -> wordBoundaryMatch text query = None ->
  fuzzyMatch this query text = fuzzyCharacterMatch this query text.
Proof.
  intros Hex Hwb. unfold fuzzyMatch. rewrite Hex, Hwb.
  destruct (Nat.ltb_spec (String.length text) (String.length query)) as [H|H];
    [|reflexivity].
  symmetry. apply fuzzyCharacterMatch_none. intros Hs.
  apply Subsequence_length in Hs. lia.
Qed.

(** A query longer than the text matches nothing. *)
Lemma fuzzyMatch_longer_query (query text : string) :
  String.length text < String.length query ->
  fuzzyMatch this query text = MatchResult.none.
Proof.
  intros H. unfold fuzzyMatch.
  destruct (Nat.ltb_spec (String.length text) (String.length query));
    [reflexivity|lia].
Qed.
End TierFacts.

(** C4, as stated.  The query [ngx] against [nginx] does not fail the
    character tier: [n], [g] and [x] occur in [nginx] in that order, and
    the matcher returns the spans [0,2) and [4,5) with score 0.7. *)
Lemma ngx_matches_nginx :
  fuzzyMatch FuzzySearch.default "ngx" "nginx" <> MatchResult.none
  /\ (MatchResult.score (fuzzyMatch FuzzySearch.default "ngx" "nginx") == 0.7)%Q
  /\ MatchResult.matches (fuzzyMatch FuzzySearch.default "ngx" "nginx")
     = [spanOf 0 2 Character (Some 0); spanOf 4 5 Character (Some 2)].
Proof.
  split; [|split].
  - intros H. apply (f_equal MatchResult.matches) in H. vm_compute in H.
    discriminate.
  - vm_compute. reflexivity.
  - vm_compute. reflexivity.
Qed.

(** C4, amended.  The character tier is a match only when the scan
    consumes the whole query, that is when the characters of the query all
    occur in the text in order; otherwise it gives score 0 and no span.
    [ngx] against [nginx] is such a match. *)
Theorem character_tier_consumes_query :
  forall (this : FuzzySearch.t) (query text : string),
    (~ Subsequence query text ->
     fuzzyCharacterMatch this query text = MatchResult.none)
    /\ (Subsequence query text -> query <> "" ->
        (0 < MatchResult.score (fuzzyCharacterMatch this query text))%Q
        /\ MatchResult.matches (fuzzyCharacterMatch this query text) <> [])
    /\ Subsequence "ngx" "nginx"
    /\ MatchResult.matches (fuzzyMatch FuzzySearch.default "ngx" "nginx")
       = [spanOf 0 2 Character (Some 0); spanOf 4 5 Character (Some 2)]
    /\ (0 < MatchResult.score (fuzzyMatch FuzzySearch.default "ngx" "nginx"))%Q.
Proof.
  intros this query text. split; [|split; [|split; [|split]]].
  - apply fuzzyCharacterMatch_none.
  - intros Hs Hq. destruct (fuzzyCharacterMatch_found this query text Hs Hq)
      as (H1 & H2 & _). split; assumption.
  - repeat constructor.
  - vm_compute. reflexivity.
  - vm_compute. reflexivity.
Qed.

Lemma character_tier_consumes_query_witness :
  (0 < MatchResult.score (fuzzyCharacterMatch FuzzySearch.default "ngx" "nginx"))%Q
  /\ MatchResult.matches (fuzzyCharacterMatch FuzzySearch.default "ngx" "nginx")
     <> [].
Proof.
  destruct (character_tier_consumes_query FuzzySearch.default "ngx" "nginx")
    as (_ & H & Hs & _).
  apply H.
  - exact Hs.
  - discriminate.
Defined.

(** C6, as stated.  The two-character query [ng] is not a substring of
    [nagios] and starts none of its words, and yet the matcher returns a
    character-tier match. *)
Lemma ng_matches_nagios :
  String.length "ng" = 2
  /\ indexOf "nagios" "ng" = None
  /\ wordBoundaryMatch "nagios" "ng" = None
  /\ (MatchResult.score (fuzzyMatch FuzzySearch.default "ng" "nagios") == 1)%Q
  /\ MatchResult.matches (fuzzyMatch FuzzySearch.default "ng" "nagios")
     = [spanOf 0 1 Character (Some 0); spanOf 2 3 Character (Some 1)].
Proof.
  repeat split; vm_compute; reflexivity.
Qed.

(** C6, amended.  [fuzzyMatch] attempts the character tier for a query of
    any length: when neither the exact-substring tier nor the
    word-boundary tier succeeds, its answer is that of
    [fuzzyCharacterMatch], and for a two-character query whose characters
    occur in the text in order this is a match of the character tier. *)
Theorem character_tier_any_length :
  forall (this : FuzzySearch.t) (query text : string),
    indexOf text query = None ->
    wordBoundaryMatch text query = None ->
    fuzzyMatch this query text = fuzzyCharacterMatch this query text
    /\ (String.length query = 2 -> Subsequence query text ->
        (0 < MatchResult.score (fuzzyMatch this query text))%Q
        /\ MatchResult.matches (fuzzyMatch this query text) <> []
        /\ Forall (fun m => matchType m = Character)
                  (MatchResult.matches (fuzzyMatch this query text))).
Proof.
  intros this query text Hex Hwb.
  rewrite (fuzzyMatch_falls_through this query text Hex Hwb).
  split; [reflexivity|]. intros Hlen Hs.
  apply fuzzyCharacterMatch_found; [assumption|].
  intros ->. discriminate.
Qed.

Lemma character_tier_any_length_witness :
  (0 < MatchResult.score (fuzzyMatch FuzzySearch.default "ng" "nagios"))%Q.
Proof.
  destruct (character_tier_any_length FuzzySearch.default "ng" "nagios")
    as [_ H].
  - reflexivity.
  - reflexivity.
  - apply H.
    + reflexivity.
    + repeat constructor.
Defined.

(** ** The edit-distance step of the search box *)

(** [isRelevantMatch] returns from its character step for every query of
    three characters or more, so that the edit-distance step after it,
    for queries of four characters or more, is never reached. *)
Lemma editDistanceStep_unreachable
    (step step' : string -> list string -> outcome bool) (guide : Item)
    (searchText : option string) (query : string) :
  SearchBox.isRelevantMatch step guide searchText query
  = SearchBox.isRelevantMatch step' guide searchText query.
Proof.
  unfold SearchBox.isRelevantMatch.
  destruct (includes _ _); [reflexivity|].
  destruct (existsb _ _); [reflexivity|].
  destruct (_ && _); [reflexivity|].
  destruct (Nat.leb_spec 3 (String.length (trim (toLowerCase query))));
    [reflexivity|].
  destruct (Nat.leb_spec 4 (String.length (trim (toLowerCase query))));
    [lia|reflexivity].
Qed.

(** The typo [nginix] is found relevant to the guide [nginx] by the
    character step. *)
Lemma nginix_relevant_by_characters :
  SearchBox.isRelevantMatch (fun _ _ => Throw TypeError) nginx None "nginix"
  = Normal true
  /\ SearchBox.charactersInOrder (list_ascii_of_string "nginix") "nginx" = true.
Proof. split; vm_compute; reflexivity. Qed.

(** The edit-distance step accepts no word: it returns [false] when every
    word has fewer than three characters, and throws otherwise. *)
Lemma levenshteinStep_never_accepts (normalizedQuery : string)
    (words : list string) :
  (Forall (fun word => String.length word < 3) words
   /\ SearchBox.levenshteinStep normalizedQuery words = Normal false)
  \/ (Exists (fun word => 3 <= String.length word) words
      /\ SearchBox.levenshteinStep normalizedQuery words = Throw TypeError).
Proof.
  unfold SearchBox.levenshteinStep.
  induction words as [|word words IH]; [left; split; [constructor|reflexivity]|].
  cbn [SearchBox.someM].
  destruct (Nat.ltb_spec (String.length word) 3) as [Hw|Hw].
  - unfold bind. destruct IH as [[Hf Hs]|[He Hs]].
    + left. split; [constructor; assumption|exact Hs].
    + right. split; [right; exact He|exact Hs].
  - right. split; [left; exact Hw|reflexivity].
Qed.

(** C5.  The arithmetic of the claim is right: the edit distance between
    [nginix] and [nginx] is 1, and the threshold is [floor(0.3 * 6) = 1].
    But no run of the code accepts the pair by its edit distance.
    [fuzzyMatch] has no such tier and reports no match.
    [isRelevantMatch] finds the guide [nginx] relevant to [nginix] in its
    character step, whatever its edit-distance step does: that step is
    never reached, and on the word [nginx], as on every word, it throws
    or returns [false] and never accepts. *)
Theorem nginix_edit_distance_never_measured :
  SearchBox.levenshteinDistance "nginix" "nginx" = 1
  /\ SearchBox.maxDistance "nginix" "nginx" = 1%Z
  /\ fuzzyMatch FuzzySearch.default "nginix" "nginx" = MatchResult.none
  /\ SearchBox.levenshteinStep "nginix" ["nginx"] = Throw TypeError
  /\ (forall normalizedQuery words,
         SearchBox.levenshteinStep normalizedQuery words <> Normal true)
  /\ SearchBox.charactersInOrder (list_ascii_of_string "nginix") "nginx"
     = true
  /\ forall step : string -> list string -> outcome bool,
       SearchBox.isRelevantMatch step nginx None "nginix" = Normal true.
Proof.
  split; [reflexivity|]. split; [reflexivity|]. split; [reflexivity|].
  split; [reflexivity|]. split; [|split].
  - intros normalizedQuery words.
    destruct (levenshteinStep_never_accepts normalizedQuery words)
      as [[_ ->]|[_ ->]]; discriminate.
  - vm_compute. reflexivity.
  - intros step.
    rewrite (editDistanceStep_unreachable step (fun _ _ => Throw TypeError)).
    apply nginix_relevant_by_characters.
Qed.

(** ** Order of the results *)

Section SortFacts.
Context {A : Type} (f : A -> Q).

Lemma sortInsert_perm (cmp : A -> A -> Q) (x : A) (l : list A) :
  Permutation (x :: l) (sortInsert cmp x l).
Proof.
  induction l as [|y l IH]; simpl; [reflexivity|].
  destruct (Qle_bool (cmp x y) 0); [reflexivity|].
  rewrite perm_swap. apply perm_skip. exact IH.
Qed.

Lemma arraySort_perm (cmp : A -> A -> Q) (l : list A) :
  Permutation l (arraySort cmp l).
Proof.
  induction l as [|x l IH]; simpl; [reflexivity|].
  rewrite <- sortInsert_perm. apply perm_skip. exact IH.
Qed.

Lemma arraySort_In (cmp : A -> A -> Q) (l : list A) (x : A) :
  In x (arraySort cmp l) <-> In x l.
Proof.
  split; apply Permutation_in; [symmetry|]; apply arraySort_perm.
Qed.

(** [before] is the order of the array that is sorted. *)
Variable before : A -> A -> Prop.

Lemma ranked_le (a b : A) : ranked f before a b -> (f b <= f a)%Q.
Proof. intros [H|[H _]]; lra. Qed.

Lemma sortInsert_ranked (x : A) (l : list A) :
  StronglySorted (ranked f before) l -> Forall (before x) l ->
  StronglySorted (ranked f before) (sortInsert (descending f) x l).
Proof.
  induction l as [|y l IH]; intros Hs Hb; simpl.
  - repeat constructor.
  - inversion Hs as [|y' l' Hs' Hy]; subst.
    inversion Hb as [|y' l' Hxy Hb']; subst.
    unfold descending at 1.
    destruct (Qle_bool (f y - f x) 0) eqn:E.
    + apply Qle_bool_iff in E. constructor; [assumption|].
      assert (Hx : ranked f before x y).
      { destruct (Qlt_le_dec (f y) (f x)); [left; assumption|].
        right. split; [lra|assumption]. }
      constructor; [assumption|].
      apply Forall_forall. intros z Hz.
      rewrite Forall_forall in Hy, Hb'.
      pose proof (ranked_le _ _ (Hy z Hz)).
      destruct (Qlt_le_dec (f z) (f x)); [left; assumption|].
      right. split; [lra|auto].
    + assert (Hlt : (f x < f y)%Q).
      { apply Qnot_le_lt. intros H. assert (f y - f x <= 0)%Q by lra.
        apply Qle_bool_iff in H0. congruence. }
      constructor; [apply IH; assumption|].
      apply Forall_forall. intros z Hz.
      apply (Permutation_in _ (Permutation_sym (sortInsert_perm _ x l))) in Hz.
      destruct Hz as [<-|Hz]; [left; assumption|].
      rewrite Forall_forall in Hy. auto.
Qed.

Lemma arraySort_ranked (l : list A) :
  StronglySorted before l ->
  StronglySorted (ranked f before) (arraySort (descending f) l).
Proof.
  induction l as [|x l IH]; intros Hs; simpl; [constructor|].
  inversion Hs as [|x' l' Hs' Hx]; subst.
  apply sortInsert_ranked; [auto|].
  apply Forall_forall. intros y Hy. apply arraySort_In in Hy.
  rewrite Forall_forall in Hx. auto.
Qed.
End SortFacts.

Lemma StronglySorted_any {A : Type} (l : list A) :
  StronglySorted (fun _ _ => True) l.
Proof.
  induction l; constructor; [assumption|].
  apply Forall_forall. intros; exact I.
Qed.

Lemma StronglySorted_weaken {A : Type} (R R' : A -> A -> Prop) (l : list A) :
  (forall a b, R a b -> R' a b) -> StronglySorted R l -> StronglySorted R' l.
Proof.
  intros H. induction 1 as [|a l Hs IH Ha]; constructor; [assumption|].
  eapply Forall_impl; [|exact Ha]. apply H.
Qed.

Lemma firstn_In {A : Type} (n : nat) (l : list A) (x : A) :
  In x (firstn n l) -> In x l.
Proof.
  revert l. induction n as [|n IH]; intros [|a l]; simpl; try tauto.
  intros [H|H]; [left; assumption|right; apply IH; assumption].
Qed.

Lemma StronglySorted_firstn {A : Type} (R : A -> A -> Prop) (n : nat)
    (l : list A) :
  StronglySorted R l -> StronglySorted R (firstn n l).
Proof.
  intros H. revert n. induction H as [|a l Hs IH Ha]; intros [|n]; simpl;
    try constructor; auto.
  apply Forall_forall. intros x Hx. rewrite Forall_forall in Ha.
  apply Ha. eapply firstn_In; eassumption.
Qed.

Lemma StronglySorted_map {A B : Type} (g : A -> B) (R : B -> B -> Prop)
    (l : list A) :
  StronglySorted (fun a b => R (g a) (g b)) l -> StronglySorted R (map g l).
Proof.
  induction 1 as [|a l Hs IH Ha]; simpl; constructor; [assumption|].
  apply Forall_map. exact Ha.
Qed.

(** A sort by score leaves the scores non-increasing. *)
Lemma arraySort_descending {A : Type} (f : A -> Q) (l : list A) :
  StronglySorted (fun a b => (f b <= f a)%Q) (arraySort (descending f) l).
Proof.
  apply (StronglySorted_weaken (ranked f (fun _ _ => True))).
  - apply ranked_le.
  - apply arraySort_ranked, StronglySorted_any.
Qed.

Section PushOrder.
Context {T R : Type} (g : nat * T -> list R) (place : R -> nat).
Hypothesis g_place : forall i x r, In r (g (i, x)) -> place r = i.
Hypothesis g_one : forall i x, List.length (g (i, x)) <= 1.

(** Results pushed while the index runs over the array are in the
    order of the index. *)
Lemma pushed_in_order (items : list T) :
  forall k,
    StronglySorted (fun a b => place a < place b)
                   (flat_map g (combine (seq k (List.length items)) items))
    /\ Forall (fun r => k <= place r)
              (flat_map g (combine (seq k (List.length items)) items)).
Proof.
  induction items as [|x items IH]; intros k; simpl.
  - split; constructor.
  - destruct (IH (S k)) as [Hs Hf].
    pose proof (g_place k x) as Hp. pose proof (g_one k x) as H1.
    destruct (g (k, x)) as [|r [|r' rest]]; simpl in *; [| |lia].
    + split; [assumption|]. eapply Forall_impl; [|exact Hf].
      simpl. intros; lia.
    + assert (place r = k) by (apply Hp; left; reflexivity).
      split.
      * constructor; [assumption|]. eapply Forall_impl; [|exact Hf].
        simpl. intros; lia.
      * constructor; [lia|]. eapply Forall_impl; [|exact Hf].
        simpl. intros; lia.
Qed.
End PushOrder.

Section SearchOrder.
Variable this : FuzzySearch.t.
Context {T : Type} (view : T -> Item).

Lemma scoreItem_refIndex (q nq : string) (terms : list string) (i : nat)
    (x : T) (r : SearchResult.t T) :
  scoreItem this view q nq terms i x = Some r ->
  SearchResult.refIndex r = Some i /\ SearchResult.item r = x.
Proof.
  unfold scoreItem. destruct (Qgeb _ _); [|discriminate].
  intros H. injection H as <-. split; reflexivity.
Qed.

Lemma short_results_ranked (items : list T) :
  forall k,
    StronglySorted
      (ranked SearchResult.score (fun a b => placeOf a < placeOf b))
      (map (fun '(i, item) =>
              SearchResult.mk item 0%Q [] (Some i) None None None)
           (combine (seq k (List.length items)) items))
    /\ Forall (fun r => k <= placeOf r /\ SearchResult.score r = 0%Q)
              (map (fun '(i, item) =>
                      SearchResult.mk item 0%Q [] (Some i) None None None)
                   (combine (seq k (List.length items)) items)).
Proof.
  induction items as [|x items IH]; intros k; simpl.
  - split; constructor.
  - destruct (IH (S k)) as [Hs Hf]. split.
    + constructor; [assumption|]. eapply Forall_impl; [|exact Hf].
      intros r [Hk Hr]. right. simpl. rewrite Hr. split; [reflexivity|].
      unfold placeOf at 1. simpl. lia.
    + constructor; [split; [unfold placeOf; simpl; lia|reflexivity]|].
      eapply Forall_impl; [|exact Hf]. intros r [Hk Hr]. split; [lia|assumption].
Qed.

(** The results of [search] are ordered by score, the greater first, and
    those of equal score by their place in the catalog. *)
Lemma search_ranked (items : list T) (query : option string)
    (rs : list (SearchResult.t T)) :
  search this view items query = Normal rs ->
  StronglySorted (ranked SearchResult.score (fun a b => placeOf a < placeOf b))
                 rs.
Proof.
  unfold search. intros H.
  destruct query as [q|];
    [destruct (shorterThan 2 (Some q))|];
    try (injection H as <-; apply short_results_ranked).
  destruct (expandSearchQuery (trim (toLowerCase q))) as [terms|e];
    [|discriminate].
  unfold bind in H. injection H as <-.
  apply (arraySort_ranked SearchResult.score).
  apply (pushed_in_order
           (fun '(i, item) =>
              match scoreItem this view q (trim (toLowerCase q)) terms i item with
              | Some r => [r]
              | None => []
              end) placeOf).
  - intros i x r. destruct (scoreItem this view q _ terms i x) eqn:E;
      [|intros []].
    intros [<-|[]]. apply scoreItem_refIndex in E. unfold placeOf.
    destruct E as [-> _]. reflexivity.
  - intros i x. destruct (scoreItem this view q _ terms i x); simpl; lia.
Qed.
End SearchOrder.

(** [searchIndex] returns its results by non-increasing score. *)
Lemma searchIndex_descending (this : FuzzySearch.t) (indexedItems : list Indexed)
    (query : option string) (rs : list (SearchResult.t Indexed)) :
  searchIndex this indexedItems query = Normal rs ->
  StronglySorted
    (fun a b => (SearchResult.score b <= SearchResult.score a)%Q) rs.
Proof.
  assert (Hshort :
            StronglySorted
              (fun a b : SearchResult.t Indexed =>
                 (SearchResult.score b <= SearchResult.score a)%Q)
              (map (fun item => SearchResult.mk item 0%Q [] None None None None)
                   indexedItems)).
  { induction indexedItems as [|x l IH]; simpl; constructor; [assumption|].
    apply Forall_forall. intros r Hr. apply in_map_iff in Hr.
    destruct Hr as [y [<- _]]. simpl. lra. }
  unfold searchIndex. intros H.
  destruct query as [q|];
    [destruct (shorterThan 2 (Some q))|];
    try (injection H as <-; exact Hshort).
  destruct (forEachM _ indexedItems []) as [results|e]; [|discriminate].
  unfold bind in H. injection H as <-.
  apply (arraySort_descending SearchResult.score).
Qed.

(** The formatted results of the session keep that order. *)
Lemma manager_descending (this : SearchManager.t) (query : option string)
    (fs : list SearchManager.Formatted) :
  snd (SearchManager.search this query) = Normal fs ->
  StronglySorted
    (fun a b => (SearchManager.score b <= SearchManager.score a)%Q) fs.
Proof.
  unfold SearchManager.search, SearchManager.searchWith.
  cbn [SearchManager.minQueryLength SearchManager.fuzzySearch
       SearchManager.searchIndex SearchManager.maxResults].
  destruct (shorterThan (SearchManager.minQueryLength this) query).
  - simpl. intros H. injection H as <-. constructor.
  - cbn [snd].
    destruct (searchIndex (SearchManager.fuzzySearch this)
                (SearchManager.searchIndex this) query) as [rs|e] eqn:E;
      [|discriminate].
    unfold bind. intros H. injection H as <-.
    apply StronglySorted_map, StronglySorted_firstn.
    apply searchIndex_descending in E. exact E.
Qed.

(** C2, as stated.  For the query [nginx] the entries [nginx-ui] (1 star)
    and [nginx-proxy-manager] (5 stars) get the same score and come out in
    catalog order, the entry with fewer stars first. *)
Lemma equal_scores_not_ordered_by_stars :
  2 <= String.length "nginx"
  /\ exists r1 r2,
       search FuzzySearch.default id [nginxUi; nginxProxyManager] (Some "nginx")
       = Normal [r1; r2]
       /\ (SearchResult.score r1 == SearchResult.score r2)%Q
       /\ (stars (SearchResult.item r1) < stars (SearchResult.item r2))%Z.
Proof.
  split; [simpl; lia|].
  eexists. eexists. split; [vm_compute; reflexivity|].
  split; vm_compute; reflexivity.
Qed.

(** C2, amended.  The results of [search] are sorted by non-increasing
    score, and results of equal score keep the order of the catalog (the
    sort is stable and compares scores only): neither the stars nor the
    display name take part.  The results of [searchIndex] and of the
    session search are sorted by non-increasing score as well. *)
Theorem results_sorted_by_score :
  (forall (T : Type) (this : FuzzySearch.t) (view : T -> Item)
          (items : list T) (query : option string)
          (rs : list (SearchResult.t T)),
      search this view items query = Normal rs ->
      StronglySorted
        (fun a b =>
           (SearchResult.score b < SearchResult.score a)%Q
           \/ ((SearchResult.score a == SearchResult.score b)%Q
               /\ placeOf a < placeOf b))
        rs)
  /\ (forall (this : FuzzySearch.t) (indexedItems : list Indexed)
             (query : option string) (rs : list (SearchResult.t Indexed)),
         searchIndex this indexedItems query = Normal rs ->
         StronglySorted
           (fun a b => (SearchResult.score b <= SearchResult.score a)%Q) rs)
  /\ (forall (this : SearchManager.t) (query : option string)
             (fs : list SearchManager.Formatted),
         snd (SearchManager.search this query) = Normal fs ->
         StronglySorted
           (fun a b => (SearchManager.score b <= SearchManager.score a)%Q) fs).
Proof.
  split; [|split].
  - intros T this view items query rs H.
    exact (search_ranked this view items query rs H).
  - exact searchIndex_descending.
  - exact manager_descending.
Qed.

Lemma results_sorted_by_score_witness :
  exists rs,
    search FuzzySearch.default id [nagios; nginxUi; nginx] (Some "nginx")
    = Normal rs
    /\ StronglySorted
         (fun a b =>
            (SearchResult.score b < SearchResult.score a)%Q
            \/ ((SearchResult.score a == SearchResult.score b)%Q
                /\ placeOf a < placeOf b))
         rs.
Proof.
  eexists. split.
  - vm_compute. reflexivity.
  - apply (proj1 results_sorted_by_score Item FuzzySearch.default id
             [nagios; nginxUi; nginx] (Some "nginx")).
    vm_compute. reflexivity.
Defined.

(** ** Substrings *)

Lemma append_nil_r (s : string) : (s ++ "")%string = s.
Proof. induction s as [|c s IH]; simpl; [reflexivity|f_equal; exact IH]. Qed.

Lemma append_assoc (a b c : string) :
  ((a ++ b) ++ c)%string = (a ++ b ++ c)%string.
Proof. induction a as [|x a IH]; simpl; [reflexivity|f_equal; exact IH]. Qed.

Lemma length_append (a b : string) :
  String.length (a ++ b) = String.length a + String.length b.
Proof. induction a as [|x a IH]; simpl; [reflexivity|f_equal; exact IH]. Qed.

Lemma startsWith_iff (text q : string) :
  startsWith text q = true <-> exists post, text = (q ++ post)%string.
Proof.
  revert text. induction q as [|a q IH]; intros text.
  - split; [intros _; exists text; reflexivity|destruct text; reflexivity].
  - destruct text as [|b text]; simpl.
    + split; [discriminate|intros [post H]; discriminate].
    + rewrite andb_true_iff, IH. split.
      * intros [Hab [post ->]]. apply Ascii.eqb_eq in Hab. subst b.
        exists post. reflexivity.
      * intros [post H]. injection H as -> ->.
        split; [apply Ascii.eqb_refl|exists post; reflexivity].
Qed.

Lemma indexOf_unfold (text q : string) :
  indexOf text q
  = if startsWith text q then Some 0
    else match text with
         | EmptyString => None
         | String _ text' => option_map S (indexOf text' q)
         end.
Proof. destruct text; reflexivity. Qed.

Lemma includes_iff (text q : string) : includes text q = true <-> Within q text.
Proof.
  unfold includes, Within. split.
  - induction text as [|c text IH]; rewrite indexOf_unfold;
      destruct (startsWith _ q) eqn:E.
    + intros _. apply startsWith_iff in E. destruct E as [post ->].
      exists "", post. reflexivity.
    + discriminate.
    + intros _. apply startsWith_iff in E. destruct E as [post ->].
      exists "", post. reflexivity.
    + destruct (indexOf text q); [|discriminate]. intros _.
      destruct IH as (pre & post & ->); [reflexivity|].
      exists (String c pre), post. reflexivity.
  - intros (pre & post & ->). induction pre as [|c pre IH].
    + rewrite indexOf_unfold.
      assert (E : startsWith ("" ++ q ++ post) q = true)
        by (apply startsWith_iff; exists post; reflexivity).
      rewrite E. reflexivity.
    + rewrite indexOf_unfold. destruct (startsWith _ q); [reflexivity|].
      change (String c pre ++ q ++ post)%string
        with (String c (pre ++ q ++ post)%string).
      cbv iota. destruct (indexOf (pre ++ q ++ post) q);
        [reflexivity|discriminate].
Qed.

Lemma Within_refl (q : string) : Within q q.
Proof. exists "", "". simpl. symmetry. apply append_nil_r. Qed.

Lemma Within_trans (a b c : string) : Within a b -> Within b c -> Within a c.
Proof.
  intros (p1 & s1 & ->) (p2 & s2 & ->).
  exists (p2 ++ p1)%string, (s1 ++ s2)%string.
  rewrite !append_assoc. reflexivity.
Qed.

Lemma Within_length (q text : string) :
  Within q text -> String.length q <= String.length text.
Proof. intros (pre & post & ->). rewrite !length_append. lia. Qed.

Lemma toLowerCase_append (a b : string) :
  toLowerCase (a ++ b) = (toLowerCase a ++ toLowerCase b)%string.
Proof. induction a as [|x a IH]; simpl; [reflexivity|f_equal; exact IH]. Qed.

Lemma toLowerCase_length (s : string) :
  String.length (toLowerCase s) = String.length s.
Proof. induction s as [|c s IH]; simpl; [reflexivity|f_equal; exact IH]. Qed.

Lemma toLowerCase_noUpper (s : string) : noUpper s = true -> toLowerCase s = s.
Proof.
  induction s as [|c s IH]; simpl; [reflexivity|]. intros H.
  apply andb_true_iff in H. destruct H as [Hc Hs].
  unfold lowerChar. apply negb_true_iff in Hc. rewrite Hc, IH; auto.
Qed.

Lemma Within_toLowerCase (a b : string) :
  Within a b -> Within (toLowerCase a) (toLowerCase b).
Proof.
  intros (pre & post & ->). exists (toLowerCase pre), (toLowerCase post).
  rewrite !toLowerCase_append. reflexivity.
Qed.

Lemma Within_trimStart (s : string) : Within (trimStart s) s.
Proof.
  induction s as [|c s IH]; simpl; [apply Within_refl|].
  destruct (isSpace c); [|apply Within_refl].
  destruct IH as (pre & post & E). exists (String c pre), post.
  simpl. f_equal. exact E.
Qed.

Lemma Within_trimEnd (s : string) : Within (trimEnd s) s.
Proof.
  assert (H : exists post, s = (trimEnd s ++ post)%string).
  { induction s as [|c s [post IH]]; simpl; [exists ""; reflexivity|].
    destruct (isSpace c && (trimEnd s =? "")%string).
    - exists (String c s). reflexivity.
    - exists post. simpl. f_equal. exact IH. }
  destruct H as [post H]. exists "", post. exact H.
Qed.

Lemma Within_trim (s : string) : Within (trim s) s.
Proof.
  unfold trim. eapply Within_trans; [apply Within_trimEnd|apply Within_trimStart].
Qed.

Lemma Within_join (p : string) (parts : list string) :
  In p parts -> Within p (join parts).
Proof.
  induction parts as [|p0 rest IH]; [intros []|].
  intros Hin. destruct rest as [|p1 rest].
  - destruct Hin as [->|[]]. apply Within_refl.
  - change (join (p0 :: p1 :: rest))
      with (p0 ++ " " ++ join (p1 :: rest))%string.
    destruct Hin as [->|Hin].
    + exists "", (" " ++ join (p1 :: rest))%string. reflexivity.
    + destruct (IH Hin) as (pre & post & E). rewrite E.
      exists (p0 ++ " " ++ pre)%string, post. rewrite !append_assoc. reflexivity.
Qed.

(** The lower-cased display name of an entry occurs in its searchable
    text. *)
Lemma searchableText_displayName (item : Item) :
  displayName item <> "" ->
  Within (toLowerCase (displayName item)) (searchableTextOf item).
Proof.
  intros Hne. unfold searchableTextOf. apply Within_toLowerCase, Within_join.
  unfold filterBoolean. apply in_flat_map.
  exists (Some (displayName item)). split.
  - simpl. auto.
  - destruct (String.eqb_spec (displayName item) ""); [contradiction|].
    left. reflexivity.
Qed.

(** ** Scores *)

Lemma fold_left_invariant {A B : Type} (P : A -> Prop) (f : A -> B -> A)
    (l : list B) :
  (forall a b, P a -> P (f a b)) -> forall a, P a -> P (fold_left f l a).
Proof.
  intros Hf. induction l as [|b l IH]; intros a Ha; simpl; auto.
Qed.

Lemma fold_left_fixed {A B : Type} (f : A -> B -> A) (l : list B) (a : A) :
  (forall b, f a b = a) -> fold_left f l a = a.
Proof.
  intros Hf. induction l as [|b l IH]; simpl; [reflexivity|].
  rewrite Hf. exact IH.
Qed.

Lemma Qmin_cap (a b : Q) : (b <= a)%Q -> (Qmin a b == b)%Q.
Proof.
  intros H. unfold Qmin. destruct (Qle_bool a b) eqn:E; [|reflexivity].
  apply Qle_bool_iff in E. lra.
Qed.

(** A sum that grows by [w] at each element that passes [test]. *)
Lemma bonus_fold_ge {B : Type} (test : B -> bool) (w : Q) (l : list B) :
  (0 <= w)%Q ->
  forall s0,
    (s0 <= fold_left (fun score x => if test x then score + w else score) l s0)%Q.
Proof.
  intros Hw. induction l as [|x l IH]; intros s0; simpl; [lra|].
  destruct (test x); [|apply IH].
  specialize (IH (s0 + w)%Q). lra.
Qed.

Lemma bonus_fold_hit {B : Type} (test : B -> bool) (w : Q) (l : list B) (x : B) :
  (0 <= w)%Q -> In x l -> test x = true ->
  forall s0,
    (s0 + w
     <= fold_left (fun score x => if test x then score + w else score) l s0)%Q.
Proof.
  intros Hw Hin Hx. induction l as [|y l IH]; [destruct Hin|]. intros s0.
  simpl. destruct Hin as [->|Hin].
  - rewrite Hx. apply bonus_fold_ge. exact Hw.
  - specialize (IH Hin). destruct (test y); [|apply IH].
    specialize (IH (s0 + w)%Q). lra.
Qed.

Lemma calculateSearchScore_le (item : Item) (q : string) (terms : list string) :
  (calculateSearchScore item q terms <= 2)%Q.
Proof.
  unfold calculateSearchScore.
  match goal with |- (Qmin ?a ?b <= _)%Q => pose proof (Qmin_le_r a b) end.
  lra.
Qed.

(** An entry whose display name is the query, up to case, gets the
    capped keyword score. *)
Lemma calculateSearchScore_exact (item : Item) (q t : string)
    (terms : list string) :
  displayName item <> "" ->
  toLowerCase (displayName item) = toLowerCase q ->
  In t terms -> Within t (toLowerCase q) ->
  (calculateSearchScore item q terms == 2)%Q.
Proof.
  intros Hne He Hin Ht. unfold calculateSearchScore.
  pose proof (searchableText_displayName item Hne) as Hw. rewrite He in Hw.
  assert (H1 : includes (searchableTextOf item) (toLowerCase q) = true)
    by (apply includes_iff; exact Hw).
  assert (H2 : includes (searchableTextOf item) t = true)
    by (apply includes_iff; eapply Within_trans; eassumption).
  assert (H3 : includes (toLowerCase (displayName item)) (toLowerCase q) = true)
    by (apply includes_iff; rewrite He; apply Within_refl).
  rewrite H1, H3, orb_true_r.
  match goal with
  | |- context [fold_left ?fw (splitSpaces _) (fold_left ?ft terms ?s0)] =>
      pose proof (bonus_fold_hit (fun term => includes (searchableTextOf item) term)
                    0.7 terms t ltac:(lra) Hin H2 s0) as Hterms;
      pose proof (bonus_fold_ge (fun word => includes word (toLowerCase q))
                    0.5 (splitSpaces (searchableTextOf item)) ltac:(lra)
                    (fold_left ft terms s0)) as Hwords
  end.
  cbv beta in Hterms, Hwords.
  match goal with
  | |- (Qmin ?a ?b == _)%Q =>
      assert (Hc : (Qmin a b == b)%Q)
        by (apply Qmin_cap; destruct (stars item >? 10)%Z; lra)
  end.
  rewrite Hc. reflexivity.
Qed.

Section FuzzyScore.
Variable this : FuzzySearch.t.

Lemma fuzzyMatch_score_le (q text : string) :
  (MatchResult.score (fuzzyMatch this q text) <= 1)%Q.
Proof.
  unfold fuzzyMatch. destruct (String.length text <? String.length q);
    [simpl; lra|].
  destruct (indexOf text q); [simpl; lra|].
  destruct (wordBoundaryMatch text q); [simpl; lra|].
  unfold fuzzyCharacterMatch. destruct (_ =? _); [|simpl; lra].
  cbn [MatchResult.score]. apply Qmin_le_r.
Qed.

Lemma fuzzyMatch_exact (q text : string) :
  Within q text -> MatchResult.score (fuzzyMatch this q text) = 1.0%Q.
Proof.
  intros H. unfold fuzzyMatch. pose proof (Within_length q text H) as Hl.
  destruct (Nat.ltb_spec (String.length text) (String.length q)); [lia|].
  apply includes_iff in H. unfold includes in H.
  destruct (indexOf text q); [reflexivity|discriminate].
Qed.

Context {T : Type} (view : T -> Item).
Variables (normalizedQuery : string) (expandedTerms : list string) (item : T).

Lemma tryKey_le (best : Best) (key : string) :
  (bestFuzzyScore best <= 1)%Q ->
  (bestFuzzyScore (tryKey this view normalizedQuery expandedTerms item best key)
   <= 1)%Q.
Proof.
  intros Hb. unfold tryKey. destruct (_ =? "")%string; [assumption|].
  apply (fold_left_invariant (fun b => (bestFuzzyScore b <= 1)%Q)).
  - intros b term Hle. destruct (Qgtb _ _); [|assumption].
    cbn [bestFuzzyScore].
    pose proof (fuzzyMatch_score_le term
                  (toLowerCase (getValue (view item) key))).
    lra.
  - destruct (Qgtb _ _); [|assumption]. cbn [bestFuzzyScore].
    apply fuzzyMatch_score_le.
Qed.

Lemma tryKey_keep (best : Best) (key : string) :
  (1 <= bestFuzzyScore best)%Q ->
  tryKey this view normalizedQuery expandedTerms item best key = best.
Proof.
  intros Hb. unfold tryKey. destruct (_ =? "")%string; [reflexivity|].
  assert (Hno : forall q text,
             Qgtb (MatchResult.score (fuzzyMatch this q text))
                  (bestFuzzyScore best) = false).
  { intros q text. destruct (Qgtb _ _) eqn:E; [|reflexivity].
    apply Qgtb_true in E. pose proof (fuzzyMatch_score_le q text). lra. }
  rewrite Hno. apply fold_left_fixed. intros term. rewrite Hno. reflexivity.
Qed.

Lemma tryKey_hit (best : Best) (key : string) :
  getValue (view item) key <> "" ->
  Within normalizedQuery (toLowerCase (getValue (view item) key)) ->
  (bestFuzzyScore best <= 1)%Q ->
  (bestFuzzyScore (tryKey this view normalizedQuery expandedTerms item best key)
   == 1)%Q.
Proof.
  intros Hne Hw Hb. unfold tryKey.
  destruct (String.eqb_spec (getValue (view item) key) ""); [contradiction|].
  rewrite (fuzzyMatch_exact _ _ Hw).
  match goal with
  | |- context [fold_left _ expandedTerms ?b0] => set (b := b0)
  end.
  assert (H1 : (bestFuzzyScore b == 1)%Q).
  { subst b. destruct (Qgtb 1.0 (bestFuzzyScore best)) eqn:E;
      [cbn [bestFuzzyScore]; lra|].
    assert (~ (bestFuzzyScore best < 1.0)%Q)
      by (intros H; apply Qgtb_true in H; congruence).
    lra. }
  rewrite fold_left_fixed; [exact H1|].
  intros term. destruct (Qgtb _ (bestFuzzyScore b)) eqn:E; [|reflexivity].
  apply Qgtb_true in E.
  pose proof (fuzzyMatch_score_le term
                (toLowerCase (getValue (view item) key))).
  lra.
Qed.

(** The best fuzzy score over the keys. *)
Lemma keys_le (keys : list string) :
  forall best,
    (bestFuzzyScore best <= 1)%Q ->
    (bestFuzzyScore
       (fold_left (tryKey this view normalizedQuery expandedTerms item) keys best)
     <= 1)%Q.
Proof.
  induction keys as [|key keys IH]; intros best Hb; simpl; [assumption|].
  apply IH, tryKey_le, Hb.
Qed.

Lemma keys_hit (keys : list string) (key : string) :
  In key keys ->
  getValue (view item) key <> "" ->
  Within normalizedQuery (toLowerCase (getValue (view item) key)) ->
  forall best,
    (bestFuzzyScore best <= 1)%Q ->
    (bestFuzzyScore
       (fold_left (tryKey this view normalizedQuery expandedTerms item) keys best)
     == 1)%Q.
Proof.
  intros Hin Hne Hw.
  induction keys as [|k keys IH]; [destruct Hin|]. intros best Hb. simpl.
  destruct Hin as [->|Hin].
  - pose proof (tryKey_hit best key Hne Hw Hb) as H1.
    set (b1 := tryKey this view normalizedQuery expandedTerms item best key) in *.
    assert (Hfix : fold_left (tryKey this view normalizedQuery expandedTerms item)
                             keys b1 = b1).
    { clear IH. induction keys as [|k' keys IHk]; simpl; [reflexivity|].
      rewrite tryKey_keep by lra. exact IHk. }
    rewrite Hfix. exact H1.
  - apply IH; [assumption|]. apply tryKey_le, Hb.
Qed.
End FuzzyScore.

(** ** Normal forms of queries *)

Lemma trimEnd_idempotent (s : string) : trimEnd (trimEnd s) = trimEnd s.
Proof.
  induction s as [|c s IH]; simpl; [reflexivity|].
  destruct (isSpace c && (trimEnd s =? "")%string) eqn:E; [reflexivity|].
  simpl. rewrite IH, E. reflexivity.
Qed.

Lemma trimStart_head (s : string) :
  trimStart s = ""
  \/ exists c s', trimStart s = String c s' /\ isSpace c = false.
Proof.
  induction s as [|c s IH]; simpl; [left; reflexivity|].
  destruct (isSpace c) eqn:E; [exact IH|].
  right. exists c, s. split; [reflexivity|exact E].
Qed.

Lemma trim_idempotent (s : string) : trim (trim s) = trim s.
Proof.
  unfold trim. destruct (trimStart_head s) as [->|(c & s' & -> & Hc)];
    [reflexivity|].
  assert (E : trimEnd (String c s') = String c (trimEnd s'))
    by (simpl; rewrite Hc; reflexivity).
  rewrite E.
  assert (E' : trimStart (String c (trimEnd s')) = String c (trimEnd s'))
    by (simpl; rewrite Hc; reflexivity).
  rewrite E', <- E. apply trimEnd_idempotent.
Qed.

Lemma normalize_idempotent (q : string) : normalize (normalize q) = normalize q.
Proof.
  unfold normalize at 1. rewrite toLowerCase_noUpper by apply noUpper_normalize.
  unfold normalize. apply trim_idempotent.
Qed.

(** The terms that [search] obtains for a query start with the normal
    form of the query, unless the expansion throws. *)
Lemma search_terms (q : string) :
  normalize q <> "constructor" -> normalize q <> "__proto__" ->
  exists rest, expandSearchQuery (normalize q) = Normal (normalize q :: rest).
Proof.
  intros H1 H2.
  destruct (expandSearchQuery_head (normalize q)) as [rest E].
  - rewrite normalize_idempotent. intros H.
    apply expandSearchQuery_inherited in H. tauto.
  - rewrite normalize_idempotent in E. exists rest. exact E.
Qed.

Lemma entries_In {T : Type} (items : list T) (i : nat) (x : T) :
  nth_error items i = Some x -> In (i, x) (entries items).
Proof.
  unfold entries. intros H.
  assert (G : forall k, In (k + i, x) (combine (seq k (List.length items)) items)).
  { revert i H. induction items as [|y items IH]; intros i H k.
    - destruct i; discriminate.
    - destruct i as [|i]; simpl in *.
      + injection H as ->. left. f_equal. lia.
      + right. replace (k + S i) with (S k + i) by lia. apply IH. exact H. }
  apply (G 0).
Qed.

Lemma StronglySorted_before {A : Type} (R : A -> A -> Prop) (pre post : list A)
    (x : A) :
  StronglySorted R (pre ++ x :: post) -> Forall (fun y => R y x) pre.
Proof.
  induction pre as [|y pre IH]; simpl; intros H; [constructor|].
  inversion H as [|y' l' Hs Hy]; subst. constructor; [|auto].
  rewrite Forall_forall in Hy. apply Hy, in_or_app. right. left. reflexivity.
Qed.

Section TopScore.
Variable this : FuzzySearch.t.
Context {T : Type} (view : T -> Item).

Lemma scoreItem_le (q nq : string) (terms : list string) (i : nat) (x : T)
    (r : SearchResult.t T) :
  scoreItem this view q nq terms i x = Some r ->
  (SearchResult.score r <= 3)%Q.
Proof.
  unfold scoreItem. destruct (Qgeb _ _); [|discriminate].
  intros H. injection H as <-. cbn [SearchResult.score].
  pose proof (calculateSearchScore_le (view x) q terms).
  pose proof (keys_le this view nq terms x (keys this) (mkBest 0%Q [] "")
                ltac:(simpl; lra)).
  lra.
Qed.

Lemma scoreItem_exact (q : string) (rest : list string) (i : nat) (e : T) :
  In "displayName" (keys this) ->
  (threshold this <= 3)%Q ->
  2 <= String.length q ->
  toLowerCase (displayName (view e)) = toLowerCase q ->
  exists r,
    scoreItem this view q (normalize q) (normalize q :: rest) i e = Some r
    /\ SearchResult.item r = e
    /\ SearchResult.refIndex r = Some i
    /\ (SearchResult.score r == 3)%Q.
Proof.
  intros Hk Ht Hq He.
  assert (Hne : displayName (view e) <> "").
  { intros E. apply (f_equal String.length) in He.
    rewrite !toLowerCase_length, E in He. simpl in He. lia. }
  assert (Hw : Within (normalize q) (toLowerCase q))
    by (unfold normalize; apply Within_trim).
  pose proof (calculateSearchScore_exact (view e) q (normalize q)
                (normalize q :: rest) Hne He ltac:(left; reflexivity) Hw)
    as Hkw.
  pose proof (keys_hit this view (normalize q) (normalize q :: rest) e
                (keys this) "displayName" Hk) as Hfz.
  change (getValue (view e) "displayName") with (displayName (view e)) in Hfz.
  rewrite He in Hfz.
  specialize (Hfz Hne Hw (mkBest 0%Q [] "") ltac:(simpl; lra)).
  unfold scoreItem.
  destruct (Qgeb _ (threshold this)) eqn:E.
  - eexists. split; [reflexivity|]. cbn [SearchResult.item
      SearchResult.refIndex SearchResult.score].
    repeat split. rewrite Hkw, Hfz. reflexivity.
  - exfalso. assert (H : ~ (threshold this
                            <= 0 + calculateSearchScore (view e) q
                                     (normalize q :: rest)
                               + bestFuzzyScore
                                   (fold_left
                                      (tryKey this view (normalize q)
                                         (normalize q :: rest) e)
                                      (keys this) (mkBest 0%Q [] "")))%Q).
    { intros H. apply Qgeb_true in H. congruence. }
    apply H. rewrite Hkw, Hfz. lra.
Qed.
End TopScore.

(** C1, as stated.  The display name [NGINX] equals the query [nginx] up
    to case, and yet the first result is [nginx-proxy-manager], which comes
    earlier in the catalog and reaches the same capped score. *)
Lemma exact_displayName_not_first :
  toLowerCase (displayName nginx) = toLowerCase "nginx"
  /\ exists r rest,
       search FuzzySearch.default id [nginxProxyManager; nginx] (Some "nginx")
       = Normal (r :: rest)
       /\ SearchResult.item r = nginxProxyManager
       /\ SearchResult.item r <> nginx.
Proof.
  split; [reflexivity|].
  eexists. eexists. split; [vm_compute; reflexivity|].
  split; [reflexivity|]. simpl. discriminate.
Qed.

(** C1, amended.  There is no exact-equality bonus: the keyword score is
    capped at 2 and the fuzzy score at 1.  For a query [q] of at least two
    characters whose expansion does not throw, an entry [e] whose display
    name equals [q] up to case is among the results with score 3, the
    greatest score a result can have; the results placed before it all
    have score 3 too and come before [e] in the catalog.  So [e] is
    outranked by no result, and it is first unless an earlier entry of
    the catalog also reaches score 3. *)
Theorem exact_displayName_reaches_top_score :
  forall (T : Type) (this : FuzzySearch.t) (view : T -> Item)
         (items : list T) (q : string) (i : nat) (e : T),
    In "displayName" (keys this) ->
    (threshold this <= 3)%Q ->
    2 <= String.length q ->
    normalize q <> "constructor" ->
    normalize q <> "__proto__" ->
    nth_error items i = Some e ->
    toLowerCase (displayName (view e)) = toLowerCase q ->
    exists rs pre r post,
      search this view items (Some q) = Normal rs
      /\ rs = pre ++ r :: post
      /\ SearchResult.item r = e
      /\ SearchResult.refIndex r = Some i
      /\ (SearchResult.score r == 3)%Q
      /\ Forall (fun r' => (SearchResult.score r' <= 3)%Q) rs
      /\ Forall (fun r' => (SearchResult.score r' == 3)%Q /\ placeOf r' < i) pre.
Proof.
  intros T this view items q i e Hk Ht Hq Hc Hp Hi He.
  destruct (search_terms q Hc Hp) as [rest Hterms].
  destruct (scoreItem_exact this view q rest i e Hk Ht Hq He)
    as (r & Hr & Hitem & Href & Hscore).
  assert (Hs : exists rs,
             search this view items (Some q) = Normal rs
             /\ In r rs
             /\ Forall (fun r' => (SearchResult.score r' <= 3)%Q) rs).
  { unfold search.
    assert (Hlong : shorterThan 2 (Some q) = false).
    { unfold shorterThan. apply orb_false_iff. split.
      - destruct q; [simpl in Hq; lia|reflexivity].
      - apply Nat.ltb_ge. exact Hq. }
    rewrite Hlong. fold (normalize q). rewrite Hterms. unfold bind.
    eexists. split; [reflexivity|]. split.
    - apply arraySort_In, in_flat_map. exists (i, e).
      split; [apply entries_In; exact Hi|]. rewrite Hr. left. reflexivity.
    - apply Forall_forall. intros r' Hr'.
      apply arraySort_In, in_flat_map in Hr'.
      destruct Hr' as [[j x] [_ Hx]].
      destruct (scoreItem this view q (normalize q) (normalize q :: rest) j x)
        as [r''|] eqn:E; [|destruct Hx].
      destruct Hx as [<-|[]]. eapply scoreItem_le. exact E. }
  destruct Hs as (rs & Hrs & Hin & Hle).
  apply in_split in Hin. destruct Hin as (pre & post & Hsplit).
  exists rs, pre, r, post. repeat (split; [assumption|]).
  pose proof (search_ranked this view items (Some q) rs Hrs) as Hsorted.
  rewrite Hsplit in Hsorted. apply StronglySorted_before in Hsorted.
  apply Forall_forall. intros r' Hr'.
  rewrite Forall_forall in Hsorted, Hle.
  assert (Hr'le : (SearchResult.score r' <= 3)%Q).
  { apply Hle. rewrite Hsplit. apply in_or_app. left. exact Hr'. }
  destruct (Hsorted r' Hr') as [Hlt|[Heq Hpl]]; [lra|].
  split; [lra|]. unfold placeOf at 2 in Hpl. rewrite Href in Hpl. exact Hpl.
Qed.

Lemma exact_displayName_reaches_top_score_witness :
  exists rs pre r post,
    search FuzzySearch.default id [nginxProxyManager; nginx] (Some "nginx")
    = Normal rs
    /\ rs = pre ++ r :: post
    /\ SearchResult.item r = nginx
    /\ SearchResult.refIndex r = Some 1
    /\ (SearchResult.score r == 3)%Q
    /\ Forall (fun r' => (SearchResult.score r' <= 3)%Q) rs
    /\ Forall (fun r' => (SearchResult.score r' == 3)%Q /\ placeOf r' < 1) pre.
Proof.
  apply (exact_displayName_reaches_top_score Item FuzzySearch.default id
           [nginxProxyManager; nginx] "nginx" 1 nginx).
  - simpl. auto.
  - vm_compute. discriminate.
  - simpl. lia.
  - vm_compute. discriminate.
  - vm_compute. discriminate.
  - reflexivity.
  - reflexivity.
Defined.

(** ** Highlight spans *)

Lemma chain_le (g lo : nat) (l : list Match) (n : nat) :
  chain g lo l n -> lo <= n.
Proof.
  revert lo. induction l as [|m l IH]; intros lo; simpl; [auto|].
  intros (H1 & H2 & H3). apply IH in H3. lia.
Qed.

Lemma chain_extend (g lo : nat) (l : list Match) (n n' : nat) :
  n <= n' -> chain g lo l n -> chain g lo l n'.
Proof.
  intros Hn. revert lo. induction l as [|m l IH]; intros lo; simpl; [lia|].
  intros (H1 & H2 & H3). auto.
Qed.

Lemma chain_snoc (g lo : nat) (l : list Match) (x : Match) (n : nat) :
  chain g lo l (start x) -> start x + g <= end_ x -> end_ x <= n ->
  chain g lo (l ++ [x]) n.
Proof.
  revert lo. induction l as [|m l IH]; intros lo; simpl.
  - auto.
  - intros (H1 & H2 & H3) Hx Hn. auto.
Qed.

Lemma chain_weaken (g lo : nat) (l : list Match) (n : nat) :
  chain g lo l n -> chain 0 lo l n.
Proof.
  revert lo. induction l as [|m l IH]; intros lo; simpl; [auto|].
  intros (H1 & H2 & H3). repeat split; [assumption|lia|auto].
Qed.

Lemma chain_map (g lo : nat) (f : Match -> Match) (l : list Match) (n : nat) :
  (forall m, start (f m) = start m /\ end_ (f m) = end_ m) ->
  chain g lo l n -> chain g lo (map f l) n.
Proof.
  intros Hf. revert lo. induction l as [|m l IH]; intros lo; simpl; [auto|].
  destruct (Hf m) as [-> ->]. intros (H1 & H2 & H3). auto.
Qed.

(** What a chain says of each span and of each pair of spans. *)
Lemma chain_spans (g lo : nat) (l : list Match) (n : nat) :
  chain g lo l n ->
  Forall (fun m => lo <= start m /\ start m + g <= end_ m /\ end_ m <= n) l
  /\ StronglySorted (fun a b => end_ a <= start b) l.
Proof.
  revert lo. induction l as [|m l IH]; intros lo; simpl.
  - intros _. split; constructor.
  - intros (H1 & H2 & H3). destruct (IH _ H3) as [Hf Hs].
    pose proof (chain_le _ _ _ _ H3). split.
    + constructor; [lia|]. eapply Forall_impl; [|exact Hf].
      simpl. intros a (Ha & Hb & Hc). lia.
    + constructor; [assumption|]. eapply Forall_impl; [|exact Hf].
      simpl. intros a (Ha & Hb & Hc). lia.
Qed.

Lemma mergeLoop_chain (g n : nat) (rest : list Match) :
  forall current merged lo,
    chain g lo merged (start current) ->
    start current + g <= end_ current ->
    chain g (end_ current) rest n ->
    chain g lo (mergeLoop rest current merged) n.
Proof.
  induction rest as [|m rest IH]; intros current merged lo Hm Hc Hr; simpl.
  - apply chain_snoc; assumption.
  - destruct Hr as (H1 & H2 & H3).
    destruct (Nat.eqb_spec (start m) (end_ current)) as [E|E].
    + apply IH; simpl; [assumption|lia|assumption].
    + apply IH; [|assumption|assumption].
      apply chain_snoc; assumption.
Qed.

Lemma mergeConsecutiveMatches_chain (g n : nat) (matches : list Match) :
  chain g 0 matches n -> chain g 0 (mergeConsecutiveMatches matches) n.
Proof.
  destruct matches as [|first [|m rest]]; try (intros H; exact H).
  intros (H1 & H2 & H3). unfold mergeConsecutiveMatches.
  apply mergeLoop_chain; simpl; auto.
Qed.

Section SpanFacts.
Variable this : FuzzySearch.t.

Lemma scanStep_chain (query : string) (queryLen textIndex : nat)
    (prev : option ascii) (c : ascii) (s : Scan) :
  chain 1 0 (scanMatches s) textIndex ->
  chain 1 0 (scanMatches (scanStep query queryLen textIndex prev c s))
        (textIndex + 1).
Proof.
  intros H. unfold scanStep.
  destruct (get (scanQueryIndex s) query) as [qc|];
    [|apply (chain_extend 1 0 _ textIndex); [lia|assumption]].
  destruct (Ascii.eqb c qc);
    [|apply (chain_extend 1 0 _ textIndex); [lia|assumption]].
  destruct (Z.of_nat textIndex =? lastMatchIndex s + 1)%Z;
    cbn [scanMatches]; apply chain_snoc; simpl; auto.
Qed.

Lemma scanLoop_chain (query : string) (queryLen : nat) (text : string) :
  forall textIndex prev s,
    chain 1 0 (scanMatches s) textIndex ->
    chain 1 0 (scanMatches (scanLoop query queryLen text textIndex prev s))
          (textIndex + String.length text).
Proof.
  induction text as [|c text IH]; intros textIndex prev s H; simpl.
  - apply (chain_extend 1 0 _ textIndex); [lia|assumption].
  - destruct (scanQueryIndex s <? queryLen).
    + replace (textIndex + S (String.length text))
        with (textIndex + 1 + String.length text) by lia.
      apply IH, scanStep_chain, H.
    + apply (chain_extend 1 0 _ textIndex); [lia|assumption].
Qed.

Lemma indexOf_bound (text q : string) (i : nat) :
  indexOf text q = Some i -> i + String.length q <= String.length text.
Proof.
  revert i. induction text as [|c text IH]; intros i; rewrite indexOf_unfold;
    destruct (startsWith _ q) eqn:E.
  - intros H. injection H as <-. apply startsWith_iff in E.
    destruct E as [post E]. rewrite E, length_append. lia.
  - discriminate.
  - intros H. injection H as <-. apply startsWith_iff in E.
    destruct E as [post E]. rewrite E, length_append. lia.
  - destruct (indexOf text q) as [j|]; [|discriminate]. simpl.
    intros H. injection H as <-. specialize (IH j eq_refl). simpl. lia.
Qed.

Lemma startsWithIgnoreCase_length (text q : string) :
  startsWithIgnoreCase text q = true -> String.length q <= String.length text.
Proof.
  revert text. induction q as [|a q IH]; intros text; simpl; [lia|].
  destruct text as [|b text]; simpl; [discriminate|].
  intros H. apply andb_true_iff in H. destruct H as [_ H].
  apply IH in H. lia.
Qed.

Lemma wordBoundaryFrom_bound (q text : string) :
  forall prev i j,
    wordBoundaryFrom prev text q i = Some j ->
    i <= j /\ (j - i) + String.length q <= String.length text.
Proof.
  induction text as [|c text IH]; intros prev i j; cbn [wordBoundaryFrom];
    match goal with
    | |- context [if ?b then _ else _] => destruct b eqn:E
    end.
  - intros H. injection H as <-. apply andb_true_iff in E.
    destruct E as [_ E]. apply startsWithIgnoreCase_length in E. lia.
  - discriminate.
  - intros H. injection H as <-. apply andb_true_iff in E.
    destruct E as [_ E]. apply startsWithIgnoreCase_length in E. lia.
  - intros H. apply IH in H. simpl. lia.
Qed.

(** The spans that the matcher returns for a non-empty query are
    non-empty, in order, disjoint, and within the text; for the empty
    query the one span is the empty [0,0). *)
Lemma fuzzyMatch_chain (q text : string) :
  chain (if (q =? "")%string then 0 else 1) 0
        (MatchResult.matches (fuzzyMatch this q text)) (String.length text).
Proof.
  assert (Hg : forall a b, a + String.length q <= b ->
                           a + (if (q =? "")%string then 0 else 1) <= a + String.length q
                           /\ a + String.length q <= b).
  { intros a b H. split; [|exact H]. destruct q; simpl; lia. }
  unfold fuzzyMatch. destruct (String.length text <? String.length q);
    [simpl; lia|].
  destruct (indexOf text q) as [i|] eqn:Ei.
  - apply indexOf_bound in Ei. simpl. destruct (Hg i _ Ei). lia.
  - destruct (wordBoundaryMatch text q) as [i|] eqn:Ew.
    + apply wordBoundaryFrom_bound in Ew. simpl.
      assert (Hi : i + String.length q <= String.length text) by lia.
      destruct (Hg i _ Hi). lia.
    + unfold fuzzyCharacterMatch. destruct (_ =? String.length q);
        [|simpl; lia].
      cbn [MatchResult.matches].
      assert (Hc : chain 1 0
                     (mergeConsecutiveMatches
                        (scanMatches
                           (scanLoop q (String.length q) text 0 None scanInit)))
                     (String.length text)).
      { apply mergeConsecutiveMatches_chain.
        apply (scanLoop_chain q (String.length q) text 0 None scanInit).
        simpl. lia. }
      destruct (q =? "")%string; [apply chain_weaken in Hc|]; exact Hc.
Qed.
End SpanFacts.

Section ResultSpans.
Variable this : FuzzySearch.t.
Context {T : Type} (view : T -> Item).

Lemma withKey_spans (x : T) (key : string) (term : option string) (t : string) :
  spansOfOneField view x
    (map (withKey key (getValue (view x) key) term)
         (MatchResult.matches
            (fuzzyMatch this t (toLowerCase (getValue (view x) key))))).
Proof.
  exists key. split.
  - apply chain_map; [intros m; split; reflexivity|].
    rewrite <- (toLowerCase_length (getValue (view x) key)).
    eapply chain_weaken. apply fuzzyMatch_chain.
  - apply Forall_map, Forall_forall. intros m _. split; reflexivity.
Qed.

Lemma tryKey_spans (nq : string) (terms : list string) (x : T) (best : Best)
    (key : string) :
  spansOfOneField view x (bestMatches best) ->
  spansOfOneField view x (bestMatches (tryKey this view nq terms x best key)).
Proof.
  intros Hb. unfold tryKey. destruct (_ =? "")%string; [assumption|].
  apply (fold_left_invariant (fun b => spansOfOneField view x (bestMatches b))).
  - intros b term Hok. destruct (Qgtb _ _); [|assumption].
    cbn [bestMatches]. apply withKey_spans.
  - destruct (Qgtb _ _); [|assumption]. cbn [bestMatches]. apply withKey_spans.
Qed.

Lemma scoreItem_spans (q nq : string) (terms : list string) (i : nat) (x : T)
    (r : SearchResult.t T) :
  scoreItem this view q nq terms i x = Some r ->
  spansOfOneField view (SearchResult.item r) (SearchResult.matches r).
Proof.
  unfold scoreItem. destruct (Qgeb _ _); [|discriminate].
  intros H. injection H as <-. cbn [SearchResult.item SearchResult.matches].
  apply (fold_left_invariant (fun b => spansOfOneField view x (bestMatches b))).
  - intros b key. apply tryKey_spans.
  - exists "". split; [simpl; lia|constructor].
Qed.

(** In every result of [search] the spans are in order, disjoint, and
    within the value of the one field in which they were found. *)
Lemma search_spans (items : list T) (query : option string)
    (rs : list (SearchResult.t T)) :
  search this view items query = Normal rs ->
  Forall (fun r => spansOfOneField view (SearchResult.item r) (SearchResult.matches r))
         rs.
Proof.
  assert (Hshort :
            Forall (fun r => spansOfOneField view (SearchResult.item r)
                                             (SearchResult.matches r))
                   (map (fun '(i, item) =>
                           SearchResult.mk item 0%Q [] (Some i) None None None)
                        (entries items))).
  { apply Forall_forall. intros r Hr. apply in_map_iff in Hr.
    destruct Hr as [[i x] [<- _]]. exists "". split; [simpl; lia|constructor]. }
  unfold search. intros H.
  destruct query as [q|];
    [destruct (shorterThan 2 (Some q))|];
    try (injection H as <-; exact Hshort).
  destruct (expandSearchQuery (trim (toLowerCase q))) as [terms|e];
    [|discriminate].
  unfold bind in H. injection H as <-.
  apply Forall_forall. intros r Hr. apply arraySort_In, in_flat_map in Hr.
  destruct Hr as [[j x] [_ Hx]].
  destruct (scoreItem this view q (trim (toLowerCase q)) terms j x) as [r'|] eqn:E;
    [|destruct Hx].
  destruct Hx as [<-|[]]. eapply scoreItem_spans. exact E.
Qed.
End ResultSpans.

(** C9.  For the catalog entry [caddy] and the query [nginx] the only
    span of the result is [37,42), found in the description; the session
    search applies it to the display name [Caddy] as well, whose length is
    5, and appends an empty highlight to it.  For the query of two spaces
    the span of the result is the empty [0,0). *)
Theorem highlight_span_outside_displayed_name :
  (exists r,
      searchIndex FuzzySearch.default
        (createIndex FuzzySearch.default [caddy]) (Some "nginx")
      = Normal [r]
      /\ SearchResult.matches r
         = [mkMatch 37 42 Exact None (Some "description")
                    (Some (description caddy)) None]
      /\ String.length (SearchManager.shownName caddy) = 5
      /\ SearchManager.format r
         = SearchManager.mkFormatted (SearchResult.item r)
             (SearchResult.score r)
             ("Caddy<mark class=" ++ dquote ++ "search-highlight" ++ dquote
              ++ "></mark>")%string
             ("Modern web server, an alternative to <mark class=" ++ dquote
              ++ "search-highlight" ++ dquote ++ ">nginx</mark>")%string
      /\ exists s,
           SearchManager.search
             (SearchManager.setData SearchManager.default [caddy])
             (Some "nginx")
           = (s, Normal [SearchManager.format r]))
  /\ (exists r,
         search FuzzySearch.default id [caddy] (Some "  ") = Normal [r]
         /\ SearchResult.matches r
            = [mkMatch 0 0 Exact None (Some "name") (Some "caddy") None]).
Proof.
  split.
  - eexists. split; [vm_compute; reflexivity|].
    split; [reflexivity|]. split; [reflexivity|].
    split; [vm_compute; reflexivity|].
    eexists. vm_compute. reflexivity.
  - eexists. split; [vm_compute; reflexivity|reflexivity].
Qed.

(** * Further properties *)

(** ** Sorting with any consistent comparator *)

Section ComparatorSort.
Context {A : Type} (comparefn : A -> A -> Q).
Hypothesis comparefn_total :
  forall a b, (0 < comparefn a b)%Q -> (comparefn b a <= 0)%Q.
Hypothesis comparefn_trans :
  forall a b c,
    (comparefn a b <= 0)%Q -> (comparefn b c <= 0)%Q -> (comparefn a c <= 0)%Q.

Lemma sortInsert_ordered (x : A) (l : list A) :
  StronglySorted (fun a b => (comparefn a b <= 0)%Q) l ->
  StronglySorted (fun a b => (comparefn a b <= 0)%Q) (sortInsert comparefn x l).
Proof.
  induction l as [|y l IH]; intros Hs; simpl.
  - repeat constructor.
  - inversion Hs as [|y' l' Hs' Hy]; subst.
    destruct (Qle_bool (comparefn x y) 0) eqn:E.
    + apply Qle_bool_iff in E. constructor; [assumption|].
      constructor; [assumption|].
      eapply Forall_impl; [|exact Hy]. intros z Hz.
      eapply comparefn_trans; eassumption.
    + assert (Hlt : (0 < comparefn x y)%Q).
      { apply Qnot_le_lt. intros H. apply Qle_bool_iff in H. congruence. }
      constructor; [apply IH; assumption|].
      apply Forall_forall. intros z Hz.
      apply (Permutation_in _ (Permutation_sym (sortInsert_perm _ x l))) in Hz.
      destruct Hz as [<-|Hz]; [apply comparefn_total; assumption|].
      rewrite Forall_forall in Hy. auto.
Qed.

Lemma arraySort_ordered (l : list A) :
  StronglySorted (fun a b => (comparefn a b <= 0)%Q) (arraySort comparefn l).
Proof.
  induction l as [|x l IH]; simpl; [constructor|].
  apply sortInsert_ordered, IH.
Qed.
End ComparatorSort.

(** A sorted array is left as it is. *)
Lemma arraySort_sorted_id {A : Type} (comparefn : A -> A -> Q) (l : list A) :
  StronglySorted (fun a b => (comparefn a b <= 0)%Q) l ->
  arraySort comparefn l = l.
Proof.
  induction 1 as [|x l Hs IH Hx]; simpl; [reflexivity|].
  rewrite IH. destruct l as [|y l]; [reflexivity|]. simpl.
  inversion Hx as [|y' l' Hxy _]; subst.
  apply Qle_bool_iff in Hxy. rewrite Hxy. reflexivity.
Qed.

Lemma firstn_length_le {A : Type} (n : nat) (l : list A) :
  List.length (firstn n l) <= n.
Proof. rewrite length_firstn. lia. Qed.

Lemma QofNat_le (a b : nat) : a <= b <-> (QofNat a <= QofNat b)%Q.
Proof. unfold QofNat. rewrite <- Zle_Qle. lia. Qed.

Lemma QofNat_nonneg (a : nat) : (0 <= QofNat a)%Q.
Proof.
  unfold QofNat. change 0%Q with (inject_Z 0). rewrite <- Zle_Qle. lia.
Qed.

(** ** Suggestions *)

(** The suggestions before the sort: one per keyword that contains the
    query. *)
Lemma suggestions_fold (q : string) (ks : list string) :
  forall acc,
    fold_left
      (fun suggestions keyword =>
         if startsWith keyword q
         then suggestions ++ [Suggestion.mk keyword ExactSuggestion]
         else if includes keyword q
              then suggestions ++ [Suggestion.mk keyword PartialSuggestion]
              else suggestions)
      ks acc
    = acc ++ flat_map
               (fun keyword =>
                  if startsWith keyword q
                  then [Suggestion.mk keyword ExactSuggestion]
                  else if includes keyword q
                       then [Suggestion.mk keyword PartialSuggestion]
                       else [])
               ks.
Proof.
  induction ks as [|k ks IH]; intros acc; simpl.
  - symmetry. apply app_nil_r.
  - rewrite IH. destruct (startsWith k q); [rewrite <- app_assoc; reflexivity|].
    destruct (includes k q); [rewrite <- app_assoc; reflexivity|reflexivity].
Qed.

Lemma startsWith_includes (text q : string) :
  startsWith text q = true -> includes text q = true.
Proof.
  intros H. apply includes_iff. apply startsWith_iff in H.
  destruct H as [post ->]. exists "", post. reflexivity.
Qed.

Lemma bySuggestion_le (a b : Suggestion.t) :
  (bySuggestion a b <= 0)%Q
  <-> (isExact a = true /\ isExact b = false)
      \/ (isExact a = isExact b
          /\ String.length (Suggestion.text a)
             <= String.length (Suggestion.text b)).
Proof.
  unfold bySuggestion.
  pose proof (QofNat_le (String.length (Suggestion.text a))
                        (String.length (Suggestion.text b))) as Hq.
  destruct (isExact a) eqn:Ea, (isExact b) eqn:Eb; simpl.
  - split; [intros H; right; split; [reflexivity|apply Hq; lra]|].
    intros [[_ H]|[_ H]]; [discriminate|apply Hq in H; lra].
  - split; [intros _; left; split; reflexivity|intros _; lra].
  - split; [intros H; lra|]. intros [[H _]|[H _]]; discriminate.
  - split; [intros H; right; split; [reflexivity|apply Hq; lra]|].
    intros [[H _]|[_ H]]; [discriminate|apply Hq in H; lra].
Qed.

(** X1.  [getSearchSuggestions] returns nothing for a query that
    normalizes to fewer than two characters, and never more than
    [maxSuggestions] suggestions.  Every suggestion is a keyword of the
    thesaurus that contains the normalized query, of type [exact] exactly
    when the keyword starts with it; and when [maxSuggestions] is at least
    the size of the thesaurus, every keyword that contains the normalized
    query is suggested. *)
Theorem suggestions_are_matching_keywords :
  forall (query : string) (maxSuggestions : nat),
    (String.length (normalize query) < 2 ->
     getSearchSuggestions query maxSuggestions = [])
    /\ List.length (getSearchSuggestions query maxSuggestions) <= maxSuggestions
    /\ (forall s,
           In s (getSearchSuggestions query maxSuggestions) ->
           In (Suggestion.text s) (map fst SEARCH_KEYWORDS)
           /\ Within (normalize query) (Suggestion.text s)
           /\ (Suggestion.type s = ExactSuggestion
               <-> startsWith (Suggestion.text s) (normalize query) = true))
    /\ (forall keyword,
           2 <= String.length (normalize query) ->
           List.length SEARCH_KEYWORDS <= maxSuggestions ->
           In keyword (map fst SEARCH_KEYWORDS) ->
           Within (normalize query) keyword ->
           exists s,
             In s (getSearchSuggestions query maxSuggestions)
             /\ Suggestion.text s = keyword).
Proof.
  intros query maxSuggestions. unfold getSearchSuggestions.
  fold (normalize query). rewrite suggestions_fold. cbn [app].
  set (q := normalize query).
  set (found :=
         flat_map
           (fun keyword =>
              if startsWith keyword q
              then [Suggestion.mk keyword ExactSuggestion]
              else if includes keyword q
                   then [Suggestion.mk keyword PartialSuggestion]
                   else [])
           (map fst SEARCH_KEYWORDS)).
  assert (Hfound :
            forall s, In s found <->
                      In (Suggestion.text s) (map fst SEARCH_KEYWORDS)
                      /\ includes (Suggestion.text s) q = true
                      /\ Suggestion.type s
                         = if startsWith (Suggestion.text s) q
                           then ExactSuggestion else PartialSuggestion).
  { intros s. unfold found. rewrite in_flat_map. split.
    - intros (k & Hk & Hs).
      destruct (startsWith k q) eqn:E1.
      + destruct Hs as [<-|[]]. simpl. rewrite E1.
        auto using startsWith_includes.
      + destruct (includes k q) eqn:E2; [|destruct Hs].
        destruct Hs as [<-|[]]. simpl. rewrite E1. auto.
    - intros (Hk & Hi & Ht). exists (Suggestion.text s). split; [assumption|].
      destruct s as [t ty]. simpl in *. subst ty.
      destruct (startsWith t q); [left; reflexivity|].
      rewrite Hi. left. reflexivity. }
  destruct (Nat.ltb_spec (String.length q) 2) as [Hshort|Hlong].
  - split; [reflexivity|]. split; [simpl; lia|].
    split; [intros s []|]. intros; lia.
  - split; [intros; lia|]. split; [apply firstn_length_le|]. split.
    + intros s Hs. apply firstn_In, arraySort_In, Hfound in Hs.
      destruct Hs as (Hk & Hi & Ht). split; [assumption|].
      split; [apply includes_iff; assumption|].
      rewrite Ht. destruct (startsWith (Suggestion.text s) q);
        split; intros; congruence.
    + intros keyword _ Hmax Hk Hw.
      exists (Suggestion.mk keyword
                (if startsWith keyword q then ExactSuggestion
                 else PartialSuggestion)).
      split; [|reflexivity].
      rewrite firstn_all2.
      * apply arraySort_In, Hfound. simpl.
        split; [assumption|]. split; [apply includes_iff; assumption|reflexivity].
      * rewrite <- (Permutation_length (arraySort_perm bySuggestion found)).
        unfold found. clear -Hmax.
        assert (H : forall ks : list string,
                   List.length
                     (flat_map
                        (fun keyword =>
                           if startsWith keyword q
                           then [Suggestion.mk keyword ExactSuggestion]
                           else if includes keyword q
                                then [Suggestion.mk keyword PartialSuggestion]
                                else [])
                        ks)
                   <= List.length ks).
        { intros ks. induction ks as [|k ks IH]; simpl; [lia|].
          rewrite length_app.
          destruct (startsWith k q); [simpl; lia|].
          destruct (includes k q); simpl; lia. }
        specialize (H (map fst SEARCH_KEYWORDS)). rewrite length_map in H. lia.
Qed.

Lemma suggestions_are_matching_keywords_witness :
  exists s,
    In s (getSearchSuggestions "Kube" 59) /\ Suggestion.text s = "kubernetes".
Proof.
  destruct (suggestions_are_matching_keywords "Kube" 59) as (_ & _ & _ & H).
  apply H.
  - vm_compute. lia.
  - vm_compute. lia.
  - vm_compute. tauto.
  - exists "", "rnetes". reflexivity.
Defined.

(** X2.  The suggestions come with those of type [exact] before those of
    type [partial], and within a type by non-decreasing length of the
    keyword. *)
Theorem suggestions_exact_first :
  forall (query : string) (maxSuggestions : nat),
    StronglySorted
      (fun a b =>
         (isExact a = true /\ isExact b = false)
         \/ (isExact a = isExact b
             /\ String.length (Suggestion.text a)
                <= String.length (Suggestion.text b)))
      (getSearchSuggestions query maxSuggestions).
Proof.
  intros query maxSuggestions. unfold getSearchSuggestions.
  destruct (_ <? 2); [constructor|].
  apply StronglySorted_firstn.
  eapply StronglySorted_weaken; [intros a b H; apply bySuggestion_le; exact H|].
  apply arraySort_ordered.
  - intros a b H. apply bySuggestion_le.
    assert (Hn : ~ (bySuggestion a b <= 0)%Q) by lra.
    rewrite bySuggestion_le in Hn.
    destruct (isExact a), (isExact b);
      first
        [ exfalso; apply Hn; left; split; reflexivity
        | left; split; reflexivity
        | right; split; [reflexivity|];
          assert (~ String.length (Suggestion.text a)
                    <= String.length (Suggestion.text b))
            by (intros H'; apply Hn; right; split; [reflexivity|exact H']);
          lia ].
  - intros a b c Hab Hbc. rewrite bySuggestion_le in *.
    destruct (isExact a), (isExact b), (isExact c);
      repeat match goal with
             | H : _ \/ _ |- _ => destruct H as [[? ?]|[? ?]]
             end;
      try discriminate;
      first [left; split; reflexivity | right; split; [reflexivity|lia]].
Qed.

(** ** Expanded terms *)

Lemma setAdd_In (s : list string) (t x : string) :
  In x (setAdd s t) <-> In x s \/ x = t.
Proof.
  unfold setAdd. destruct (existsb (String.eqb t) s) eqn:E.
  - split; [auto|]. intros [H| ->]; [assumption|].
    apply existsb_exists in E. destruct E as [y [Hy Heq]].
    apply String.eqb_eq in Heq. subst y. exact Hy.
  - rewrite in_app_iff. simpl. intuition.
Qed.

Lemma setAdd_NoDup (s : list string) (t : string) :
  NoDup s -> NoDup (setAdd s t).
Proof.
  intros H. unfold setAdd. destruct (existsb (String.eqb t) s) eqn:E;
    [assumption|].
  apply NoDup_app; [assumption|repeat constructor; intros []|].
  intros x Hx [->|[]].
  assert (existsb (String.eqb x) s = true); [|congruence].
  apply existsb_exists. exists x. split; [assumption|apply String.eqb_refl].
Qed.

Lemma fold_setAdd_In (aliases s : list string) (x : string) :
  In x (fold_left setAdd aliases s) <-> In x s \/ In x aliases.
Proof.
  revert s. induction aliases as [|a aliases IH]; intros s; simpl.
  - tauto.
  - rewrite IH, setAdd_In. intuition.
Qed.

Lemma fold_setAdd_NoDup (aliases s : list string) :
  NoDup s -> NoDup (fold_left setAdd aliases s).
Proof.
  revert s. induction aliases as [|a aliases IH]; intros s H; simpl;
    auto using setAdd_NoDup.
Qed.

Section PartialScan.
Variable q : string.

Lemma scan_In (table : list (string * list string)) :
  forall terms x,
    In x (fold_left
            (fun terms '(keyword, aliases) =>
               if includes keyword q || includes q keyword
               then fold_left setAdd aliases (setAdd terms keyword)
               else terms)
            table terms)
    <-> In x terms
        \/ exists keyword aliases,
             In (keyword, aliases) table
             /\ related q keyword = true
             /\ (x = keyword \/ In x aliases).
Proof.
  induction table as [|[k al] table IH]; intros terms x; simpl.
  - split; [auto|]. intros [H|(k & al & [] & _)]. exact H.
  - rewrite IH. fold (related q k). destruct (related q k) eqn:E.
    + rewrite fold_setAdd_In, setAdd_In. split.
      * intros [[[H|H]|H]|(k' & al' & Hin & Hr & Hx)]; auto.
        -- right. exists k, al. auto.
        -- right. exists k, al. auto.
        -- right. exists k', al'. auto.
      * intros [H|(k' & al' & [Heq|Hin] & Hr & Hx)]; auto.
        -- injection Heq as <- <-. destruct Hx; auto.
        -- right. exists k', al'. auto.
    + split.
      * intros [H|(k' & al' & Hin & Hr & Hx)]; auto.
        right. exists k', al'. auto.
      * intros [H|(k' & al' & [Heq|Hin] & Hr & Hx)]; auto.
        -- injection Heq as <- <-. congruence.
        -- right. exists k', al'. auto.
Qed.

Lemma scan_NoDup (table : list (string * list string)) :
  forall terms,
    NoDup terms ->
    NoDup (fold_left
             (fun terms '(keyword, aliases) =>
                if includes keyword q || includes q keyword
                then fold_left setAdd aliases (setAdd terms keyword)
                else terms)
             table terms).
Proof.
  induction table as [|[k al] table IH]; intros terms H; simpl; [assumption|].
  apply IH. destruct (_ || _); [|assumption].
  apply fold_setAdd_NoDup, setAdd_NoDup, H.
Qed.
End PartialScan.

Lemma ownProperty_In (table : list (string * list string)) (k : string)
    (aliases : list string) :
  ownProperty table k = Some aliases -> In (k, aliases) table.
Proof.
  induction table as [|[k' v] table IH]; simpl; [discriminate|].
  destruct (String.eqb_spec k k') as [->|Hne].
  - intros H. injection H as ->. left. reflexivity.
  - intros H. right. auto.
Qed.

(** The terms of an expansion, whatever the thesaurus. *)
Lemma expandSearchQuery_terms (t : string) (terms : list string) :
  expandSearchQuery t = Normal terms ->
  NoDup terms
  /\ forall x,
       In x terms <->
       x = normalize t
       \/ (exists aliases,
              ownProperty SEARCH_KEYWORDS (normalize t) = Some aliases
              /\ In x aliases)
       \/ (3 < String.length (normalize t)
           /\ exists keyword aliases,
                In (keyword, aliases) SEARCH_KEYWORDS
                /\ related (normalize t) keyword = true
                /\ (x = keyword \/ In x aliases)).
Proof.
  unfold expandSearchQuery. fold (normalize t). unfold getProperty.
  generalize SEARCH_KEYWORDS. intros table.
  set (q := normalize t).
  assert (H1 : NoDup [q]) by (repeat constructor; intros []).
  destruct (ownProperty table q) as [aliases|] eqn:Eo.
  - unfold bind. intros H. injection H as <-.
    destruct (Nat.ltb_spec 3 (String.length q)) as [Hl|Hl].
    + split; [apply scan_NoDup, fold_setAdd_NoDup, H1|].
      intros x. rewrite (scan_In q table), fold_setAdd_In. simpl.
      split.
      * intros [[[<-|[]]|H]|H]; auto.
        right. left. exists aliases. auto.
      * intros [->|[(al & Hal & Hx)|(_ & H)]]; auto.
        injection Hal as <-. auto.
    + split; [apply fold_setAdd_NoDup, H1|].
      intros x. rewrite fold_setAdd_In. simpl. split.
      * intros [[<-|[]]|H]; auto. right. left. exists aliases. auto.
      * intros [->|[(al & Hal & Hx)|(Hc & _)]]; auto; [|lia].
        injection Hal as <-. auto.
  - destruct (existsb (String.eqb q) objectPrototypeKeys); [discriminate|].
    unfold bind. intros H. injection H as <-.
    destruct (Nat.ltb_spec 3 (String.length q)) as [Hl|Hl].
    + split; [apply scan_NoDup, H1|].
      intros x. rewrite (scan_In q table). simpl. split.
      * intros [[<-|[]]|H]; auto.
      * intros [->|[(al & Hal & Hx)|(_ & H)]]; auto. discriminate.
    + split; [exact H1|]. intros x. simpl. split.
      * intros [<-|[]]. auto.
      * intros [->|[(al & Hal & Hx)|(Hc & _)]]; auto; [discriminate|lia].
Qed.

(** X3.  When [expandSearchQuery] returns, its list has no duplicates and
    starts with the normalized term, and every other element is a keyword
    or an alias of the thesaurus. *)
Theorem expansion_is_duplicate_free :
  forall (t : string) (terms : list string),
    expandSearchQuery t = Normal terms ->
    NoDup terms
    /\ (exists rest, terms = normalize t :: rest)
    /\ (forall x,
           In x terms ->
           x = normalize t
           \/ exists keyword aliases,
                In (keyword, aliases) SEARCH_KEYWORDS
                /\ (x = keyword \/ In x aliases)).
Proof.
  intros t terms H. destruct (expandSearchQuery_terms t terms H) as [Hnd Hin].
  split; [assumption|]. split.
  - destruct (expandSearchQuery_head t) as [rest E].
    + intros Hp. apply expandSearchQuery_throws in Hp. congruence.
    + rewrite E in H. injection H as <-. exists rest. reflexivity.
  - intros x Hx. apply Hin in Hx.
    destruct Hx as [->|[(al & Hal & Hx)|(_ & k & al & Hk & _ & Hx)]]; auto.
    + right. exists (normalize t), al. split; [|auto].
      apply ownProperty_In. exact Hal.
    + right. exists k, al. auto.
Qed.

Lemma expansion_is_duplicate_free_witness :
  exists terms, expandSearchQuery " K8S " = Normal terms /\ NoDup terms.
Proof.
  eexists. split.
  - vm_compute. reflexivity.
  - apply (expansion_is_duplicate_free " K8S "). vm_compute. reflexivity.
Defined.

(** X4.  When [expandSearchQuery] returns, its list holds the aliases that
    the thesaurus declares for the normalized term; and for a normalized
    term of more than three characters it also holds every keyword that
    contains the term or is contained in it, with all the aliases of that
    keyword. *)
Theorem expansion_contains_related_terms :
  forall (t : string) (terms : list string),
    expandSearchQuery t = Normal terms ->
    (forall aliases,
        ownProperty SEARCH_KEYWORDS (normalize t) = Some aliases ->
        incl aliases terms)
    /\ (3 < String.length (normalize t) ->
        forall keyword aliases,
          In (keyword, aliases) SEARCH_KEYWORDS ->
          Within (normalize t) keyword \/ Within keyword (normalize t) ->
          In keyword terms /\ incl aliases terms).
Proof.
  intros t terms H. destruct (expandSearchQuery_terms t terms H) as [_ Hin].
  split.
  - intros aliases Ha x Hx. apply Hin. right. left. exists aliases. auto.
  - intros Hl k al Hk Hw.
    assert (Hr : related (normalize t) k = true).
    { unfold related. apply orb_true_iff.
      destruct Hw as [Hw|Hw]; [left|right]; apply includes_iff; exact Hw. }
    split.
    + apply Hin. right. right. split; [assumption|]. exists k, al. auto.
    + intros x Hx. apply Hin. right. right. split; [assumption|].
      exists k, al. auto.
Qed.

Lemma expansion_contains_related_terms_witness :
  exists terms,
    expandSearchQuery "kube" = Normal terms /\ In "kubernetes" terms.
Proof.
  eexists. split.
  - vm_compute. reflexivity.
  - match goal with
    | |- In _ ?l =>
        destruct (expansion_contains_related_terms "kube" l) as [_ H];
          [vm_compute; reflexivity|]
    end.
    destruct (H ltac:(vm_compute; lia) "kubernetes"
                ["kubectl"; "k8s"; "container"; "orchestration"]) as [Hk _].
    + vm_compute. tauto.
    + left. exists "", "rnetes". reflexivity.
    + exact Hk.
Defined.

(** X5.  [expandSearchQuery] ignores the case of its argument and the
    whitespace around it: a term and its normal form have the same
    expansion. *)
Theorem expansion_ignores_case_and_padding :
  forall t : string, expandSearchQuery t = expandSearchQuery (normalize t).
Proof.
  intros t. unfold expandSearchQuery. fold (normalize t).
  fold (normalize (normalize t)). rewrite normalize_idempotent. reflexivity.
Qed.

(** ** Outcomes of the matcher *)

Lemma ascii_forallb (P : ascii -> bool) :
  forallb P (map ascii_of_nat (seq 0 256)) = true -> forall a, P a = true.
Proof.
  intros H a. rewrite forallb_forall in H. apply H.
  rewrite <- (ascii_nat_embedding a). apply in_map, in_seq.
  pose proof (nat_ascii_bounded a). lia.
Qed.

Lemma upperChar_eqb (a b : ascii) :
  isUpper a = false -> isUpper b = false ->
  Ascii.eqb (upperChar a) (upperChar b) = Ascii.eqb a b.
Proof.
  intros Ha Hb.
  pose proof
    (ascii_forallb
       (fun a =>
          forallb
            (fun b =>
               implb (negb (isUpper a) && negb (isUpper b))
                     (Bool.eqb (Ascii.eqb (upperChar a) (upperChar b))
                               (Ascii.eqb a b)))
            (map ascii_of_nat (seq 0 256)))
       ltac:(vm_compute; reflexivity) a) as H.
  cbv beta in H.
  pose proof (ascii_forallb _ H b) as H'. cbv beta in H'.
  rewrite Ha, Hb in H'. simpl in H'. apply Bool.eqb_prop in H'. exact H'.
Qed.

Lemma startsWithIgnoreCase_lower (text q : string) :
  noUpper text = true -> noUpper q = true ->
  startsWithIgnoreCase text q = startsWith text q.
Proof.
  revert text. induction q as [|a q IH]; intros text Ht Hq;
    [destruct text; reflexivity|].
  destruct text as [|b text]; [reflexivity|].
  simpl in Ht, Hq. apply andb_true_iff in Ht. apply andb_true_iff in Hq.
  destruct Ht as [Hb Ht]. destruct Hq as [Ha Hq].
  apply negb_true_iff in Ha. apply negb_true_iff in Hb.
  simpl. rewrite upperChar_eqb, IH by assumption. reflexivity.
Qed.

Lemma includes_tail (c : ascii) (text q : string) :
  includes text q = true -> includes (String c text) q = true.
Proof.
  unfold includes. rewrite (indexOf_unfold (String c text)).
  destruct (startsWith (String c text) q); [reflexivity|].
  destruct (indexOf text q); [reflexivity|discriminate].
Qed.

(** On lower-case strings the word-boundary pattern matches only where the
    query occurs literally. *)
Lemma wordBoundaryFrom_lower (q text : string) :
  noUpper q = true ->
  forall prev i j,
    noUpper text = true ->
    wordBoundaryFrom prev text q i = Some j -> includes text q = true.
Proof.
  intros Hq. induction text as [|c text IH]; intros prev i j Ht;
    cbn [wordBoundaryFrom];
    match goal with |- context [if ?b then _ else _] => destruct b eqn:E end;
    try discriminate.
  - apply andb_true_iff in E. destruct E as [_ E].
    rewrite startsWithIgnoreCase_lower in E by assumption.
    intros _. unfold includes. rewrite indexOf_unfold, E. reflexivity.
  - apply andb_true_iff in E. destruct E as [_ E].
    rewrite startsWithIgnoreCase_lower in E by assumption.
    intros _. unfold includes. rewrite indexOf_unfold, E. reflexivity.
  - intros H. apply includes_tail. simpl in Ht. apply andb_true_iff in Ht.
    eapply IH; [apply Ht|exact H].
Qed.

Lemma indexOf_empty (text : string) : indexOf text "" = Some 0.
Proof. destruct text; reflexivity. Qed.

Lemma Within_Subsequence (q text : string) : Within q text -> Subsequence q text.
Proof.
  intros (pre & post & ->). induction pre as [|c pre IH]; simpl.
  - induction q as [|a q IHq]; simpl; auto with search.
  - auto with search.
Qed.

Section Outcomes.
Variable this : FuzzySearch.t.

(** Either nothing, or a positive score with at least one span. *)
Lemma fuzzyMatch_dichotomy (q text : string) :
  fuzzyMatch this q text = MatchResult.none
  \/ ((0 < MatchResult.score (fuzzyMatch this q text))%Q
      /\ MatchResult.matches (fuzzyMatch this q text) <> []).
Proof.
  unfold fuzzyMatch. destruct (String.length text <? String.length q);
    [left; reflexivity|].
  destruct (indexOf text q) eqn:Ei;
    [right; cbn [MatchResult.score MatchResult.matches]; split;
     [lra|discriminate]|].
  destruct (wordBoundaryMatch text q);
    [right; cbn [MatchResult.score MatchResult.matches]; split;
     [lra|discriminate]|].
  destruct (Nat.eq_dec (consumed text q) (String.length q)) as [E|E].
  - right. apply consumed_all_iff in E.
    assert (Hq : q <> "") by (intros ->; rewrite indexOf_empty in Ei; discriminate).
    destruct (fuzzyCharacterMatch_found this q text E Hq) as (H1 & H2 & _).
    split; assumption.
  - left. apply fuzzyCharacterMatch_none. intros Hs.
    apply consumed_all_iff in Hs. contradiction.
Qed.

Lemma fuzzyMatch_score_ge (q text : string) :
  (0 <= MatchResult.score (fuzzyMatch this q text))%Q.
Proof.
  destruct (fuzzyMatch_dichotomy q text) as [->|[H _]]; [simpl|]; lra.
Qed.

Lemma fuzzyMatch_subsequence (q text : string) :
  Subsequence q text -> MatchResult.matches (fuzzyMatch this q text) <> [].
Proof.
  intros Hs. pose proof (Subsequence_length q text Hs) as Hl.
  unfold fuzzyMatch.
  destruct (Nat.ltb_spec (String.length text) (String.length q)); [lia|].
  destruct (indexOf text q) eqn:Ei; [discriminate|].
  destruct (wordBoundaryMatch text q); [discriminate|].
  assert (Hq : q <> "") by (intros ->; rewrite indexOf_empty in Ei; discriminate).
  apply (fuzzyCharacterMatch_found this q text Hs Hq).
Qed.

(** The tier that matched, for a lower-case query and text. *)
Lemma fuzzyMatch_lower (q text : string) :
  noUpper q = true -> noUpper text = true ->
  (MatchResult.matches (fuzzyMatch this q text) <> [] -> Subsequence q text)
  /\ Forall (fun m => matchType m = (if includes text q then Exact else Character))
            (MatchResult.matches (fuzzyMatch this q text)).
Proof.
  intros Hq Ht. unfold fuzzyMatch, includes.
  destruct (String.length text <? String.length q);
    [split; [intros H; contradiction H; reflexivity|constructor]|].
  destruct (indexOf text q) eqn:Ei.
  - split; [|repeat constructor]. intros _. apply Within_Subsequence.
    apply includes_iff. unfold includes. rewrite Ei. reflexivity.
  - destruct (wordBoundaryMatch text q) eqn:Ew.
    + apply (wordBoundaryFrom_lower q text Hq None 0 n Ht) in Ew.
      unfold includes in Ew. rewrite Ei in Ew. discriminate.
    + split.
      * intros H.
        destruct (Nat.eq_dec (consumed text q) (String.length q)) as [E|E];
          [apply consumed_all_iff, E|].
        contradiction H. rewrite fuzzyCharacterMatch_none; [reflexivity|].
        intros Hs. apply consumed_all_iff in Hs. contradiction.
      * destruct (Nat.eq_dec (consumed text q) (String.length q)) as [E|E].
        -- apply consumed_all_iff in E.
           assert (Hne : q <> "")
             by (intros ->; rewrite indexOf_empty in Ei; discriminate).
           apply (fuzzyCharacterMatch_found this q text E Hne).
        -- rewrite fuzzyCharacterMatch_none; [constructor|].
           intros Hs. apply consumed_all_iff in Hs. contradiction.
Qed.
End Outcomes.

(** X6.  [fuzzyMatch] gives a score between 0 and 1, and no span exactly
    when the score is 0.  It reports a match whenever the characters of
    the query occur in the text in order; for a query and a text of
    ASCII characters without upper-case letters it reports a match only
    then, with one span of type [exact] when the query occurs in the text
    and spans of type [character] otherwise, never of type
    [word-boundary]. *)
Theorem fuzzyMatch_matches_subsequences :
  forall (this : FuzzySearch.t) (q text : string),
    (0 <= MatchResult.score (fuzzyMatch this q text) <= 1)%Q
    /\ (MatchResult.matches (fuzzyMatch this q text) = []
        <-> (MatchResult.score (fuzzyMatch this q text) == 0)%Q)
    /\ (Subsequence q text ->
        MatchResult.matches (fuzzyMatch this q text) <> [])
    /\ (isAscii q = true -> isAscii text = true ->
        noUpper q = true -> noUpper text = true ->
        (MatchResult.matches (fuzzyMatch this q text) <> [] ->
         Subsequence q text)
        /\ (Within q text ->
            (MatchResult.score (fuzzyMatch this q text) == 1)%Q
            /\ exists i,
                 MatchResult.matches (fuzzyMatch this q text)
                 = [spanOf i (i + String.length q) Exact None])
        /\ (~ Within q text ->
            Forall (fun m => matchType m = Character)
                   (MatchResult.matches (fuzzyMatch this q text)))).
Proof.
  intros this q text. split; [|split; [|split]].
  - split; [apply fuzzyMatch_score_ge|apply fuzzyMatch_score_le].
  - destruct (fuzzyMatch_dichotomy this q text) as [->|[H1 H2]].
    + simpl. split; reflexivity.
    + split; [contradiction|]. intros H. lra.
  - apply fuzzyMatch_subsequence.
  - intros _ _ Hq Ht.
    destruct (fuzzyMatch_lower this q text Hq Ht) as [Hs Hty].
    split; [exact Hs|]. split.
    + intros Hw. pose proof (Within_length q text Hw) as Hl.
      apply includes_iff in Hw. unfold includes in Hw. unfold fuzzyMatch.
      destruct (Nat.ltb_spec (String.length text) (String.length q)); [lia|].
      destruct (indexOf text q) as [i|]; [|discriminate].
      cbn [MatchResult.score MatchResult.matches].
      split; [reflexivity|]. exists i. reflexivity.
    + intros Hw. destruct (includes text q) eqn:E; [|exact Hty].
      apply includes_iff in E. contradiction.
Qed.

Lemma fuzzyMatch_matches_subsequences_witness :
  MatchResult.matches (fuzzyMatch FuzzySearch.default "ngx" "nginx") <> []
  /\ Forall (fun m => matchType m = Character)
            (MatchResult.matches (fuzzyMatch FuzzySearch.default "ngx" "nginx")).
Proof.
  destruct (fuzzyMatch_matches_subsequences FuzzySearch.default "ngx" "nginx")
    as (_ & _ & Hsub & Hlow).
  split.
  - apply Hsub. apply consumed_all_iff. reflexivity.
  - apply Hlow; try reflexivity.
    intros Hw. apply includes_iff in Hw. vm_compute in Hw. discriminate.
Defined.

(** ** Results of [search] *)

Lemma search_long {T : Type} (this : FuzzySearch.t) (view : T -> Item)
    (items : list T) (q : string) :
  2 <= String.length q ->
  search this view items (Some q)
  = (expandedTerms <- expandSearchQuery (normalize q) ;;
     Normal
       (arraySort byScore
          (flat_map (fun '(i, item) =>
                       match scoreItem this view q (normalize q) expandedTerms
                                       i item with
                       | Some r => [r]
                       | None => []
                       end)
                    (entries items)))).
Proof.
  intros H. unfold search, shorterThan.
  destruct (String.eqb_spec q "") as [->|_]; [simpl in H; lia|].
  destruct (Nat.ltb_spec (String.length q) 2); [lia|]. reflexivity.
Qed.

Lemma In_combine_seq {T : Type} (items : list T) (i : nat) (x : T) :
  forall k,
    In (i, x) (combine (seq k (List.length items)) items) ->
    k <= i /\ nth_error items (i - k) = Some x.
Proof.
  induction items as [|y items IH]; intros k; simpl; [intros []|].
  intros [H|H].
  - injection H as <- <-. rewrite Nat.sub_diag. split; [lia|reflexivity].
  - apply IH in H. destruct H as [Hk Hn]. split; [lia|].
    replace (i - k) with (S (i - S k)) by lia. exact Hn.
Qed.

Lemma In_entries {T : Type} (items : list T) (i : nat) (x : T) :
  In (i, x) (entries items) -> nth_error items i = Some x.
Proof.
  intros H. apply In_combine_seq in H. rewrite Nat.sub_0_r in H. apply H.
Qed.

Lemma Qmin_nonneg (a b : Q) : (0 <= a -> 0 <= b -> 0 <= Qmin a b)%Q.
Proof. intros Ha Hb. unfold Qmin. destruct (Qle_bool a b); assumption. Qed.

Lemma calculateSearchScore_ge (item : Item) (q : string) (terms : list string) :
  (0 <= calculateSearchScore item q terms)%Q.
Proof.
  unfold calculateSearchScore. apply Qmin_nonneg; [|lra].
  match goal with
  | |- context [fold_left ?f (splitSpaces ?t) ?s0] =>
      pose proof (bonus_fold_ge (fun word => includes word (toLowerCase q))
                                0.5%Q (splitSpaces t) ltac:(lra) s0) as H2;
      set (s2 := fold_left f (splitSpaces t) s0) in *
  end.
  match goal with
  | H2 : (fold_left ?f terms ?s0 <= _)%Q |- _ =>
      pose proof (bonus_fold_ge (fun term => includes (searchableTextOf item) term)
                                0.7%Q terms ltac:(lra) s0) as H1;
      set (s1 := fold_left f terms s0) in *
  end.
  assert (H0 : (0 <= s1)%Q).
  { destruct (includes (searchableTextOf item) (toLowerCase q)); lra. }
  destruct (_ || _); destruct (_ >? _)%Z; lra.
Qed.

Section BestFacts.
Variable this : FuzzySearch.t.
Context {T : Type} (view : T -> Item).
Variables (nq : string) (terms : list string) (x : T) (ks : list string).

Lemma withKey_not_nil (key value : string) (term : option string)
    (l : list Match) :
  l <> [] -> map (withKey key value term) l <> [].
Proof. destruct l; [congruence|discriminate]. Qed.

Lemma tryKey_inv (best : Best) (key : string) :
  In key ks -> bestInv ks best ->
  bestInv ks (tryKey this view nq terms x best key).
Proof.
  intros Hk Hb. unfold tryKey. destruct (_ =? "")%string; [assumption|].
  assert (Hstep :
            forall (b : Best) (t : string) (g : Q -> Q) (term : option string),
              (forall s, (0 < s <= 1)%Q -> (0 < g s <= 1)%Q) ->
              bestInv ks b ->
              bestInv ks
                (if Qgtb (MatchResult.score
                            (fuzzyMatch this t
                               (toLowerCase (getValue (view x) key))))
                         (bestFuzzyScore b)
                 then mkBest
                        (g (MatchResult.score
                              (fuzzyMatch this t
                                 (toLowerCase (getValue (view x) key)))))
                        (map (withKey key (getValue (view x) key) term)
                             (MatchResult.matches
                                (fuzzyMatch this t
                                   (toLowerCase (getValue (view x) key)))))
                        key
                 else b)).
  { intros b t g term Hg Hinv. destruct (Qgtb _ _) eqn:E; [|assumption].
    apply Qgtb_true in E. destruct Hinv as [[Hlo Hhi] _].
    pose proof (fuzzyMatch_score_le this t
                  (toLowerCase (getValue (view x) key))) as Hle.
    destruct (fuzzyMatch_dichotomy this t
                (toLowerCase (getValue (view x) key))) as [Hn|[Hpos Hne]].
    - rewrite Hn in E. simpl in E. lra.
    - unfold bestInv. cbn [bestFuzzyScore bestMatches bestKey].
      destruct (Hg _ (conj Hpos Hle)) as [H1 H2].
      split; [split; lra|]. right. split; [assumption|].
      split; [assumption|]. apply withKey_not_nil, Hne. }
  apply (fold_left_invariant (bestInv ks)).
  - intros b term Hinv.
    apply (Hstep b term (fun s => (s * 0.8)%Q) (Some term)); [|assumption].
    intros s Hs. lra.
  - apply (Hstep best nq (fun s => s) None); [|assumption].
    intros s Hs. exact Hs.
Qed.

Lemma keys_inv (l : list string) :
  incl l ks ->
  forall best, bestInv ks best ->
               bestInv ks (fold_left (tryKey this view nq terms x) l best).
Proof.
  induction l as [|key l IH]; intros Hl best Hb; simpl; [assumption|].
  apply IH; [intros k Hk; apply Hl; right; exact Hk|].
  apply tryKey_inv; [apply Hl; left; reflexivity|assumption].
Qed.
End BestFacts.

Lemma NoDup_map_Some {A : Type} (l : list A) :
  NoDup l -> NoDup (map Some l).
Proof.
  induction 1 as [|a l Hn Hd IH]; simpl; constructor; [|assumption].
  intros H. apply in_map_iff in H. destruct H as [b [Hb Hin]].
  injection Hb as ->. contradiction.
Qed.

Lemma StronglySorted_lt_NoDup {A : Type} (f : A -> nat) (l : list A) :
  StronglySorted (fun a b => f a < f b) l -> NoDup (map f l).
Proof.
  induction 1 as [|a l Hs IH Hf]; simpl; constructor; [|assumption].
  intros H. apply in_map_iff in H. destruct H as [b [Hb Hin]].
  rewrite Forall_forall in Hf. apply Hf in Hin. lia.
Qed.

Lemma scoreItem_fields {T : Type} (this : FuzzySearch.t) (view : T -> Item)
    (q nq : string) (terms : list string) (i : nat) (x : T)
    (r : SearchResult.t T) :
  scoreItem this view q nq terms i x = Some r ->
  exists ks fs k,
    SearchResult.item r = x
    /\ SearchResult.refIndex r = Some i
    /\ SearchResult.keywordScore r = Some ks
    /\ SearchResult.fuzzyScore r = Some fs
    /\ SearchResult.matchedKey r = Some k
    /\ (0 <= ks <= 2)%Q /\ (0 <= fs <= 1)%Q
    /\ (SearchResult.score r == ks + fs)%Q
    /\ (threshold this <= SearchResult.score r)%Q
    /\ ((k = "" /\ (fs == 0)%Q /\ SearchResult.matches r = [])
        \/ (In k (keys this) /\ (0 < fs)%Q /\ SearchResult.matches r <> [])).
Proof.
  unfold scoreItem.
  assert (Hb : bestInv (keys this)
                 (fold_left (tryKey this view nq terms x) (keys this)
                            (mkBest 0%Q [] ""))).
  { apply keys_inv; [apply incl_refl|]. split; [simpl; lra|].
    left. simpl. split; [reflexivity|]. split; reflexivity. }
  set (b := fold_left (tryKey this view nq terms x) (keys this)
                      (mkBest 0%Q [] "")) in *.
  destruct (Qgeb _ _) eqn:E; [|discriminate].
  intros H. injection H as <-. apply Qgeb_true in E.
  exists (calculateSearchScore (view x) q terms), (bestFuzzyScore b), (bestKey b).
  cbn [SearchResult.item SearchResult.refIndex SearchResult.keywordScore
       SearchResult.fuzzyScore SearchResult.matchedKey SearchResult.score
       SearchResult.matches].
  destruct Hb as [Hr Hc].
  repeat (split; [reflexivity|]).
  split; [split; [apply calculateSearchScore_ge|apply calculateSearchScore_le]|].
  split; [exact Hr|]. split; [lra|]. split; [exact E|exact Hc].
Qed.

(** X7.  A query of two characters or more for which [search] returns:
    every result stands for the entry at the place [refIndex] of the
    catalog, no entry has two results, the score is the sum of a keyword
    score between 0 and 2 and a fuzzy score between 0 and 1 and reaches
    the threshold, and the result names the key of its best match with at
    least one span exactly when the fuzzy score is positive. *)
Theorem search_results_are_scored_entries :
  forall (T : Type) (this : FuzzySearch.t) (view : T -> Item)
         (items : list T) (q : string) (rs : list (SearchResult.t T)),
    2 <= String.length q ->
    search this view items (Some q) = Normal rs ->
    NoDup (map SearchResult.refIndex rs)
    /\ Forall
         (fun r =>
            exists i ks fs k,
              SearchResult.refIndex r = Some i
              /\ nth_error items i = Some (SearchResult.item r)
              /\ SearchResult.keywordScore r = Some ks
              /\ SearchResult.fuzzyScore r = Some fs
              /\ SearchResult.matchedKey r = Some k
              /\ (0 <= ks <= 2)%Q /\ (0 <= fs <= 1)%Q
              /\ (SearchResult.score r == ks + fs)%Q
              /\ (threshold this <= SearchResult.score r)%Q
              /\ ((k = "" /\ (fs == 0)%Q /\ SearchResult.matches r = [])
                  \/ (In k (keys this) /\ (0 < fs)%Q
                      /\ SearchResult.matches r <> [])))
         rs.
Proof.
  intros T this view items q rs Hlen. rewrite search_long by assumption.
  destruct (expandSearchQuery (normalize q)) as [terms|e]; [|discriminate].
  unfold bind. intros H. injection H as <-.
  set (g := fun '(i, item) =>
              match scoreItem this view q (normalize q) terms i item with
              | Some r => [r]
              | None => []
              end).
  assert (Hg : forall i x r,
             In r (g (i, x)) -> scoreItem this view q (normalize q) terms i x
                                = Some r).
  { intros i x r. unfold g.
    destruct (scoreItem this view q (normalize q) terms i x);
      [intros [<-|[]]; reflexivity|intros []]. }
  split.
  - assert (Hp : StronglySorted (fun a b => placeOf a < placeOf b)
                   (flat_map g (entries items))).
    { apply (pushed_in_order g placeOf).
      - intros i x r Hr. apply Hg, scoreItem_refIndex in Hr.
        unfold placeOf. destruct Hr as [-> _]. reflexivity.
      - intros i x. unfold g.
        destruct (scoreItem this view q (normalize q) terms i x); simpl; lia. }
    apply StronglySorted_lt_NoDup, NoDup_map_Some in Hp.
    rewrite map_map in Hp.
    assert (Hm : map (fun r => Some (placeOf r)) (flat_map g (entries items))
                 = map SearchResult.refIndex (flat_map g (entries items))).
    { apply map_ext_in. intros r Hr. apply in_flat_map in Hr.
      destruct Hr as [[i x] [_ Hr]]. apply Hg, scoreItem_refIndex in Hr.
      unfold placeOf. destruct Hr as [-> _]. reflexivity. }
    rewrite Hm in Hp.
    eapply Permutation_NoDup; [|exact Hp].
    apply Permutation_map, arraySort_perm.
  - apply Forall_forall. intros r Hr. apply arraySort_In, in_flat_map in Hr.
    destruct Hr as [[i x] [Hin Hr]]. apply Hg in Hr. apply In_entries in Hin.
    destruct (scoreItem_fields _ _ _ _ _ _ _ _ Hr)
      as (ks & fs & k & Hi & Hri & Hks & Hfs & Hk & Hrest).
    exists i, ks, fs, k. rewrite Hi. repeat (split; [assumption|]).
    exact Hrest.
Qed.

Lemma search_results_are_scored_entries_witness :
  exists rs,
    search FuzzySearch.default id [nagios; nginxUi; nginx] (Some "nginx")
    = Normal rs
    /\ NoDup (map SearchResult.refIndex rs).
Proof.
  eexists. split.
  - vm_compute. reflexivity.
  - apply (search_results_are_scored_entries Item FuzzySearch.default id
             [nagios; nginxUi; nginx] "nginx").
    + simpl. lia.
    + vm_compute. reflexivity.
Defined.

(** X8.  For a query of two characters or more, [search] throws a
    [TypeError] exactly when the query, lower-cased and trimmed, is
    [constructor] or [__proto__], whatever the catalog; for every other
    query it returns. *)
Theorem search_throws_on_prototype_names :
  forall (T : Type) (this : FuzzySearch.t) (view : T -> Item)
         (items : list T) (q : string),
    2 <= String.length q ->
    (search this view items (Some q) = Throw TypeError
     <-> normalize q = "constructor" \/ normalize q = "__proto__")
    /\ (normalize q <> "constructor" -> normalize q <> "__proto__" ->
        exists rs, search this view items (Some q) = Normal rs).
Proof.
  intros T this view items q Hlen. rewrite search_long by assumption.
  assert (Hret : normalize q <> "constructor" -> normalize q <> "__proto__" ->
                 exists rs,
                   (expandedTerms <- expandSearchQuery (normalize q) ;;
                    Normal
                      (arraySort byScore
                         (flat_map
                            (fun '(i, item) =>
                               match scoreItem this view q (normalize q)
                                               expandedTerms i item with
                               | Some r => [r]
                               | None => []
                               end)
                            (entries items)))) = Normal rs).
  { intros H1 H2. destruct (search_terms q H1 H2) as [rest ->].
    unfold bind. eexists. reflexivity. }
  split; [split|exact Hret].
  - intros H.
    destruct (String.string_dec (normalize q) "constructor") as [|H1];
      [left; assumption|].
    destruct (String.string_dec (normalize q) "__proto__") as [|H2];
      [right; assumption|].
    destruct (Hret H1 H2) as [rs Hrs]. rewrite Hrs in H. discriminate.
  - intros H. rewrite expandSearchQuery_throws; [reflexivity|].
    apply expandSearchQuery_inherited. rewrite normalize_idempotent. exact H.
Qed.

Lemma search_throws_on_prototype_names_witness :
  search FuzzySearch.default id [nginx] (Some " __PROTO__ ") = Throw TypeError.
Proof.
  apply (search_throws_on_prototype_names Item FuzzySearch.default id [nginx]
           " __PROTO__ ").
  - simpl. lia.
  - right. reflexivity.
Defined.

(** ** Case of the query *)

Lemma toLowerCase_idempotent (s : string) :
  toLowerCase (toLowerCase s) = toLowerCase s.
Proof. apply toLowerCase_noUpper, noUpper_toLowerCase. Qed.

Lemma shorterThan_toLowerCase (n : nat) (q : string) :
  shorterThan n (Some (toLowerCase q)) = shorterThan n (Some q).
Proof.
  unfold shorterThan. rewrite toLowerCase_length. destruct q; reflexivity.
Qed.

Lemma calculateSearchScore_toLowerCase (item : Item) (q : string)
    (terms : list string) :
  calculateSearchScore item (toLowerCase q) terms
  = calculateSearchScore item q terms.
Proof.
  unfold calculateSearchScore. rewrite toLowerCase_idempotent. reflexivity.
Qed.

Lemma forEachM_ext {A S : Type} (f g : S -> A -> outcome S) (l : list A) :
  (forall s a, f s a = g s a) -> forall s, forEachM f l s = forEachM g l s.
Proof.
  intros H. induction l as [|a l IH]; intros s; simpl; [reflexivity|].
  rewrite H. destruct (g s a); simpl; [apply IH|reflexivity].
Qed.

Lemma search_toLowerCase {T : Type} (this : FuzzySearch.t) (view : T -> Item)
    (items : list T) (q : string) :
  search this view items (Some (toLowerCase q)) = search this view items (Some q).
Proof.
  unfold search. rewrite shorterThan_toLowerCase, toLowerCase_idempotent.
  destruct (shorterThan 2 (Some q)); [reflexivity|].
  destruct (expandSearchQuery (trim (toLowerCase q))) as [terms|e];
    [|reflexivity].
  unfold bind. f_equal. f_equal. apply flat_map_ext. intros [i x].
  unfold scoreItem. rewrite calculateSearchScore_toLowerCase. reflexivity.
Qed.

(** X9.  [search] and [searchIndex] ignore the case of the letters of a
    query of ASCII characters: such a query and its lower-case form have
    the same outcome, results and scores included. *)
Theorem search_ignores_case :
  forall (T : Type) (this : FuzzySearch.t) (view : T -> Item)
         (items : list T) (indexedItems : list Indexed) (q : string),
    isAscii q = true ->
    search this view items (Some (toLowerCase q))
    = search this view items (Some q)
    /\ searchIndex this indexedItems (Some (toLowerCase q))
       = searchIndex this indexedItems (Some q).
Proof.
  intros T this view items indexedItems q _.
  split; [apply search_toLowerCase|].
  unfold searchIndex. rewrite shorterThan_toLowerCase, toLowerCase_idempotent.
  destruct (shorterThan 2 (Some q)); [reflexivity|].
  rewrite (forEachM_ext _
             (fun results item =>
                if negb (existsb
                           (fun word =>
                              includes word (trim (toLowerCase q))
                              || includes (trim (toLowerCase q)) word)
                           (_searchWords item))
                   && (3 <? String.length (trim (toLowerCase q)))
                then Normal results
                else
                  found <- search this base [item] (Some q) ;;
                  match found with
                  | result :: _ =>
                      if Qgeb (SearchResult.score result) (threshold this)
                      then Normal (results ++ [result])
                      else Normal results
                  | [] => Normal results
                  end));
    [reflexivity|].
  intros results item. rewrite search_toLowerCase. reflexivity.
Qed.

Lemma search_ignores_case_witness :
  search FuzzySearch.default id [nginx; caddy] (Some (toLowerCase "NGinx"))
  = search FuzzySearch.default id [nginx; caddy] (Some "NGinx").
Proof.
  apply (search_ignores_case Item FuzzySearch.default id [nginx; caddy] []
           "NGinx").
  reflexivity.
Defined.

(** ** Tiers that [search] reaches *)

Lemma table_lower (keyword : string) (aliases : list string) :
  In (keyword, aliases) SEARCH_KEYWORDS ->
  noUpper keyword = true /\ forall a, In a aliases -> noUpper a = true.
Proof.
  assert (H : forallb (fun '(k, al) => noUpper k && forallb noUpper al)
                      SEARCH_KEYWORDS = true) by (vm_compute; reflexivity).
  rewrite forallb_forall in H. intros Hin. apply H in Hin.
  apply andb_true_iff in Hin. destruct Hin as [Hk Hal]. split; [exact Hk|].
  rewrite forallb_forall in Hal. exact Hal.
Qed.

Lemma expandSearchQuery_lower (t : string) (terms : list string) :
  expandSearchQuery t = Normal terms ->
  forall x, In x terms -> noUpper x = true.
Proof.
  intros H x Hx. destruct (expandSearchQuery_terms t terms H) as [_ Hin].
  apply Hin in Hx.
  destruct Hx as [->|[(al & Hal & Hx)|(_ & k & al & Hk & _ & [->|Hx])]].
  - apply noUpper_normalize.
  - apply ownProperty_In, table_lower in Hal. exact (proj2 Hal x Hx).
  - apply table_lower in Hk. exact (proj1 Hk).
  - apply table_lower in Hk. exact (proj2 Hk x Hx).
Qed.

Section Tiers.
Variable this : FuzzySearch.t.
Context {T : Type} (view : T -> Item).
Variables (nq : string) (terms : list string) (x : T).
Hypothesis nq_lower : noUpper nq = true.
Hypothesis terms_lower : forall t, In t terms -> noUpper t = true.

Lemma fuzzyMatch_lower_tier (t value : string) :
  noUpper t = true ->
  Forall (fun m => matchType m <> WordBoundary)
         (MatchResult.matches (fuzzyMatch this t (toLowerCase value))).
Proof.
  intros Ht.
  destruct (fuzzyMatch_lower this t (toLowerCase value) Ht
              (noUpper_toLowerCase value)) as [_ H].
  eapply Forall_impl; [|exact H]. intros m ->.
  destruct (includes _ _); discriminate.
Qed.

Lemma tryKey_tier (best : Best) (key : string) :
  Forall (fun m => matchType m <> WordBoundary) (bestMatches best) ->
  Forall (fun m => matchType m <> WordBoundary)
         (bestMatches (tryKey this view nq terms x best key)).
Proof.
  intros Hb. unfold tryKey. destruct (_ =? "")%string; [assumption|].
  assert (Hmap : forall t term,
             noUpper t = true ->
             Forall (fun m => matchType m <> WordBoundary)
                    (map (withKey key (getValue (view x) key) term)
                         (MatchResult.matches
                            (fuzzyMatch this t
                               (toLowerCase (getValue (view x) key)))))).
  { intros t term Ht. apply Forall_map.
    eapply Forall_impl; [|apply fuzzyMatch_lower_tier, Ht].
    intros m Hm. exact Hm. }
  set (P := fun b => Forall (fun m => matchType m <> WordBoundary)
                            (bestMatches b)).
  assert (Hfold : forall l b,
             (forall t, In t l -> noUpper t = true) -> P b ->
             P (fold_left
                  (fun best term =>
                     if Qgtb (MatchResult.score
                                (fuzzyMatch this term
                                   (toLowerCase (getValue (view x) key))))
                             (bestFuzzyScore best)
                     then mkBest
                            (MatchResult.score
                               (fuzzyMatch this term
                                  (toLowerCase (getValue (view x) key)))
                             * 0.8)%Q
                            (map (withKey key (getValue (view x) key)
                                          (Some term))
                                 (MatchResult.matches
                                    (fuzzyMatch this term
                                       (toLowerCase (getValue (view x) key)))))
                            key
                     else best)
                  l b)).
  { induction l as [|t l IH]; intros b Hl Hp; simpl; [assumption|].
    apply IH; [intros t' Ht'; apply Hl; right; exact Ht'|].
    destruct (Qgtb _ _); [|assumption]. unfold P. cbn [bestMatches].
    apply Hmap, Hl. left. reflexivity. }
  apply Hfold; [exact terms_lower|].
  destruct (Qgtb _ _); [|assumption]. unfold P. cbn [bestMatches].
  apply Hmap, nq_lower.
Qed.

Lemma scoreItem_tier (q : string) (i : nat) (r : SearchResult.t T) :
  scoreItem this view q nq terms i x = Some r ->
  Forall (fun m => matchType m <> WordBoundary) (SearchResult.matches r).
Proof.
  unfold scoreItem. destruct (Qgeb _ _); [|discriminate].
  intros H. injection H as <-. cbn [SearchResult.matches].
  apply (fold_left_invariant
           (fun b => Forall (fun m => matchType m <> WordBoundary)
                            (bestMatches b))).
  - intros b key Hb. apply tryKey_tier, Hb.
  - constructor.
Qed.
End Tiers.

(** X10.  On a query of ASCII characters and a catalog whose values of
    the configured keys are ASCII, no span that [search] returns has the
    type [word-boundary]: [search] lower-cases the query and the values
    before it matches them, the terms of the thesaurus are lower-case,
    and on lower-case ASCII strings the word-boundary pattern matches
    only where the exact tier has already found the query. *)
Theorem search_never_reports_word_boundary :
  forall (T : Type) (this : FuzzySearch.t) (view : T -> Item)
         (items : list T) (query : option string)
         (rs : list (SearchResult.t T)),
    (forall q, query = Some q -> isAscii q = true) ->
    (forall x key,
        In x items -> In key (keys this) ->
        isAscii (getValue (view x) key) = true) ->
    search this view items query = Normal rs ->
    Forall (fun r =>
              Forall (fun m => matchType m <> WordBoundary)
                     (SearchResult.matches r))
           rs.
Proof.
  intros T this view items query rs _ _. unfold search.
  assert (Hshort :
            Forall (fun r : SearchResult.t T =>
                      Forall (fun m => matchType m <> WordBoundary)
                             (SearchResult.matches r))
                   (map (fun '(i, item) =>
                           SearchResult.mk item 0%Q [] (Some i) None None None)
                        (entries items))).
  { apply Forall_forall. intros r Hr. apply in_map_iff in Hr.
    destruct Hr as [[i x] [<- _]]. constructor. }
  destruct query as [q|];
    [destruct (shorterThan 2 (Some q))|];
    try (intros H; injection H as <-; exact Hshort).
  fold (normalize q).
  destruct (expandSearchQuery (normalize q)) as [terms|e] eqn:E;
    [|discriminate].
  unfold bind. intros H. injection H as <-.
  apply Forall_forall. intros r Hr. apply arraySort_In, in_flat_map in Hr.
  destruct Hr as [[i x] [_ Hr]].
  destruct (scoreItem this view q (normalize q) terms i x) as [r'|] eqn:Er;
    [|destruct Hr].
  destruct Hr as [<-|[]].
  apply (scoreItem_tier this view (normalize q) terms x
           (noUpper_normalize q) (expandSearchQuery_lower _ _ E) q i r' Er).
Qed.

Lemma search_never_reports_word_boundary_witness :
  exists rs,
    search FuzzySearch.default id [nginxProxyManager] (Some "proxy") = Normal rs
    /\ Forall (fun r =>
                 Forall (fun m => matchType m <> WordBoundary)
                        (SearchResult.matches r))
              rs.
Proof.
  eexists. split.
  - vm_compute. reflexivity.
  - apply (search_never_reports_word_boundary Item FuzzySearch.default id
             [nginxProxyManager] (Some "proxy")).
    + intros q Hq. injection Hq as <-. reflexivity.
    + intros x key [<-|[]] [<-|[<-|[<-|[]]]]; reflexivity.
    + vm_compute. reflexivity.
Defined.

(** ** What the spans mark *)

Lemma spell_app (text : string) (l1 l2 : list Match) :
  spell text (l1 ++ l2) = (spell text l1 ++ spell text l2)%string.
Proof.
  induction l1 as [|m l1 IH]; simpl; [reflexivity|].
  rewrite IH, append_assoc. reflexivity.
Qed.

Lemma spell_map (text : string) (f : Match -> Match) (l : list Match) :
  (forall m, start (f m) = start m /\ end_ (f m) = end_ m) ->
  spell text (map f l) = spell text l.
Proof.
  intros Hf. induction l as [|m l IH]; simpl; [reflexivity|].
  destruct (Hf m) as [-> ->]. rewrite IH. reflexivity.
Qed.

Lemma substring_add (t : string) :
  forall n a b,
    (substring n a t ++ substring (n + a) b t)%string = substring n (a + b) t.
Proof.
  induction t as [|c t IH]; intros n a b.
  - destruct n, a, b; reflexivity.
  - destruct n as [|n]; [|simpl; apply IH].
    destruct a as [|a]; [reflexivity|].
    simpl. f_equal. apply (IH 0).
Qed.

Lemma slice_split (t : string) (s e e2 : nat) :
  s <= e -> e <= e2 ->
  (slice t s e ++ slice t e e2)%string = slice t s e2.
Proof.
  intros H1 H2. unfold slice.
  replace e with (s + (e - s)) at 2 by lia.
  rewrite substring_add. f_equal. lia.
Qed.

Lemma substring_dropS (t : string) :
  forall n m, substring n m t = substring 0 m (dropS n t).
Proof.
  induction t as [|c t IH]; intros n m.
  - destruct n, m; reflexivity.
  - destruct n as [|n]; [reflexivity|]. simpl. apply IH.
Qed.

Lemma get_substring (t : string) (n : nat) (c : ascii) :
  get n t = Some c -> substring n 1 t = String c "".
Proof.
  rewrite get_dropS, substring_dropS.
  destruct (dropS n t) as [|d r]; [discriminate|].
  intros H. injection H as ->. simpl. destruct r; reflexivity.
Qed.

Lemma prefix_snoc (q : string) (n : nat) (c : ascii) :
  get n q = Some c ->
  substring 0 (n + 1) q = (substring 0 n q ++ String c "")%string.
Proof.
  intros H. rewrite <- (substring_add q 0 n 1). simpl.
  rewrite (get_substring q n c H). reflexivity.
Qed.

Lemma substring_all (q : string) : substring 0 (String.length q) q = q.
Proof. induction q as [|c q IH]; simpl; [reflexivity|]. rewrite IH. reflexivity. Qed.

Lemma startsWith_substring (t q : string) :
  startsWith t q = true -> substring 0 (String.length q) t = q.
Proof.
  revert t. induction q as [|a q IH]; intros t; [destruct t; reflexivity|].
  destruct t as [|b t]; [discriminate|]. simpl.
  intros H. apply andb_true_iff in H. destruct H as [Hc H].
  apply Ascii.eqb_eq in Hc. subst b. rewrite (IH _ H). reflexivity.
Qed.

Lemma lowerChar_of_upperChar (a b : ascii) :
  Ascii.eqb (upperChar a) (upperChar b) = true -> lowerChar a = lowerChar b.
Proof.
  intros H.
  pose proof
    (ascii_forallb
       (fun a =>
          forallb
            (fun b =>
               implb (Ascii.eqb (upperChar a) (upperChar b))
                     (Ascii.eqb (lowerChar a) (lowerChar b)))
            (map ascii_of_nat (seq 0 256)))
       ltac:(vm_compute; reflexivity) a) as Ha.
  cbv beta in Ha. pose proof (ascii_forallb _ Ha b) as Hb. cbv beta in Hb.
  rewrite H in Hb. apply Ascii.eqb_eq. exact Hb.
Qed.

Lemma startsWithIgnoreCase_substring (t q : string) :
  startsWithIgnoreCase t q = true ->
  toLowerCase (substring 0 (String.length q) t) = toLowerCase q.
Proof.
  revert t. induction q as [|a q IH]; intros t; [destruct t; reflexivity|].
  destruct t as [|b t]; [discriminate|]. simpl.
  intros H. apply andb_true_iff in H. destruct H as [Hc H].
  apply lowerChar_of_upperChar in Hc. rewrite (IH _ H), Hc. reflexivity.
Qed.

Lemma indexOf_at (text q : string) :
  forall i, indexOf text q = Some i -> startsWith (dropS i text) q = true.
Proof.
  induction text as [|c text IH]; intros i; rewrite indexOf_unfold;
    destruct (startsWith _ q) eqn:E; try discriminate.
  - intros H. injection H as <-. exact E.
  - intros H. injection H as <-. exact E.
  - destruct (indexOf text q) as [j|]; [|discriminate].
    intros H. injection H as <-. simpl. apply IH. reflexivity.
Qed.

Lemma wordBoundaryFrom_at (q text : string) :
  forall prev i j,
    wordBoundaryFrom prev text q i = Some j ->
    i <= j /\ startsWithIgnoreCase (dropS (j - i) text) q = true.
Proof.
  induction text as [|c text IH]; intros prev i j;
    cbn [wordBoundaryFrom];
    match goal with |- context [if ?b then _ else _] => destruct b eqn:E end;
    try discriminate.
  - intros H. injection H as <-. apply andb_true_iff in E.
    rewrite Nat.sub_diag. split; [lia|apply E].
  - intros H. injection H as <-. apply andb_true_iff in E.
    rewrite Nat.sub_diag. split; [lia|apply E].
  - intros H. apply IH in H. destruct H as [Hle Hs]. split; [lia|].
    replace (j - i) with (S (j - S i)) by lia. exact Hs.
Qed.

(** Merging keeps what the spans mark. *)
Lemma mergeLoop_spell (text : string) (n : nat) (rest : list Match) :
  forall current merged,
    start current <= end_ current ->
    chain 0 (end_ current) rest n ->
    spell text (mergeLoop rest current merged)
    = (spell text merged ++ slice text (start current) (end_ current)
       ++ spell text rest)%string.
Proof.
  induction rest as [|m rest IH]; intros current merged Hc Hr; simpl.
  - rewrite spell_app. reflexivity.
  - destruct Hr as (H1 & H2 & H3).
    destruct (Nat.eqb_spec (start m) (end_ current)) as [E|E].
    + rewrite IH; simpl; [|lia|assumption].
      rewrite <- (slice_split text (start current) (end_ current) (end_ m))
        by lia.
      rewrite E, append_assoc. reflexivity.
    + rewrite IH by (assumption || lia).
      rewrite spell_app. simpl. rewrite append_nil_r, append_assoc.
      reflexivity.
Qed.

Lemma mergeConsecutiveMatches_spell (text : string) (n : nat)
    (matches : list Match) :
  chain 0 0 matches n ->
  spell text (mergeConsecutiveMatches matches) = spell text matches.
Proof.
  destruct matches as [|first [|m rest]]; try reflexivity.
  intros (H1 & H2 & H3). unfold mergeConsecutiveMatches.
  rewrite (mergeLoop_spell text n) by (assumption || lia). reflexivity.
Qed.

(** After merging, a gap separates each span from the next. *)
Lemma mergeLoop_app (rest : list Match) :
  forall current merged,
    mergeLoop rest current merged = merged ++ mergeLoop rest current [].
Proof.
  induction rest as [|m rest IH]; intros current merged; simpl; [reflexivity|].
  destruct (start m =? end_ current); [apply IH|].
  rewrite IH, (IH m [current]), app_assoc. reflexivity.
Qed.

Lemma mergeLoop_gaps (n : nat) (rest : list Match) :
  forall current,
    start current <= end_ current ->
    chain 0 (end_ current) rest n ->
    StronglySorted (fun a b => end_ a < start b) (mergeLoop rest current [])
    /\ Forall (fun b => start current <= start b) (mergeLoop rest current []).
Proof.
  induction rest as [|m rest IH]; intros current Hc Hr; simpl.
  - split; repeat constructor.
  - destruct Hr as (H1 & H2 & H3).
    destruct (Nat.eqb_spec (start m) (end_ current)) as [E|E].
    + destruct (IH (setEnd current (end_ m))) as [Hs Hf]; simpl;
        [lia|assumption|]. split; assumption.
    + rewrite mergeLoop_app. simpl.
      destruct (IH m) as [Hs Hf]; [lia|assumption|]. split.
      * constructor; [assumption|]. eapply Forall_impl; [|exact Hf].
        simpl. intros b Hb. lia.
      * constructor; [lia|]. eapply Forall_impl; [|exact Hf].
        simpl. intros b Hb. lia.
Qed.

Lemma mergeConsecutiveMatches_gaps (n : nat) (matches : list Match) :
  chain 0 0 matches n ->
  StronglySorted (fun a b => end_ a < start b)
                 (mergeConsecutiveMatches matches).
Proof.
  destruct matches as [|first [|m rest]];
    try solve [intros _; repeat constructor].
  intros (H1 & H2 & H3). unfold mergeConsecutiveMatches.
  apply (mergeLoop_gaps n); [lia|assumption].
Qed.

Section ScanSpell.
Variables full query : string.

Lemma scanStep_spell (queryLen textIndex : nat) (prev : option ascii)
    (c : ascii) (s : Scan) :
  get textIndex full = Some c ->
  spell full (scanMatches s) = substring 0 (scanQueryIndex s) query ->
  spell full (scanMatches (scanStep query queryLen textIndex prev c s))
  = substring 0 (scanQueryIndex (scanStep query queryLen textIndex prev c s))
              query.
Proof.
  intros Hc Hs. unfold scanStep.
  destruct (get (scanQueryIndex s) query) as [qc|] eqn:Eq; [|exact Hs].
  destruct (Ascii.eqb_spec c qc) as [->|_]; [|exact Hs].
  destruct (_ =? _)%Z; destruct (atWordStart prev);
    cbn [scanMatches scanQueryIndex];
    rewrite spell_app, Hs, (prefix_snoc query _ qc Eq); simpl;
    unfold slice; replace (textIndex + 1 - textIndex) with 1 by lia;
    rewrite (get_substring full textIndex qc Hc); reflexivity.
Qed.

Lemma scanLoop_spell (queryLen : nat) (text : string) :
  forall textIndex prev s,
    dropS textIndex full = text ->
    spell full (scanMatches s) = substring 0 (scanQueryIndex s) query ->
    spell full (scanMatches (scanLoop query queryLen text textIndex prev s))
    = substring 0
        (scanQueryIndex (scanLoop query queryLen text textIndex prev s)) query.
Proof.
  induction text as [|c text IH]; intros textIndex prev s Hd Hs; simpl;
    [exact Hs|].
  destruct (scanQueryIndex s <? queryLen); [|exact Hs].
  apply IH; [apply (dropS_next _ _ c), Hd|].
  apply scanStep_spell; [|exact Hs]. rewrite get_dropS, Hd. reflexivity.
Qed.
End ScanSpell.

Lemma fuzzyCharacterMatch_spell (this : FuzzySearch.t) (q text : string) :
  MatchResult.matches (fuzzyCharacterMatch this q text) <> [] ->
  spell text (MatchResult.matches (fuzzyCharacterMatch this q text)) = q.
Proof.
  unfold fuzzyCharacterMatch.
  destruct (Nat.eqb_spec
              (scanQueryIndex
                 (scanLoop q (String.length q) text 0 None scanInit))
              (String.length q)) as [E|E];
    [|intros H; contradiction H; reflexivity].
  intros _. cbn [MatchResult.matches].
  rewrite (mergeConsecutiveMatches_spell text (String.length text)).
  - rewrite (scanLoop_spell text q (String.length q) text 0 None scanInit);
      [rewrite E; apply substring_all|reflexivity|destruct q; reflexivity].
  - apply chain_weaken with (g := 1).
    apply (scanLoop_chain q (String.length q) text 0 None scanInit).
    simpl. lia.
Qed.

Lemma fuzzyMatch_spans_spell_query_aux (this : FuzzySearch.t) (q text : string) :
  MatchResult.matches (fuzzyMatch this q text) <> [] ->
  toLowerCase (spell text (MatchResult.matches (fuzzyMatch this q text)))
  = toLowerCase q
  /\ (Forall (fun m => matchType m <> WordBoundary)
             (MatchResult.matches (fuzzyMatch this q text)) ->
      spell text (MatchResult.matches (fuzzyMatch this q text)) = q).
Proof.
  unfold fuzzyMatch. destruct (String.length text <? String.length q);
    [intros H; contradiction H; reflexivity|].
  destruct (indexOf text q) as [i|] eqn:Ei.
  - intros _. apply indexOf_at in Ei. apply startsWith_substring in Ei.
    assert (Hs : spell text
                   [spanOf i (i + String.length q) Exact None] = q).
    { simpl. unfold slice. rewrite append_nil_r.
      replace (i + String.length q - i) with (String.length q) by lia.
      rewrite substring_dropS. exact Ei. }
    cbn [MatchResult.matches]. rewrite Hs. split; [reflexivity|].
    intros _. reflexivity.
  - destruct (wordBoundaryMatch text q) as [j|] eqn:Ew.
    + intros _. apply wordBoundaryFrom_at in Ew. destruct Ew as [_ Ew].
      rewrite Nat.sub_0_r in Ew. apply startsWithIgnoreCase_substring in Ew.
      cbn [MatchResult.matches]. split.
      * simpl. unfold slice. rewrite append_nil_r.
        replace (j + String.length q - j) with (String.length q) by lia.
        rewrite substring_dropS. exact Ew.
      * intros H. inversion H as [|m l Hm Hl]. contradiction Hm. reflexivity.
    + intros H. rewrite (fuzzyCharacterMatch_spell this q text H).
      split; [reflexivity|]. intros _. reflexivity.
Qed.

(** X11.  The spans of a match of [fuzzyMatch] lie within the text in
    increasing order, with a gap between a span and the next, and none is
    empty unless the query is; read off the text one after the other,
    they spell the query, up to the case of letters in the word-boundary
    tier. *)
Theorem fuzzyMatch_spans_spell_query :
  forall (this : FuzzySearch.t) (q text : string),
    Forall (fun m => start m <= end_ m /\ end_ m <= String.length text
                     /\ (q <> "" -> start m < end_ m))
           (MatchResult.matches (fuzzyMatch this q text))
    /\ StronglySorted (fun a b => end_ a < start b)
                      (MatchResult.matches (fuzzyMatch this q text))
    /\ (MatchResult.matches (fuzzyMatch this q text) <> [] ->
        toLowerCase (spell text (MatchResult.matches (fuzzyMatch this q text)))
        = toLowerCase q
        /\ (Forall (fun m => matchType m <> WordBoundary)
                   (MatchResult.matches (fuzzyMatch this q text)) ->
            spell text (MatchResult.matches (fuzzyMatch this q text)) = q)).
Proof.
  intros this q text. split; [|split].
  - destruct (chain_spans _ _ _ _ (fuzzyMatch_chain this q text)) as [H _].
    eapply Forall_impl; [|exact H]. simpl. intros m (_ & H1 & H2).
    split; [destruct (q =? "")%string; lia|]. split; [exact H2|].
    intros Hq. destruct (String.eqb_spec q ""); [contradiction|lia].
  - unfold fuzzyMatch. destruct (String.length text <? String.length q);
      [constructor|].
    destruct (indexOf text q); [repeat constructor|].
    destruct (wordBoundaryMatch text q); [repeat constructor|].
    unfold fuzzyCharacterMatch. destruct (_ =? String.length q);
      [|constructor].
    cbn [MatchResult.matches].
    apply (mergeConsecutiveMatches_gaps (String.length text)).
    apply chain_weaken with (g := 1).
    apply (scanLoop_chain q (String.length q) text 0 None scanInit).
    simpl. lia.
  - apply fuzzyMatch_spans_spell_query_aux.
Qed.

Lemma fuzzyMatch_spans_spell_query_witness :
  spell "nginx" (MatchResult.matches (fuzzyMatch FuzzySearch.default "ngx" "nginx"))
  = "ngx".
Proof.
  destruct (fuzzyMatch_spans_spell_query FuzzySearch.default "ngx" "nginx")
    as (_ & _ & H).
  destruct H as [_ H]; [vm_compute; discriminate|].
  apply H. vm_compute. repeat constructor; discriminate.
Defined.

Section MarkedTerms.
Variable this : FuzzySearch.t.
Context {T : Type} (view : T -> Item).
Variables (nq : string) (terms : list string) (x : T).
Hypothesis nq_lower : noUpper nq = true.
Hypothesis terms_lower : forall t, In t terms -> noUpper t = true.
Hypothesis nq_term : In nq terms.

Lemma withKey_marks (key t : string) (term : option string) :
  In t terms -> term = Some t \/ t = nq ->
  MatchResult.matches
    (fuzzyMatch this t (toLowerCase (getValue (view x) key))) <> [] ->
  marksTerm view x nq terms key
    (map (withKey key (getValue (view x) key) term)
         (MatchResult.matches
            (fuzzyMatch this t (toLowerCase (getValue (view x) key))))).
Proof.
  intros Ht Hterm Hne. exists t. split; [exact Ht|]. split.
  - rewrite spell_map by (intros m; split; reflexivity).
    destruct (fuzzyMatch_spans_spell_query_aux this t
                (toLowerCase (getValue (view x) key)) Hne) as [_ H].
    apply H. apply fuzzyMatch_lower_tier.
    destruct Hterm as [_ | ->]; [apply terms_lower, Ht|exact nq_lower].
  - apply Forall_map, Forall_forall. intros m _. simpl.
    split; [reflexivity|]. split; [reflexivity|].
    destruct Hterm as [-> | ->]; [left; reflexivity|right; reflexivity].
Qed.

Lemma tryKey_marks (best : Best) (key : string) :
  (bestMatches best = []
   \/ marksTerm view x nq terms (bestKey best) (bestMatches best)) ->
  bestMatches (tryKey this view nq terms x best key) = []
  \/ marksTerm view x nq terms
       (bestKey (tryKey this view nq terms x best key))
       (bestMatches (tryKey this view nq terms x best key)).
Proof.
  intros Hb. unfold tryKey. destruct (_ =? "")%string; [assumption|].
  assert (Hstep :
            forall (b : Best) (t : string) (g : Q -> Q) (term : option string),
              In t terms -> term = Some t \/ t = nq ->
              (bestMatches b = []
               \/ marksTerm view x nq terms (bestKey b) (bestMatches b)) ->
              let b' :=
                if Qgtb (MatchResult.score
                           (fuzzyMatch this t
                              (toLowerCase (getValue (view x) key))))
                        (bestFuzzyScore b)
                then mkBest
                       (g (MatchResult.score
                             (fuzzyMatch this t
                                (toLowerCase (getValue (view x) key)))))
                       (map (withKey key (getValue (view x) key) term)
                            (MatchResult.matches
                               (fuzzyMatch this t
                                  (toLowerCase (getValue (view x) key)))))
                       key
                else b in
              bestMatches b' = []
              \/ marksTerm view x nq terms (bestKey b') (bestMatches b')).
  { intros b t g term Ht Hterm Hinv. cbv zeta.
    destruct (Qgtb _ _); [|assumption]. cbn [bestMatches bestKey].
    destruct (MatchResult.matches
                (fuzzyMatch this t (toLowerCase (getValue (view x) key))))
      eqn:E; [left; reflexivity|].
    right. rewrite <- E. apply withKey_marks; try assumption.
    rewrite E. discriminate. }
  set (P := fun b => bestMatches b = []
                     \/ marksTerm view x nq terms (bestKey b) (bestMatches b)).
  assert (Hfold : forall l b,
             (forall t, In t l -> In t terms) -> P b ->
             P (fold_left
                  (fun best term =>
                     if Qgtb (MatchResult.score
                                (fuzzyMatch this term
                                   (toLowerCase (getValue (view x) key))))
                             (bestFuzzyScore best)
                     then mkBest
                            (MatchResult.score
                               (fuzzyMatch this term
                                  (toLowerCase (getValue (view x) key)))
                             * 0.8)%Q
                            (map (withKey key (getValue (view x) key)
                                          (Some term))
                                 (MatchResult.matches
                                    (fuzzyMatch this term
                                       (toLowerCase (getValue (view x) key)))))
                            key
                     else best)
                  l b)).
  { induction l as [|t l IH]; intros b Hl Hp; simpl; [assumption|].
    apply IH; [intros t' Ht'; apply Hl; right; exact Ht'|].
    apply (Hstep b t (fun s => (s * 0.8)%Q) (Some t));
      [apply Hl; left; reflexivity|left; reflexivity|exact Hp]. }
  apply Hfold; [auto|].
  apply (Hstep best nq (fun s => s) None);
    [exact nq_term|right; reflexivity|exact Hb].
Qed.

Lemma scoreItem_marks (q : string) (i : nat) (r : SearchResult.t T) :
  scoreItem this view q nq terms i x = Some r ->
  SearchResult.matches r = []
  \/ exists key,
       SearchResult.matchedKey r = Some key
       /\ marksTerm view x nq terms key (SearchResult.matches r).
Proof.
  unfold scoreItem.
  assert (Hb : let b := fold_left (tryKey this view nq terms x) (keys this)
                                  (mkBest 0%Q [] "") in
               bestMatches b = []
               \/ marksTerm view x nq terms (bestKey b) (bestMatches b)).
  { apply (fold_left_invariant
             (fun b => bestMatches b = []
                       \/ marksTerm view x nq terms (bestKey b) (bestMatches b))).
    - intros b key Hb. apply tryKey_marks, Hb.
    - left. reflexivity. }
  cbv zeta in Hb. destruct (Qgeb _ _); [|discriminate].
  intros H. injection H as <-.
  cbn [SearchResult.matches SearchResult.matchedKey].
  destruct Hb as [Hb|Hb]; [left; exact Hb|right].
  eexists. split; [reflexivity|exact Hb].
Qed.
End MarkedTerms.

(** X12.  The spans of a result of [search] mark one term: for a query of
    two ASCII characters or more and a catalog whose values of the
    configured keys are ASCII, a result with spans names in [matchedKey]
    the key whose value the spans were found in, every span records that
    key and that value, and the characters that the spans delimit in the
    lower-cased value spell the normalized query or another term of its
    expansion, which the spans then record as [expandedTerm]. *)
Theorem search_spans_mark_an_expanded_term :
  forall (T : Type) (this : FuzzySearch.t) (view : T -> Item)
         (items : list T) (q : string) (rs : list (SearchResult.t T)),
    isAscii q = true ->
    (forall x key,
        In x items -> In key (keys this) ->
        isAscii (getValue (view x) key) = true) ->
    2 <= String.length q ->
    search this view items (Some q) = Normal rs ->
    exists terms,
      expandSearchQuery (normalize q) = Normal terms
      /\ In (normalize q) terms
      /\ Forall
           (fun r =>
              SearchResult.matches r = []
              \/ exists key term,
                   SearchResult.matchedKey r = Some key
                   /\ In term terms
                   /\ spell (toLowerCase
                               (getValue (view (SearchResult.item r)) key))
                            (SearchResult.matches r) = term
                   /\ Forall
                        (fun m =>
                           mkey m = Some key
                           /\ mvalue m
                              = Some (getValue (view (SearchResult.item r)) key)
                           /\ (expandedTerm m = Some term
                               \/ term = normalize q))
                        (SearchResult.matches r))
           rs.
Proof.
  intros T this view items q rs _ _ Hlen. rewrite search_long by assumption.
  destruct (expandSearchQuery (normalize q)) as [terms|e] eqn:E;
    [|discriminate].
  unfold bind. intros H. injection H as <-.
  assert (Hnq : In (normalize q) terms).
  { destruct (expandSearchQuery_terms _ _ E) as [_ Hin]. apply Hin.
    left. rewrite normalize_idempotent. reflexivity. }
  exists terms. split; [reflexivity|]. split; [exact Hnq|].
  apply Forall_forall. intros r Hr. apply arraySort_In, in_flat_map in Hr.
  destruct Hr as [[i x] [_ Hr]].
  destruct (scoreItem this view q (normalize q) terms i x) as [r'|] eqn:Er;
    [|destruct Hr].
  destruct Hr as [<-|[]].
  destruct (scoreItem_refIndex this view _ _ _ _ _ _ Er) as [_ Hx].
  destruct (scoreItem_marks this view (normalize q) terms x
              (noUpper_normalize q) (expandSearchQuery_lower _ _ E) Hnq
              q i r' Er) as [Hm|(key & Hk & term & Ht & Hs & Hf)];
    [left; exact Hm|right].
  exists key, term. rewrite Hx. repeat (split; [assumption|]). exact Hf.
Qed.

Lemma search_spans_mark_an_expanded_term_witness :
  exists terms,
    expandSearchQuery (normalize "Proxy") = Normal terms
    /\ In (normalize "Proxy") terms.
Proof.
  destruct (search_spans_mark_an_expanded_term Item FuzzySearch.default id
              [nginxProxyManager] "Proxy" _ eq_refl
              ltac:(intros x key [<-|[]] [<-|[<-|[<-|[]]]]; reflexivity)
              ltac:(simpl; lia)
              ltac:(vm_compute; reflexivity)) as (terms & H1 & H2 & _).
  exists terms. split; assumption.
Defined.

(** ** Highlighting *)

Lemma substring_length (t : string) :
  forall n m,
    String.length (substring n m t) = Nat.min m (String.length t - n).
Proof.
  induction t as [|c t IH]; intros n m.
  - destruct n, m; reflexivity.
  - destruct n as [|n]; [|simpl; apply IH].
    destruct m as [|m]; [reflexivity|]. simpl. rewrite IH. lia.
Qed.

Lemma slice_length (t : string) (s e : nat) :
  s <= e -> e <= String.length t -> String.length (slice t s e) = e - s.
Proof. intros H1 H2. unfold slice. rewrite substring_length. lia. Qed.

Lemma Subsequence_refl (s : string) : Subsequence s s.
Proof. induction s; auto with search. Qed.

Lemma Subsequence_skip_l (b c d : string) :
  Subsequence c d -> Subsequence c (b ++ d).
Proof. intros H. induction b; simpl; auto with search. Qed.

Lemma Subsequence_app (a b c d : string) :
  Subsequence a b -> Subsequence c d -> Subsequence (a ++ c) (b ++ d).
Proof.
  induction 1; intros Hc; simpl; auto with search.
  apply Subsequence_skip_l, Hc.
Qed.

Lemma Subsequence_skip_r (a b d : string) :
  Subsequence a b -> Subsequence a (b ++ d).
Proof.
  intros H. rewrite <- (append_nil_r a). apply Subsequence_app; [exact H|].
  constructor.
Qed.

Lemma Within_prefix (a b : string) : Within a (a ++ b).
Proof. exists "", b. reflexivity. Qed.

Lemma Within_suffix (a b : string) : Within b (a ++ b).
Proof. exists a, "". rewrite append_nil_r. reflexivity. Qed.

Section Highlight.
Variables text highlightClass : string.

(** What the loop of [highlightMatches] appends for a span. *)
Lemma highlight_loop_length (ms : list Match) :
  forall result lastIndex,
    chain 0 lastIndex ms (String.length text) ->
    let '(result', lastIndex') :=
      fold_left
        (fun '(result, lastIndex) m =>
           ((result ++ slice text lastIndex (start m)
              ++ "<mark class=" ++ dquote ++ highlightClass ++ dquote ++ ">"
              ++ slice text (start m) (end_ m) ++ "</mark>")%string,
            end_ m))
        ms (result, lastIndex) in
    String.length (result' ++ sliceFrom text lastIndex')
    = String.length result + (String.length text - lastIndex)
      + List.length ms * (22 + String.length highlightClass).
Proof.
  induction ms as [|m ms IH]; intros result lastIndex Hc; simpl.
  - rewrite length_append. unfold sliceFrom. rewrite substring_length. lia.
  - destruct Hc as (H1 & H2 & H3). pose proof (chain_le _ _ _ _ H3) as Hn.
    specialize (IH (result ++ slice text lastIndex (start m)
                      ++ "<mark class=" ++ dquote ++ highlightClass ++ dquote
                      ++ ">" ++ slice text (start m) (end_ m) ++ "</mark>")%string
                   (end_ m) H3).
    destruct (fold_left _ ms _) as [result' lastIndex'].
    rewrite IH. repeat rewrite length_append.
    rewrite !slice_length by lia. simpl. lia.
Qed.

Lemma highlight_loop_keeps_text (ms : list Match) :
  forall pre result lastIndex,
    chain 0 lastIndex ms (String.length text) ->
    Subsequence pre result ->
    let '(result', lastIndex') :=
      fold_left
        (fun '(result, lastIndex) m =>
           ((result ++ slice text lastIndex (start m)
              ++ "<mark class=" ++ dquote ++ highlightClass ++ dquote ++ ">"
              ++ slice text (start m) (end_ m) ++ "</mark>")%string,
            end_ m))
        ms (result, lastIndex) in
    Subsequence (pre ++ sliceFrom text lastIndex)
                (result' ++ sliceFrom text lastIndex').
Proof.
  induction ms as [|m ms IH]; intros pre result lastIndex Hc Hp; simpl.
  - apply Subsequence_app; [exact Hp|apply Subsequence_refl].
  - destruct Hc as (H1 & H2 & H3). pose proof (chain_le _ _ _ _ H3) as Hn.
    specialize (IH (pre ++ slice text lastIndex (start m)
                      ++ slice text (start m) (end_ m))%string
                   (result ++ slice text lastIndex (start m)
                      ++ "<mark class=" ++ dquote ++ highlightClass ++ dquote
                      ++ ">" ++ slice text (start m) (end_ m) ++ "</mark>")%string
                   (end_ m) H3).
    destruct (fold_left _ ms _) as [result' lastIndex'].
    assert (E : (pre ++ sliceFrom text lastIndex)%string
                = ((pre ++ slice text lastIndex (start m)
                      ++ slice text (start m) (end_ m))
                   ++ sliceFrom text (end_ m))%string).
    { change (sliceFrom text lastIndex)
        with (slice text lastIndex (String.length text)).
      change (sliceFrom text (end_ m))
        with (slice text (end_ m) (String.length text)).
      rewrite !append_assoc.
      rewrite (slice_split text (start m) (end_ m)) by lia.
      rewrite (slice_split text lastIndex (start m)) by lia. reflexivity. }
    rewrite E. apply IH.
    apply Subsequence_app; [exact Hp|].
    apply Subsequence_app; [apply Subsequence_refl|].
    apply Subsequence_skip_l. apply Subsequence_skip_l.
    apply Subsequence_skip_l. apply Subsequence_skip_l.
    apply Subsequence_skip_l. apply Subsequence_skip_r, Subsequence_refl.
Qed.

Lemma highlight_loop_wraps (ms : list Match) :
  forall result lastIndex,
    let '(result', _) :=
      fold_left
        (fun '(result, lastIndex) m =>
           ((result ++ slice text lastIndex (start m)
              ++ "<mark class=" ++ dquote ++ highlightClass ++ dquote ++ ">"
              ++ slice text (start m) (end_ m) ++ "</mark>")%string,
            end_ m))
        ms (result, lastIndex) in
    Within result result'
    /\ forall m,
         In m ms ->
         Within ("<mark class=" ++ dquote ++ highlightClass ++ dquote ++ ">"
                 ++ slice text (start m) (end_ m) ++ "</mark>")
                result'.
Proof.
  induction ms as [|m ms IH]; intros result lastIndex; simpl.
  - split; [apply Within_refl|intros m []].
  - specialize (IH (result ++ slice text lastIndex (start m)
                      ++ "<mark class=" ++ dquote ++ highlightClass ++ dquote
                      ++ ">" ++ slice text (start m) (end_ m) ++ "</mark>")%string
                   (end_ m)).
    destruct (fold_left _ ms _) as [result' lastIndex'].
    destruct IH as [Hw Hin]. split.
    + eapply Within_trans; [|exact Hw]. apply Within_prefix.
    + intros m' [<-|Hm]; [|apply Hin, Hm].
      eapply Within_trans; [|exact Hw].
      eapply Within_trans; [|apply Within_suffix]. apply Within_suffix.
Qed.
End Highlight.

(** X13.  [highlightMatches] wraps the text of every span in a [mark]
    element of the given class.  When the spans come in order within the
    text, as [fuzzyMatch] returns them, it only inserts markup: the
    result is longer than the text by the length of one pair of tags for
    each span, and the text is still read in it from left to right. *)
Theorem highlightMatches_only_inserts_marks :
  forall (text highlightClass : string) (matches : list Match),
    (forall m,
        In m matches ->
        Within ("<mark class=" ++ dquote ++ highlightClass ++ dquote ++ ">"
                ++ slice text (start m) (end_ m) ++ "</mark>")
               (highlightMatches text matches highlightClass))
    /\ (chain 0 0 matches (String.length text) ->
        String.length (highlightMatches text matches highlightClass)
        = String.length text
          + List.length matches * (22 + String.length highlightClass)
        /\ Subsequence text (highlightMatches text matches highlightClass)).
Proof.
  intros text highlightClass matches. split.
  - intros m Hm. unfold highlightMatches.
    destruct matches as [|m0 ms]; [destruct Hm|].
    set (sorted := arraySort _ (m0 :: ms)).
    assert (Hs : In m sorted) by (apply arraySort_In; exact Hm).
    pose proof (highlight_loop_wraps text highlightClass sorted "" 0) as H.
    destruct (fold_left _ sorted _) as [result' lastIndex'].
    destruct H as [_ H]. eapply Within_trans; [apply H, Hs|].
    apply Within_prefix.
  - intros Hc. unfold highlightMatches.
    destruct matches as [|m0 ms]; [simpl; split; [lia|apply Subsequence_refl]|].
    rewrite arraySort_sorted_id.
    + pose proof (highlight_loop_length text highlightClass (m0 :: ms) "" 0 Hc)
        as Hl.
      pose proof (highlight_loop_keeps_text text highlightClass (m0 :: ms)
                    "" "" 0 Hc (sub_empty "")) as Hk.
      destruct (fold_left _ (m0 :: ms) _) as [result' lastIndex'].
      split.
      * rewrite Hl. simpl String.length. lia.
      * change (sliceFrom text 0) with (substring 0 (String.length text - 0) text)
          in Hk.
        rewrite Nat.sub_0_r, substring_all in Hk. exact Hk.
    + destruct (chain_spans _ _ _ _ Hc) as [Hf Hs].
      assert (Hin : forall l,
                 Forall (fun m => 0 <= start m /\ start m + 0 <= end_ m
                                  /\ end_ m <= String.length text) l ->
                 StronglySorted (fun a b => end_ a <= start b) l ->
                 StronglySorted
                   (fun a b => (QofNat (start a) - QofNat (start b) <= 0)%Q) l).
      { induction l as [|a l IH]; intros Hfa Hsa; constructor.
        - apply IH; [inversion Hfa; assumption|inversion Hsa; assumption].
        - inversion Hfa as [|? ? Ha _]. inversion Hsa as [|? ? _ Hall].
          subst. eapply Forall_impl; [|exact Hall]. simpl. intros b Hb.
          assert (Hle : start a <= start b) by lia.
          apply QofNat_le in Hle. lra. }
      apply Hin; assumption.
Qed.

Lemma highlightMatches_only_inserts_marks_witness :
  String.length
    (highlightMatches "nginx"
       (MatchResult.matches (fuzzyMatch FuzzySearch.default "ngx" "nginx"))
       "hit")
  = 5 + 2 * 25.
Proof.
  apply (highlightMatches_only_inserts_marks "nginx" "hit"
           (MatchResult.matches (fuzzyMatch FuzzySearch.default "ngx" "nginx"))).
  vm_compute. lia.
Defined.

(** ** The index *)

Lemma splitSpaces_not_nil (s : string) : splitSpaces s <> [].
Proof.
  induction s as [|c s IH]; simpl; [discriminate|].
  destruct (isSpace c).
  - destruct s as [|d s']; [discriminate|].
    destruct (isSpace d); [exact IH|discriminate].
  - destruct (splitSpaces s); discriminate.
Qed.

Lemma Within_cons (c : ascii) (w s : string) :
  Within w s -> Within w (String c s).
Proof. intros (pre & post & ->). exists (String c pre), post. reflexivity. Qed.

Lemma Within_empty (s : string) : Within "" s.
Proof. exists "", s. reflexivity. Qed.

(** The pieces of [split(/\s+/)]: each is free of whitespace and occurs in
    the string, the first one at its start. *)
Lemma splitSpaces_pieces (s : string) :
  (forall w, In w (splitSpaces s) -> noSpace w = true /\ Within w s)
  /\ exists post, s = (hd "" (splitSpaces s) ++ post)%string.
Proof.
  induction s as [|c s IH].
  - split; [|exists ""; reflexivity].
    intros w [<-|[]]. split; [reflexivity|apply Within_refl].
  - destruct IH as [IHw [post Hpost]]. cbn [splitSpaces].
    destruct (isSpace c) eqn:Ec.
    + assert (Hall : forall w,
                 In w ("" :: splitSpaces s) ->
                 noSpace w = true /\ Within w (String c s)).
      { intros w [<-|Hw]; [split; [reflexivity|apply Within_empty]|].
        destruct (IHw w Hw) as [H1 H2]. split; [exact H1|].
        apply Within_cons, H2. }
      destruct s as [|d s'].
      * split; [exact Hall|]. exists (String c ""). reflexivity.
      * destruct (isSpace d) eqn:Ed.
        -- split; [|pose proof (splitSpaces_not_nil (String d s')) as Hn;
                    destruct (splitSpaces (String d s')) as [|w0 ws];
                    [contradiction|]].
           ++ intros w Hw. apply Hall. right. exact Hw.
           ++ simpl. assert (Hw0 : In w0 (w0 :: ws)) by (left; reflexivity).
              destruct (IHw w0 Hw0) as [_ Hin]. simpl in Hpost.
              destruct w0 as [|a w0'].
              ** exists (String c (String d s')). reflexivity.
              ** exfalso. injection Hpost as Ha _.
                 destruct (IHw _ Hw0) as [Hns _]. simpl in Hns.
                 rewrite <- Ha, Ed in Hns. discriminate.
        -- split; [exact Hall|]. exists (String c (String d s')). reflexivity.
    + destruct (splitSpaces s) as [|w0 ws] eqn:Es;
        [contradiction (splitSpaces_not_nil s)|].
      simpl in Hpost. split.
      * intros w [<-|Hw].
        -- destruct (IHw w0 (or_introl eq_refl)) as [H1 _].
           split; [simpl; rewrite Ec, H1; reflexivity|].
           exists "", post. simpl. rewrite Hpost. reflexivity.
        -- destruct (IHw w (or_intror Hw)) as [H1 H2].
           split; [exact H1|apply Within_cons, H2].
      * exists post. simpl. rewrite Hpost. reflexivity.
Qed.

(** X14.  [createIndex] keeps the entries and their order and numbers
    them from 0.  The search text of an entry is lower-case and contains
    the lower-cased value of every configured key that has one; its
    words have at least two characters, hold no whitespace and occur in
    the search text. *)
Theorem createIndex_words_come_from_values :
  forall (this : FuzzySearch.t) (items : list Item),
    map base (createIndex this items) = items
    /\ map _originalIndex (createIndex this items)
       = seq 0 (List.length items)
    /\ Forall
         (fun e =>
            noUpper (_searchText e) = true
            /\ (forall key,
                   In key (keys this) -> getValue (base e) key <> "" ->
                   Within (toLowerCase (getValue (base e) key))
                          (_searchText e))
            /\ Forall (fun word => 1 < String.length word
                                   /\ noSpace word = true
                                   /\ Within word (_searchText e))
                      (_searchWords e))
         (createIndex this items).
Proof.
  intros this items. unfold createIndex. split; [|split].
  - rewrite map_map. rewrite <- (entries_snd items) at 2.
    apply map_ext. intros [i x]. reflexivity.
  - rewrite map_map. rewrite <- entries_fst.
    apply map_ext. intros [i x]. reflexivity.
  - apply Forall_forall. intros e He. apply in_map_iff in He.
    destruct He as [[i x] [<- _]].
    cbn [_searchText _searchWords base]. split; [apply noUpper_toLowerCase|].
    split.
    + intros key Hk Hv. apply Within_toLowerCase, Within_join.
      apply filter_In. split; [apply in_map, Hk|].
      destruct (String.eqb_spec (getValue x key) ""); [contradiction|].
      reflexivity.
    + apply Forall_forall. intros w Hw. apply filter_In in Hw.
      destruct Hw as [Hw Hl]. apply Nat.ltb_lt in Hl.
      destruct (splitSpaces_pieces
                  (toLowerCase
                     (join (filter (fun v => negb (v =? "")%string)
                                   (map (getValue x) (keys this))))))
        as [Hp _].
      destruct (Hp w Hw) as [H1 H2]. split; [exact Hl|]. split; assumption.
Qed.

Lemma createIndex_words_come_from_values_witness :
  Forall (fun e => Within (toLowerCase (getValue (base e) "name"))
                          (_searchText e))
         (createIndex FuzzySearch.default [caddy]).
Proof.
  destruct (createIndex_words_come_from_values FuzzySearch.default [caddy])
    as (_ & _ & H).
  apply Forall_forall. intros e He. rewrite Forall_forall in H.
  destruct (H e He) as (_ & Hk & _). apply Hk; [left; reflexivity|].
  vm_compute in He. destruct He as [<-|[]]. discriminate.
Defined.

(** ** Search over the index *)

Lemma search_single {T : Type} (this : FuzzySearch.t) (view : T -> Item)
    (e : T) (q : string) (terms : list string) :
  2 <= String.length q ->
  expandSearchQuery (normalize q) = Normal terms ->
  search this view [e] (Some q)
  = Normal match scoreItem this view q (normalize q) terms 0 e with
           | Some r => [r]
           | None => []
           end.
Proof.
  intros Hl E. rewrite search_long by assumption. rewrite E. unfold bind.
  f_equal. unfold entries. simpl.
  destruct (scoreItem this view q (normalize q) terms 0 e); reflexivity.
Qed.

Lemma search_single_throws {T : Type} (this : FuzzySearch.t) (view : T -> Item)
    (e : T) (q : string) (err : JsError) :
  2 <= String.length q ->
  expandSearchQuery (normalize q) = Throw err ->
  search this view [e] (Some q) = Throw err.
Proof.
  intros Hl E. rewrite search_long by assumption. rewrite E. reflexivity.
Qed.

Lemma sharesWord_filter (nq : string) (e : Indexed) :
  negb (existsb (fun word => includes word nq || includes nq word)
                (_searchWords e))
  && (3 <? String.length nq) = false
  <-> sharesWord nq e.
Proof.
  unfold sharesWord. rewrite andb_false_iff, negb_false_iff, Nat.ltb_ge.
  rewrite existsb_exists. split.
  - intros [(w & Hw & Hr)|Hl]; [right|left; exact Hl].
    exists w. split; [exact Hw|]. apply orb_true_iff in Hr.
    destruct Hr as [Hr|Hr]; apply includes_iff in Hr; auto.
  - intros [Hl|(w & Hw & Hr)]; [right; exact Hl|left].
    exists w. split; [exact Hw|]. apply orb_true_iff.
    destruct Hr as [Hr|Hr]; apply includes_iff in Hr; auto.
Qed.

Lemma sharesWord_dec (nq : string) (e : Indexed) :
  sharesWord nq e \/ ~ sharesWord nq e.
Proof.
  destruct (negb (existsb (fun word => includes word nq || includes nq word)
                          (_searchWords e))
            && (3 <? String.length nq)) eqn:E.
  - right. intros H. apply sharesWord_filter in H. congruence.
  - left. apply sharesWord_filter, E.
Qed.

Section IndexLoop.
Variable this : FuzzySearch.t.
Variable q : string.
Hypothesis q_long : 2 <= String.length q.

Lemma searchIndex_long (indexedItems : list Indexed) :
  searchIndex this indexedItems (Some q)
  = (results <-
       forEachM
         (fun results item =>
            if negb (existsb (fun word => includes word (normalize q)
                                          || includes (normalize q) word)
                             (_searchWords item))
               && (3 <? String.length (normalize q))
            then Normal results
            else
              found <- search this base [item] (Some q) ;;
              match found with
              | result :: _ =>
                  if Qgeb (SearchResult.score result) (threshold this)
                  then Normal (results ++ [result])
                  else Normal results
              | [] => Normal results
              end)
         indexedItems [] ;;
     Normal (arraySort byScore results)).
Proof.
  unfold searchIndex, shorterThan.
  destruct (String.eqb_spec q "") as [E|_];
    [rewrite E in q_long; simpl in q_long; lia|].
  destruct (Nat.ltb_spec (String.length q) 2); [lia|]. reflexivity.
Qed.

Lemma index_loop_returns (terms : list string) (indexedItems : list Indexed) :
  expandSearchQuery (normalize q) = Normal terms ->
  forall acc,
    exists found,
      forEachM
        (fun results item =>
           if negb (existsb (fun word => includes word (normalize q)
                                         || includes (normalize q) word)
                            (_searchWords item))
              && (3 <? String.length (normalize q))
           then Normal results
           else
             found <- search this base [item] (Some q) ;;
             match found with
             | result :: _ =>
                 if Qgeb (SearchResult.score result) (threshold this)
                 then Normal (results ++ [result])
                 else Normal results
             | [] => Normal results
             end)
        indexedItems acc
      = Normal (acc ++ found)
      /\ forall r,
           In r found <->
           exists e,
             In e indexedItems /\ sharesWord (normalize q) e
             /\ search this base [e] (Some q) = Normal [r].
Proof.
  intros E. induction indexedItems as [|e l IH]; intros acc.
  - exists []. rewrite app_nil_r. split; [reflexivity|].
    intros r. split; [intros []|intros (e & [] & _)].
  - cbn [forEachM].
    pose proof (search_single this base e q terms q_long E) as Hs.
    destruct (negb _ && _) eqn:Ef.
    + unfold bind at 1. destruct (IH acc) as (found & Hf & Hin).
      exists found. split; [exact Hf|]. intros r. rewrite Hin. split.
      * intros (e' & He' & H). exists e'. split; [right; exact He'|exact H].
      * intros (e' & [<-|He'] & Hw & H); [|exists e'; auto].
        apply sharesWord_filter in Hw. congruence.
    + apply sharesWord_filter in Ef. rewrite Hs. unfold bind at 2.
      destruct (scoreItem this base q (normalize q) terms 0 e) as [r0|] eqn:Er.
      * assert (Hge : Qgeb (SearchResult.score r0) (threshold this) = true).
        { destruct (scoreItem_fields _ _ _ _ _ _ _ _ Er)
            as (ks & fs & k & _ & _ & _ & _ & _ & _ & _ & _ & Hth & _).
          apply Qgeb_true. exact Hth. }
        rewrite Hge. unfold bind at 1.
        destruct (IH (acc ++ [r0])) as (found & Hf & Hin).
        exists (r0 :: found). rewrite <- app_assoc in Hf. split; [exact Hf|].
        intros r. cbn [In]. rewrite Hin. split.
        -- intros [<-|(e' & He' & H)]; [exists e; auto|].
           exists e'. split; [right; exact He'|exact H].
        -- intros (e' & [<-|He'] & Hw & H); [|right; exists e'; auto].
           rewrite Hs in H. injection H as ->. left. reflexivity.
      * unfold bind at 1. destruct (IH acc) as (found & Hf & Hin).
        exists found. split; [exact Hf|]. intros r. rewrite Hin. split.
        -- intros (e' & He' & H). exists e'. split; [right; exact He'|exact H].
        -- intros (e' & [<-|He'] & Hw & H); [|exists e'; auto].
           rewrite Hs in H. discriminate.
Qed.

Lemma index_loop_throws (err : JsError) (indexedItems : list Indexed) :
  expandSearchQuery (normalize q) = Throw err ->
  forall acc,
    (Exists (sharesWord (normalize q)) indexedItems
     /\ forEachM
          (fun results item =>
             if negb (existsb (fun word => includes word (normalize q)
                                           || includes (normalize q) word)
                              (_searchWords item))
                && (3 <? String.length (normalize q))
             then Normal results
             else
               found <- search this base [item] (Some q) ;;
               match found with
               | result :: _ =>
                   if Qgeb (SearchResult.score result) (threshold this)
                   then Normal (results ++ [result])
                   else Normal results
               | [] => Normal results
               end)
          indexedItems acc
        = Throw err)
    \/ (~ Exists (sharesWord (normalize q)) indexedItems
        /\ forEachM
             (fun results item =>
                if negb (existsb (fun word => includes word (normalize q)
                                              || includes (normalize q) word)
                                 (_searchWords item))
                   && (3 <? String.length (normalize q))
                then Normal results
                else
                  found <- search this base [item] (Some q) ;;
                  match found with
                  | result :: _ =>
                      if Qgeb (SearchResult.score result) (threshold this)
                      then Normal (results ++ [result])
                      else Normal results
                  | [] => Normal results
                  end)
             indexedItems acc
           = Normal acc).
Proof.
  intros E. induction indexedItems as [|e l IH]; intros acc.
  - right. split; [intros H; inversion H|reflexivity].
  - cbn [forEachM].
    destruct (negb _ && _) eqn:Ef.
    + unfold bind at 1. destruct (IH acc) as [[Hex Hf]|[Hex Hf]].
      * left. split; [right; exact Hex|exact Hf].
      * right. split; [|exact Hf]. intros H. inversion H as [? ? Hw|? ? Hl]; subst.
        -- apply sharesWord_filter in Hw. congruence.
        -- contradiction.
    + left. split; [left; apply sharesWord_filter, Ef|].
      rewrite (search_single_throws this base e q err q_long E). reflexivity.
Qed.
End IndexLoop.

(** X15.  [searchIndex] agrees with [search] on the entries that its word
    filter lets through.  For a query of two characters or more on which
    it returns, its results are exactly the results that [search] gives
    for one indexed entry at a time, for the entries that pass the filter:
    the entries of the index when the normalized query has at most three
    characters, and otherwise those with a word that contains the
    normalized query or is contained in it. *)
Theorem searchIndex_agrees_with_search :
  forall (this : FuzzySearch.t) (indexedItems : list Indexed) (q : string)
         (rs : list (SearchResult.t Indexed)),
    2 <= String.length q ->
    searchIndex this indexedItems (Some q) = Normal rs ->
    forall r,
      In r rs <->
      exists e,
        In e indexedItems
        /\ sharesWord (normalize q) e
        /\ search this base [e] (Some q) = Normal [r].
Proof.
  intros this indexedItems q rs Hl. rewrite searchIndex_long by assumption.
  destruct (expandSearchQuery (normalize q)) as [terms|err] eqn:E.
  - destruct (index_loop_returns this q Hl terms indexedItems E [])
      as (found & -> & Hin).
    unfold bind. intros H. injection H as <-. intros r.
    rewrite arraySort_In. simpl. apply Hin.
  - destruct (index_loop_throws this q Hl err indexedItems E [])
      as [[Hex ->]|[Hex ->]]; [discriminate|].
    unfold bind. intros H. injection H as <-. intros r. simpl.
    split; [intros []|]. intros (e & He & Hw & _). contradiction Hex.
    apply Exists_exists. exists e. split; assumption.
Qed.

Lemma searchIndex_agrees_with_search_witness :
  exists r,
    search FuzzySearch.default base
      (createIndex FuzzySearch.default [caddy]) (Some "nginx")
    = Normal [r].
Proof.
  destruct (searchIndex FuzzySearch.default
              (createIndex FuzzySearch.default [caddy]) (Some "nginx"))
    as [rs|] eqn:E; [|vm_compute in E; discriminate].
  assert (Hr : exists r, In r rs)
    by (vm_compute in E; injection E as <-; eexists; left; reflexivity).
  destruct Hr as [r Hr].
  apply (searchIndex_agrees_with_search FuzzySearch.default _ "nginx" rs
           ltac:(simpl; lia) E r) in Hr.
  destruct Hr as (e & He & _ & Hs).
  vm_compute in He. destruct He as [<-|[]].
  exists r. exact Hs.
Defined.

(** X16.  For a query of two characters or more, [searchIndex] throws a
    [TypeError] exactly when the normalized query is [constructor] or
    [__proto__] and some indexed entry has a word that contains the
    normalized query or is contained in it; otherwise it returns. *)
Theorem searchIndex_throws_behind_the_filter :
  forall (this : FuzzySearch.t) (indexedItems : list Indexed) (q : string),
    2 <= String.length q ->
    (searchIndex this indexedItems (Some q) = Throw TypeError
     <-> (normalize q = "constructor" \/ normalize q = "__proto__")
         /\ exists e word,
              In e indexedItems /\ In word (_searchWords e)
              /\ (Within (normalize q) word \/ Within word (normalize q)))
    /\ (searchIndex this indexedItems (Some q) <> Throw TypeError ->
        exists rs, searchIndex this indexedItems (Some q) = Normal rs).
Proof.
  intros this indexedItems q Hl. rewrite searchIndex_long by assumption.
  assert (Hproto : normalize q = "constructor" \/ normalize q = "__proto__" ->
                   expandSearchQuery (normalize q) = Throw TypeError
                   /\ 3 < String.length (normalize q)).
  { intros H. split.
    - apply expandSearchQuery_throws, expandSearchQuery_inherited.
      rewrite normalize_idempotent. exact H.
    - destruct H as [-> | ->]; simpl; lia. }
  destruct (expandSearchQuery (normalize q)) as [terms|err] eqn:E.
  - destruct (index_loop_returns this q Hl terms indexedItems E [])
      as (found & -> & _).
    unfold bind. split.
    + split; [discriminate|]. intros [H _]. apply Hproto in H.
      destruct H as [H _]. discriminate.
    + intros _. eexists. reflexivity.
  - destruct err.
    assert (Hn : normalize q = "constructor" \/ normalize q = "__proto__").
    { destruct (String.string_dec (normalize q) "constructor") as [|H1];
        [left; assumption|].
      destruct (String.string_dec (normalize q) "__proto__") as [|H2];
        [right; assumption|].
      destruct (search_terms q H1 H2) as [rest Hr]. congruence. }
    destruct (Hproto Hn) as [_ Hlen].
    destruct (index_loop_throws this q Hl TypeError indexedItems E [])
      as [[Hex ->]|[Hex ->]]; unfold bind.
    + split; [|intros H; contradiction H; reflexivity].
      split; [|reflexivity]. intros _. split; [exact Hn|].
      apply Exists_exists in Hex. destruct Hex as (e & He & [Hs|(w & Hw & Hr)]);
        [lia|].
      exists e, w. auto.
    + split; [|intros _; eexists; reflexivity].
      split; [discriminate|]. intros (_ & e & w & He & Hw & Hr).
      contradiction Hex. apply Exists_exists. exists e. split; [exact He|].
      right. exists w. auto.
Qed.

Lemma searchIndex_throws_behind_the_filter_witness :
  searchIndex FuzzySearch.default
    (createIndex FuzzySearch.default [caddy]) (Some "constructor")
  = Throw TypeError.
Proof.
  apply (searchIndex_throws_behind_the_filter FuzzySearch.default
           (createIndex FuzzySearch.default [caddy]) "constructor").
  - simpl. lia.
  - split; [left; reflexivity|].
    eexists. exists "to". split; [left; reflexivity|].
    split; [vm_compute; tauto|].
    right. exists "construc", "r". reflexivity.
Defined.

(** ** The session *)

Lemma searchIndex_items (this : FuzzySearch.t) (indexedItems : list Indexed)
    (query : option string) (rs : list (SearchResult.t Indexed)) :
  searchIndex this indexedItems query = Normal rs ->
  forall r, In r rs -> In (SearchResult.item r) indexedItems.
Proof.
  assert (Hshort :
            forall r,
              In r (map (fun item =>
                           SearchResult.mk item 0%Q [] None None None None)
                        indexedItems) ->
              In (SearchResult.item r) indexedItems).
  { intros r Hr. apply in_map_iff in Hr. destruct Hr as [e [<- He]]. exact He. }
  destruct query as [q|];
    [|unfold searchIndex; intros H; injection H as <-; exact Hshort].
  destruct (shorterThan 2 (Some q)) eqn:Es.
  - unfold searchIndex. rewrite Es. intros H. injection H as <-. exact Hshort.
  - assert (Hl : 2 <= String.length q).
    { unfold shorterThan in Es. apply orb_false_iff in Es.
      destruct Es as [_ Es]. apply Nat.ltb_ge in Es. exact Es. }
    intros H r Hr.
    destruct (searchIndex this indexedItems (Some q)) as [rs'|] eqn:E;
      [|discriminate].
    injection H as ->.
    assert (Hx : exists e,
               In e indexedItems /\ sharesWord (normalize q) e
               /\ search this base [e] (Some q) = Normal [r]).
    { revert r Hr. rewrite searchIndex_long in E by assumption.
      destruct (expandSearchQuery (normalize q)) as [terms|err] eqn:Ex.
      - destruct (index_loop_returns this q Hl terms indexedItems Ex [])
          as (found & Hf & Hin).
        rewrite Hf in E. unfold bind in E. injection E as <-. intros r Hr.
        apply arraySort_In in Hr. exact (proj1 (Hin r) Hr).
      - destruct (index_loop_throws this q Hl err indexedItems Ex [])
          as [[_ Hf]|[_ Hf]]; rewrite Hf in E; [discriminate|].
        unfold bind in E. injection E as <-. intros r []. }
    destruct Hx as (e & He & _ & Hs).
    destruct (expandSearchQuery (normalize q)) as [terms|err] eqn:Ex.
    + rewrite (search_single this base e q terms Hl Ex) in Hs.
      destruct (scoreItem this base q (normalize q) terms 0 e) as [r0|] eqn:Er;
        [|discriminate].
      injection Hs as ->. apply scoreItem_refIndex in Er.
      destruct Er as [_ ->]. exact He.
    + rewrite (search_single_throws this base e q err Hl Ex) in Hs.
      discriminate.
Qed.

(** X17.  [SearchManager.search] records the query and clears the
    selection on every call, also on one that throws, and changes nothing
    else of the session.  When it returns, it returns at most
    [maxResults] results, each an entry of the index of the session. *)
Theorem manager_search_bounded :
  forall (this : SearchManager.t) (query : option string),
    SearchManager.currentQuery (fst (SearchManager.search this query)) = query
    /\ SearchManager.selectedIndex (fst (SearchManager.search this query))
       = (-1)%Z
    /\ SearchManager.withSelectedIndex
         (fst (SearchManager.search this query))
         (SearchManager.selectedIndex this)
       = SearchManager.mk
           (SearchManager.fuzzySearch this) (SearchManager.maxResults this)
           (SearchManager.minQueryLength this) (SearchManager.searchData this)
           (SearchManager.searchIndex this) query
           (SearchManager.selectedIndex this)
    /\ forall fs,
         snd (SearchManager.search this query) = Normal fs ->
         List.length fs <= SearchManager.maxResults this
         /\ Forall (fun f => In (SearchManager.entry f)
                                (SearchManager.searchIndex this)) fs.
Proof.
  intros this query. unfold SearchManager.search, SearchManager.searchWith.
  cbn [SearchManager.minQueryLength SearchManager.fuzzySearch
       SearchManager.searchIndex SearchManager.maxResults].
  destruct (shorterThan (SearchManager.minQueryLength this) query).
  - cbn [fst snd]. repeat (split; [reflexivity|]).
    intros fs H. injection H as <-. split; [simpl; lia|constructor].
  - cbn [fst snd]. repeat (split; [reflexivity|]).
    intros fs.
    destruct (searchIndex (SearchManager.fuzzySearch this)
                (SearchManager.searchIndex this) query) as [rs|e] eqn:E;
      [|discriminate].
    unfold bind. intros H. injection H as <-. split.
    + rewrite length_map. apply firstn_length_le.
    + apply Forall_forall. intros f Hf. apply in_map_iff in Hf.
      destruct Hf as [r [<- Hr]]. apply firstn_In in Hr.
      apply (searchIndex_items _ _ _ _ E r Hr).
Qed.

Lemma manager_search_bounded_witness :
  exists fs,
    snd (SearchManager.search
           (SearchManager.setData SearchManager.default [nginx; caddy])
           (Some "nginx"))
    = Normal fs
    /\ List.length fs <= 8.
Proof.
  eexists. split.
  - vm_compute. reflexivity.
  - apply (manager_search_bounded
             (SearchManager.setData SearchManager.default [nginx; caddy])
             (Some "nginx")).
    vm_compute. reflexivity.
Defined.

Lemma manager_arrow_down_once {R : Type} (this : SearchManager.t)
    (results : list R) :
  SearchManager.selectedIndex
    (fst (SearchManager.handleKeyDown this "ArrowDown" results))
  = Z.min (SearchManager.selectedIndex this + 1)
          (Z.of_nat (List.length results) - 1).
Proof. reflexivity. Qed.

(** X18.  Key presses of [SearchManager.handleKeyDown] keep the selection
    between -1 and the last result and change nothing else of the
    session.  From a cleared selection, [k] presses of [ArrowDown] select
    result [min k n - 1] of [n].  [Enter] hands a result to [onSelect]
    exactly when one is selected, and then the selected one. *)
Theorem manager_selection_stays_in_range :
  forall (R : Type) (this : SearchManager.t) (results : list R),
    (-1 <= SearchManager.selectedIndex this
     <= Z.of_nat (List.length results) - 1)%Z ->
    (forall key,
        let this' := fst (SearchManager.handleKeyDown this key results) in
        (-1 <= SearchManager.selectedIndex this'
         <= Z.of_nat (List.length results) - 1)%Z
        /\ this' = SearchManager.withSelectedIndex this
                     (SearchManager.selectedIndex this'))
    /\ (forall k,
           SearchManager.selectedIndex
             (Nat.iter k
                (fun s => fst (SearchManager.handleKeyDown s "ArrowDown" results))
                (SearchManager.withSelectedIndex this (-1)))
           = (Z.of_nat (Nat.min k (List.length results)) - 1)%Z)
    /\ (forall r,
           In (SearchManager.Select r)
              (snd (SearchManager.handleKeyDown this "Enter" results))
           <-> (0 <= SearchManager.selectedIndex this)%Z
               /\ nth_error results
                    (Z.to_nat (SearchManager.selectedIndex this)) = Some r)
    /\ ((0 <= SearchManager.selectedIndex this)%Z ->
        exists r,
          SearchManager.handleKeyDown this "Enter" results
          = (this, [SearchManager.PreventDefault; SearchManager.Select r])).
Proof.
  intros R this results Hinv. split; [|split; [|split]].
  - intros key. unfold SearchManager.handleKeyDown.
    destruct this as [fz mx mn sd si cq sel]. cbn [SearchManager.selectedIndex] in *.
    destruct (key =? "ArrowDown")%string;
      [cbn; split; [lia|reflexivity]|].
    destruct (key =? "ArrowUp")%string;
      [cbn; split; [lia|reflexivity]|].
    destruct (key =? "Enter")%string;
      [cbn; split; [lia|reflexivity]|].
    destruct (key =? "Escape")%string;
      cbn; split; (lia || reflexivity).
  - intros k. induction k as [|k IH].
    + simpl. lia.
    + rewrite Nat.iter_succ, manager_arrow_down_once, IH. lia.
  - intros r. unfold SearchManager.handleKeyDown. simpl String.eqb.
    cbv iota. unfold SearchManager.at_. cbn [snd].
    destruct (Z.leb_spec 0 (SearchManager.selectedIndex this)) as [H0|H0].
    + destruct (Z.ltb_spec (SearchManager.selectedIndex this) 0) as [H1|H1];
        [lia|].
      destruct (nth_error results (Z.to_nat (SearchManager.selectedIndex this)))
        as [r0|].
      * split.
        -- intros [Hr|[Hr|[]]]; [discriminate|]. injection Hr as ->.
           split; [lia|reflexivity].
        -- intros [_ Hr]. injection Hr as ->. right. left. reflexivity.
      * split.
        -- intros [Hr|[]]. discriminate.
        -- intros [_ Hr]. discriminate.
    + split.
      * intros [Hr|[]]. discriminate.
      * intros [Hr _]. lia.
  - intros H0. unfold SearchManager.handleKeyDown. simpl String.eqb.
    cbv iota. unfold SearchManager.at_.
    destruct (Z.leb_spec 0 (SearchManager.selectedIndex this)) as [H1|H1];
      [|lia].
    destruct (Z.ltb_spec (SearchManager.selectedIndex this) 0) as [H2|H2];
      [lia|].
    destruct (nth_error results (Z.to_nat (SearchManager.selectedIndex this)))
      as [r0|] eqn:E.
    + exists r0. reflexivity.
    + apply nth_error_None in E. lia.
Qed.

Lemma manager_selection_stays_in_range_witness :
  SearchManager.selectedIndex
    (Nat.iter 5
       (fun s => fst (SearchManager.handleKeyDown s "ArrowDown" [nginx; caddy]))
       (SearchManager.withSelectedIndex SearchManager.default (-1)))
  = 1%Z.
Proof.
  apply (manager_selection_stays_in_range Item SearchManager.default
           [nginx; caddy] ltac:(simpl; lia)).
Defined.

(** ** Keys of the search box *)

(** X19.  [handleKeyDown] of the search box does nothing while the box is
    closed or has no results.  No key changes the results, and the
    selection stays between -1 and the last result.  [Enter] on a
    selected result navigates to [/category/slug/] of that result and
    closes the box, clearing the query and the selection; no other key
    press navigates. *)
Theorem box_enter_opens_selected_guide :
  forall (s : SearchBox.State) (key : string),
    (SearchBox.isOpen s = false \/ SearchBox.results s = [] ->
     SearchBox.handleKeyDown s key = (s, []))
    /\ SearchBox.results (fst (SearchBox.handleKeyDown s key))
       = SearchBox.results s
    /\ ((-1 <= SearchBox.selectedIndex s
         <= Z.of_nat (List.length (SearchBox.results s)) - 1)%Z ->
        (-1 <= SearchBox.selectedIndex (fst (SearchBox.handleKeyDown s key))
         <= Z.of_nat (List.length (SearchBox.results s)) - 1)%Z)
    /\ (forall r,
           SearchBox.isOpen s = true ->
           (0 <= SearchBox.selectedIndex s)%Z ->
           nth_error (SearchBox.results s)
                     (Z.to_nat (SearchBox.selectedIndex s)) = Some r ->
           SearchBox.handleKeyDown s "Enter"
           = (SearchBox.mkState "" (SearchBox.results s) false (-1)%Z
                (SearchBox.isLoading s) (SearchBox.searchError s),
              [SearchBox.PreventDefault;
               SearchBox.RouterPush
                 ("/" ++ category r ++ "/" ++ slug r ++ "/");
               SearchBox.Blur]))
    /\ (forall url,
           In (SearchBox.RouterPush url) (snd (SearchBox.handleKeyDown s key)) ->
           key = "Enter"
           /\ exists r,
                nth_error (SearchBox.results s)
                          (Z.to_nat (SearchBox.selectedIndex s)) = Some r
                /\ url = ("/" ++ category r ++ "/" ++ slug r ++ "/")%string).
Proof.
  intros s key. unfold SearchBox.handleKeyDown, SearchBox.handleClose,
    SearchBox.at_.
  destruct s as [q rs op sel ld er].
  cbn [SearchBox.isOpen SearchBox.results SearchBox.selectedIndex
       SearchBox.isLoading SearchBox.searchError SearchBox.query].
  split; [|split; [|split; [|split]]].
  - intros [-> | ->]; [reflexivity|].
    destruct op; reflexivity.
  - destruct (negb op || (List.length rs =? 0)); [reflexivity|].
    destruct (key =? "ArrowDown")%string; [reflexivity|].
    destruct (key =? "ArrowUp")%string; [reflexivity|].
    destruct (key =? "Enter")%string.
    + destruct (0 <=? sel)%Z; [|reflexivity].
      destruct (sel <? 0)%Z; [reflexivity|].
      destruct (nth_error rs (Z.to_nat sel)); reflexivity.
    + destruct (key =? "Escape")%string; reflexivity.
  - intros Hinv.
    destruct (negb op || (List.length rs =? 0)); [exact Hinv|].
    destruct (key =? "ArrowDown")%string; [cbn; lia|].
    destruct (key =? "ArrowUp")%string; [cbn; lia|].
    destruct (key =? "Enter")%string.
    + destruct (0 <=? sel)%Z; [|exact Hinv].
      destruct (sel <? 0)%Z; [exact Hinv|].
      destruct (nth_error rs (Z.to_nat sel)); [cbn; lia|exact Hinv].
    + destruct (key =? "Escape")%string; [cbn; lia|exact Hinv].
  - intros r -> H0 Hn.
    assert (Hne : (List.length rs =? 0) = false).
    { destruct rs; [destruct (Z.to_nat sel); discriminate|reflexivity]. }
    rewrite Hne. cbn [negb orb]. simpl String.eqb. cbv iota.
    destruct (Z.leb_spec 0 sel); [|lia].
    destruct (Z.ltb_spec sel 0); [lia|]. rewrite Hn. reflexivity.
  - intros url.
    destruct (negb op || (List.length rs =? 0)); [intros []|].
    destruct (key =? "ArrowDown")%string;
      [intros [H|[]]; discriminate|].
    destruct (key =? "ArrowUp")%string;
      [intros [H|[]]; discriminate|].
    destruct (String.eqb_spec key "Enter") as [->|_].
    + destruct (0 <=? sel)%Z; [|intros [H|[]]; discriminate].
      destruct (sel <? 0)%Z; [intros [H|[]]; discriminate|].
      destruct (nth_error rs (Z.to_nat sel)) as [r|];
        [|intros [H|[]]; discriminate].
      intros [H|[H|[H|[]]]]; try discriminate.
      injection H as <-. split; [reflexivity|]. exists r.
      split; reflexivity.
    + destruct (key =? "Escape")%string;
        [intros [H|[H|[]]]; discriminate|intros []].
Qed.

Lemma box_enter_opens_selected_guide_witness :
  snd (SearchBox.handleKeyDown
         (SearchBox.mkState "ng" [nginx; caddy] true 1%Z false None) "Enter")
  = [SearchBox.PreventDefault; SearchBox.RouterPush "/web-server/caddy/";
     SearchBox.Blur].
Proof.
  destruct (box_enter_opens_selected_guide
              (SearchBox.mkState "ng" [nginx; caddy] true 1%Z false None)
              "Enter") as (_ & _ & _ & H & _).
  rewrite (H caddy); [reflexivity|reflexivity|simpl; lia|reflexivity].
Defined.

(** ** Analytics *)

Lemma firstn_top {A : Type} (R : A -> A -> Prop) (x : A) (l : list A) :
  StronglySorted R l ->
  forall n,
    In x l -> ~ In x (firstn n l) ->
    List.length (firstn n l) = n /\ Forall (fun y => R y x) (firstn n l).
Proof.
  induction 1 as [|a l Hs IH Hf]; intros n Hin Hout; [destruct Hin|].
  destruct n as [|n]; [split; [reflexivity|constructor]|].
  simpl in Hout. destruct Hin as [->|Hin]; [contradiction Hout; left; reflexivity|].
  destruct (IH n Hin) as [Hl Hr]; [intros H; apply Hout; right; exact H|].
  simpl. split; [lia|]. constructor; [|exact Hr].
  rewrite Forall_forall in Hf. apply Hf, Hin.
Qed.

Lemma mapGet_mapSet (m : list (string * nat)) (k k' : string) (v : nat) :
  SearchAnalytics.mapGet (SearchAnalytics.mapSet m k v) k'
  = if (k' =? k)%string then Some v else SearchAnalytics.mapGet m k'.
Proof.
  induction m as [|[k0 v0] m IH]; simpl.
  - destruct (k' =? k)%string; reflexivity.
  - destruct (String.eqb_spec k k0) as [->|Hne]; simpl.
    + destruct (k' =? k0)%string; reflexivity.
    + destruct (String.eqb_spec k' k0) as [->|Hne'].
      * destruct (String.eqb_spec k0 k); [congruence|reflexivity].
      * exact IH.
Qed.

Lemma mapSet_keys (m : list (string * nat)) (k : string) (v : nat) :
  NoDup (map fst m) ->
  NoDup (map fst (SearchAnalytics.mapSet m k v))
  /\ forall k', In k' (map fst (SearchAnalytics.mapSet m k v))
                <-> k' = k \/ In k' (map fst m).
Proof.
  induction m as [|[k0 v0] m IH]; simpl; intros Hn.
  - split; [repeat constructor; intros []|]. intros k'. intuition.
  - inversion Hn as [|? ? Hk0 Hm]; subst.
    destruct (String.eqb_spec k k0) as [->|Hne]; simpl.
    + split; [exact Hn|]. intros k'. intuition.
    + destruct (IH Hm) as [Hnd Hin]. split.
      * constructor; [|exact Hnd]. rewrite Hin. intros [H|H]; [congruence|].
        contradiction.
      * intros k'. rewrite Hin. intuition.
Qed.

Lemma lastN_all {A : Type} (n : nat) (l : list A) :
  List.length l <= n -> SearchAnalytics.lastN n l = l.
Proof.
  intros H. unfold SearchAnalytics.lastN.
  replace (List.length l - n) with 0 by lia. reflexivity.
Qed.

Lemma lastN_snoc {A : Type} (n : nat) (l : list A) (x : A) :
  1 <= n ->
  SearchAnalytics.lastN n (SearchAnalytics.lastN n l ++ [x])
  = SearchAnalytics.lastN n (l ++ [x]).
Proof.
  intros Hn. unfold SearchAnalytics.lastN.
  rewrite !length_app, length_skipn. simpl.
  destruct (Nat.le_gt_cases (List.length l) n) as [Hl|Hl].
  - replace (List.length l - n) with 0 by lia. simpl.
    rewrite Nat.sub_0_r. reflexivity.
  - replace (List.length l - (List.length l - n) + 1 - n) with 1 by lia.
    replace (List.length l + 1 - n) with (S (List.length l - n)) by lia.
    rewrite !skipn_app. rewrite skipn_skipn.
    replace (1 + (List.length l - n)) with (S (List.length l - n)) by lia.
    f_equal. rewrite length_skipn.
    replace (1 - (List.length l - (List.length l - n))) with 0 by lia.
    replace (S (List.length l - n) - List.length l) with 0 by lia.
    reflexivity.
Qed.

Lemma trackAll_snoc (calls : list Tracked) (c : Tracked) :
  trackAll (calls ++ [c])
  = SearchAnalytics.trackSearch (trackAll calls) (trackedQuery c)
      (trackedCount c) (trackedSelection c) (trackedTime c).
Proof. unfold trackAll. rewrite fold_left_app. reflexivity. Qed.

Lemma timesAsked_snoc (calls : list Tracked) (c : Tracked) (q : string) :
  timesAsked (calls ++ [c]) q
  = timesAsked calls q + (if (trackedQuery c =? q)%string then 1 else 0).
Proof.
  unfold timesAsked. rewrite filter_app, length_app. simpl.
  destruct (trackedQuery c =? q)%string; reflexivity.
Qed.

Lemma trackAll_inv :
  forall calls : list Tracked,
    SearchAnalytics.searches (trackAll calls)
    = SearchAnalytics.lastN 100 (map recordOf calls)
    /\ NoDup (map fst (SearchAnalytics.popularTerms (trackAll calls)))
    /\ forall q,
         SearchAnalytics.mapGet (SearchAnalytics.popularTerms (trackAll calls)) q
         = if (2 <=? String.length q) && (0 <? timesAsked calls q)
           then Some (timesAsked calls q)
           else None.
Proof.
  induction calls as [|c calls IH] using rev_ind.
  - split; [reflexivity|]. split; [constructor|]. intros q. simpl.
    rewrite andb_false_r. reflexivity.
  - destruct IH as (Hs & Hn & Hg). rewrite trackAll_snoc.
    unfold SearchAnalytics.trackSearch.
    cbn [SearchAnalytics.searches SearchAnalytics.popularTerms].
    split; [|split].
    + rewrite Hs, map_app. simpl map. fold (recordOf c).
      destruct (Nat.ltb_spec 100
                  (List.length (SearchAnalytics.lastN 100 (map recordOf calls)
                                ++ [recordOf c]))) as [Hl|Hl].
      * apply lastN_snoc. lia.
      * rewrite <- (lastN_snoc 100) by lia. symmetry. apply lastN_all, Hl.
    + destruct (2 <=? String.length (trackedQuery c)); [|exact Hn].
      apply mapSet_keys, Hn.
    + intros q. rewrite timesAsked_snoc.
      destruct (Nat.leb_spec 2 (String.length (trackedQuery c))) as [Hl|Hl].
      * rewrite mapGet_mapSet. destruct (String.eqb_spec q (trackedQuery c))
          as [->|Hne].
        -- rewrite String.eqb_refl, Hg.
           destruct (Nat.leb_spec 2 (String.length (trackedQuery c))); [|lia].
           cbn [andb].
           destruct (Nat.ltb_spec 0 (timesAsked calls (trackedQuery c))).
           ++ destruct (Nat.ltb_spec 0 (timesAsked calls (trackedQuery c) + 1));
                [reflexivity|lia].
           ++ replace (timesAsked calls (trackedQuery c)) with 0 by lia.
              reflexivity.
        -- destruct (String.eqb_spec (trackedQuery c) q); [congruence|].
           rewrite Nat.add_0_r. apply Hg.
      * destruct (String.eqb_spec (trackedQuery c) q) as [<-|Hne].
        -- rewrite Hg. destruct (Nat.leb_spec 2 (String.length (trackedQuery c)));
             [lia|reflexivity].
        -- rewrite Nat.add_0_r. apply Hg.
Qed.

(** X20.  After any sequence of calls of [trackSearch] on a fresh
    instance, [searches] holds the records of the last 100 calls, in
    order, and [popularTerms] maps each query of two characters or more
    that was tracked to the number of calls that had it, however long
    ago, and holds no other key and no key twice. *)
Theorem analytics_keep_last_hundred :
  forall calls : list Tracked,
    SearchAnalytics.searches (trackAll calls)
    = SearchAnalytics.lastN 100 (map recordOf calls)
    /\ NoDup (map fst (SearchAnalytics.popularTerms (trackAll calls)))
    /\ forall q,
         SearchAnalytics.mapGet (SearchAnalytics.popularTerms (trackAll calls)) q
         = if (2 <=? String.length q) && (0 <? timesAsked calls q)
           then Some (timesAsked calls q)
           else None.
Proof. exact trackAll_inv. Qed.

Lemma filter_length_le {A : Type} (f : A -> bool) (l : list A) :
  List.length (filter f l) <= List.length l.
Proof. induction l as [|a l IH]; simpl; [lia|]. destruct (f a); simpl; lia. Qed.

Lemma filter_length_all {A : Type} (f : A -> bool) (l : list A) :
  List.length (filter f l) = List.length l <-> Forall (fun a => f a = true) l.
Proof.
  induction l as [|a l IH]; simpl; [split; [constructor|reflexivity]|].
  pose proof (filter_length_le f l) as Hle. destruct (f a) eqn:E; simpl.
  - split.
    + intros H. constructor; [exact E|]. apply IH. lia.
    + intros H. inversion H; subst. f_equal. apply IH. assumption.
  - split; [lia|]. intros H. inversion H; subst. congruence.
Qed.

Lemma rate_bounds (a b : nat) :
  a <= b -> 0 < b ->
  (0 <= QofNat a / QofNat b <= 1)%Q
  /\ ((QofNat a / QofNat b == 1)%Q <-> a = b).
Proof.
  intros Hab Hb.
  assert (Hb' : (0 < QofNat b)%Q).
  { unfold QofNat. rewrite <- (Zlt_Qlt 0). lia. }
  assert (Ha' : (0 <= QofNat a)%Q) by apply QofNat_nonneg.
  assert (Hle : (QofNat a <= QofNat b)%Q) by (apply QofNat_le; exact Hab).
  split; [split|].
  - apply Qle_shift_div_l; [exact Hb'|]. lra.
  - apply Qle_shift_div_r; [exact Hb'|]. lra.
  - split.
    + intros H.
      assert (He : (QofNat a == QofNat b)%Q).
      { rewrite <- (Qmult_1_l (QofNat b)), <- H. field. lra. }
      unfold QofNat, Qeq in He. simpl in He. lia.
    + intros ->. field. lra.
Qed.

(** X21.  The rates of [getSearchStats] are shares of the recorded
    searches: [successRate] and [clickRate] lie between 0 and 1, they
    are 0 when nothing is recorded, [successRate] is 1 exactly when every
    recorded search had results and [clickRate] is 1 exactly when every
    one had a selection; the average number of results is never
    negative. *)
Theorem search_stats_are_shares :
  forall this : SearchAnalytics.t,
    SearchAnalytics.totalSearches (SearchAnalytics.getSearchStats this)
    = List.length (SearchAnalytics.searches this)
    /\ (0 <= SearchAnalytics.successRate (SearchAnalytics.getSearchStats this)
        <= 1)%Q
    /\ (0 <= SearchAnalytics.clickRate (SearchAnalytics.getSearchStats this)
        <= 1)%Q
    /\ (0 <= SearchAnalytics.avgResultsPerSearch
               (SearchAnalytics.getSearchStats this))%Q
    /\ (SearchAnalytics.searches this = [] ->
        SearchAnalytics.successRate (SearchAnalytics.getSearchStats this) = 0%Q
        /\ SearchAnalytics.clickRate (SearchAnalytics.getSearchStats this) = 0%Q
        /\ SearchAnalytics.avgResultsPerSearch
             (SearchAnalytics.getSearchStats this) = 0%Q)
    /\ (SearchAnalytics.searches this <> [] ->
        ((SearchAnalytics.successRate (SearchAnalytics.getSearchStats this)
          == 1)%Q
         <-> Forall (fun s => 0 < SearchAnalytics.resultsCount s)
                    (SearchAnalytics.searches this))
        /\ ((SearchAnalytics.clickRate (SearchAnalytics.getSearchStats this)
             == 1)%Q
            <-> Forall (fun s => SearchAnalytics.selectedResult s <> None)
                       (SearchAnalytics.searches this))).
Proof.
  intros this. unfold SearchAnalytics.getSearchStats.
  cbn [SearchAnalytics.totalSearches SearchAnalytics.successRate
       SearchAnalytics.clickRate SearchAnalytics.avgResultsPerSearch].
  set (l := SearchAnalytics.searches this).
  pose proof (filter_length_le (fun s => 0 <? SearchAnalytics.resultsCount s) l)
    as H1.
  pose proof (filter_length_le
                (fun s => SearchAnalytics.isSome (SearchAnalytics.selectedResult s))
                l) as H2.
  assert (Hsum : forall (l' : list SearchAnalytics.Search) (s0 : Q),
             (0 <= s0)%Q ->
             (0 <= fold_left
                     (fun sum s => sum + QofNat (SearchAnalytics.resultsCount s))
                     l' s0)%Q).
  { induction l' as [|s l' IHl]; intros s0 H0; simpl; [exact H0|].
    apply IHl. pose proof (QofNat_nonneg (SearchAnalytics.resultsCount s)). lra. }
  split; [reflexivity|].
  destruct (Nat.ltb_spec 0 (List.length l)) as [Hl|Hl].
  - destruct (rate_bounds _ _ H1 Hl) as [Hb1 He1].
    destruct (rate_bounds _ _ H2 Hl) as [Hb2 He2].
    split; [exact Hb1|]. split; [exact Hb2|]. split; [|split].
    + apply Qle_shift_div_l.
      * unfold QofNat. rewrite <- (Zlt_Qlt 0). lia.
      * rewrite Qmult_0_l. apply Hsum. lra.
    + intros E. rewrite E in Hl. simpl in Hl. lia.
    + intros _. split.
      * rewrite He1, filter_length_all. split; intros H; eapply Forall_impl;
          try exact H; simpl; intros s Hs; apply Nat.ltb_lt; exact Hs.
      * rewrite He2, filter_length_all. split; intros H; eapply Forall_impl;
          try exact H; simpl; intros s Hs;
          destruct (SearchAnalytics.selectedResult s);
          (reflexivity || discriminate || congruence).
  - split; [lra|]. split; [lra|]. split; [lra|]. split.
    + intros _. repeat split.
    + intros Hne. destruct l; [contradiction|simpl in Hl; lia].
Qed.

Lemma search_stats_are_shares_witness :
  (SearchAnalytics.successRate
     (SearchAnalytics.getSearchStats
        (trackAll [mkTracked "nginx" 3 None 0%Z; mkTracked "caddy" 1 None 1%Z]))
   == 1)%Q.
Proof.
  apply (search_stats_are_shares
           (trackAll [mkTracked "nginx" 3 None 0%Z; mkTracked "caddy" 1 None 1%Z])).
  - vm_compute. discriminate.
  - vm_compute. repeat constructor.
Defined.

(** X22.  [getPopularTerms] lists at most [limit] entries of
    [popularTerms], by non-increasing count; an entry that it leaves out
    has a count no greater than any listed one, and the list is then
    full. *)
Theorem popular_terms_are_the_most_asked :
  forall (this : SearchAnalytics.t) (limit : nat),
    List.length (SearchAnalytics.getPopularTerms this limit) <= limit
    /\ (forall p,
           In p (SearchAnalytics.getPopularTerms this limit) ->
           In p (SearchAnalytics.popularTerms this))
    /\ StronglySorted (fun a b => snd b <= snd a)
                      (SearchAnalytics.getPopularTerms this limit)
    /\ (forall p,
           In p (SearchAnalytics.popularTerms this) ->
           ~ In p (SearchAnalytics.getPopularTerms this limit) ->
           List.length (SearchAnalytics.getPopularTerms this limit) = limit
           /\ Forall (fun y => snd p <= snd y)
                     (SearchAnalytics.getPopularTerms this limit)).
Proof.
  intros this limit. unfold SearchAnalytics.getPopularTerms.
  assert (Hs : StronglySorted
                 (fun a b : string * nat => snd b <= snd a)
                 (arraySort (fun a b => (QofNat (snd b) - QofNat (snd a))%Q)
                            (SearchAnalytics.popularTerms this))).
  { eapply StronglySorted_weaken;
      [|apply (arraySort_descending (fun p : string * nat => QofNat (snd p)))].
    simpl. intros a b H. apply QofNat_le. exact H. }
  split; [apply firstn_length_le|]. split; [|split].
  - intros p Hp. apply firstn_In in Hp. apply arraySort_In in Hp. exact Hp.
  - apply StronglySorted_firstn, Hs.
  - intros p Hp Hout.
    apply (firstn_top (fun a b : string * nat => snd b <= snd a) p _ Hs limit);
      [apply arraySort_In; exact Hp|exact Hout].
Qed.

Lemma popular_terms_are_the_most_asked_witness :
  Forall (fun y => 1 <= snd y)
         (SearchAnalytics.getPopularTerms
            (trackAll [mkTracked "caddy" 1 None 0%Z; mkTracked "nginx" 3 None 1%Z;
                       mkTracked "nginx" 2 None 2%Z])
            1).
Proof.
  destruct (popular_terms_are_the_most_asked
              (trackAll [mkTracked "caddy" 1 None 0%Z;
                         mkTracked "nginx" 3 None 1%Z;
                         mkTracked "nginx" 2 None 2%Z])
              1) as (_ & _ & _ & H).
  apply (H ("caddy", 1)).
  - vm_compute. tauto.
  - vm_compute. intros [H0|[]]. discriminate.
Defined.

(** ** Edit distance, again *)

Lemma lev_bounds (r1 : list ascii) :
  forall r2,
    List.length r1 <= List.length r2 + Levenshtein.lev r1 r2
    /\ List.length r2 <= List.length r1 + Levenshtein.lev r1 r2
    /\ Levenshtein.lev r1 r2 <= Nat.max (List.length r1) (List.length r2).
Proof.
  induction r1 as [|c1 r1 IH1]; intros r2; [simpl; lia|].
  induction r2 as [|c2 r2 IH2]; [simpl; lia|].
  rewrite LevenshteinFacts.lev_cons.
  pose proof (IH1 r2) as H1. pose proof (IH1 (c2 :: r2)) as H2.
  destruct (Ascii.eqb c2 c1); unfold SearchBox.min3; simpl List.length in *; lia.
Qed.

Lemma lev_zero (r1 : list ascii) :
  forall r2, Levenshtein.lev r1 r2 = 0 -> r1 = r2.
Proof.
  induction r1 as [|c1 r1 IH1]; intros r2.
  - destruct r2; [reflexivity|discriminate].
  - destruct r2 as [|c2 r2]; [discriminate|].
    rewrite LevenshteinFacts.lev_cons.
    destruct (Ascii.eqb_spec c2 c1) as [->|_].
    + intros H. f_equal. apply IH1, H.
    + unfold SearchBox.min3. lia.
Qed.

Lemma list_ascii_of_string_inj (a b : string) :
  list_ascii_of_string a = list_ascii_of_string b -> a = b.
Proof.
  intros H. rewrite <- (string_of_list_ascii_of_string a),
    <- (string_of_list_ascii_of_string b), H. reflexivity.
Qed.

(** X23.  The edit distance of the search box is 0 only between equal
    strings; it is at least the difference of the two lengths and at
    most the greater of them. *)
Theorem levenshteinDistance_bounds :
  forall a b : string,
    (SearchBox.levenshteinDistance a b = 0 <-> a = b)
    /\ String.length a - String.length b <= SearchBox.levenshteinDistance a b
    /\ String.length b - String.length a <= SearchBox.levenshteinDistance a b
    /\ SearchBox.levenshteinDistance a b
       <= Nat.max (String.length a) (String.length b).
Proof.
  intros a b. rewrite LevenshteinFacts.levenshteinDistance_lev.
  pose proof (lev_bounds (rev (list_ascii_of_string a))
                         (rev (list_ascii_of_string b))) as H.
  rewrite !length_rev, !LevenshteinFacts.length_list_ascii_of_string in H.
  split; [|lia]. split.
  - intros H0. apply lev_zero in H0. apply list_ascii_of_string_inj.
    rewrite <- (rev_involutive (list_ascii_of_string a)), H0.
    apply rev_involutive.
  - intros ->. apply LevenshteinFacts.lev_refl.
Qed.

(** ** Relevance in the search box *)

(** X24.  [isRelevantMatch] never reaches its edit-distance step: the
    character step before it already returns for every query of three
    characters or more.  So it returns a boolean for every guide and
    query, whatever the edit-distance step would do, and it returns
    [true] whenever the normalized query occurs in the content of the
    guide. *)
Theorem isRelevantMatch_skips_edit_distance :
  forall (step : string -> list string -> outcome bool) (guide : Item)
         (searchText : option string) (query : string),
    exists b,
      (forall step',
          SearchBox.isRelevantMatch step' guide searchText query = Normal b)
      /\ SearchBox.isRelevantMatch step guide searchText query = Normal b
      /\ (Within (normalize query)
                 (SearchBox.searchableContent guide searchText) ->
          b = true).
Proof.
  intros step guide searchText query.
  assert (H : exists b,
             SearchBox.isRelevantMatch (fun _ _ => Normal false) guide
               searchText query = Normal b
             /\ (Within (normalize query)
                        (SearchBox.searchableContent guide searchText) ->
                 b = true)).
  { unfold SearchBox.isRelevantMatch. fold (normalize query).
    destruct (includes _ _) eqn:Ei; [exists true; split; reflexivity|].
    assert (Hn : ~ Within (normalize query)
                          (SearchBox.searchableContent guide searchText)).
    { intros Hw. apply includes_iff in Hw. congruence. }
    destruct (existsb _ _);
      [exists true; split; [reflexivity|contradiction]|].
    destruct (_ && _); [exists true; split; [reflexivity|contradiction]|].
    destruct (3 <=? String.length (normalize query));
      [eexists; split; [reflexivity|contradiction]|].
    destruct (4 <=? String.length (normalize query));
      eexists; (split; [reflexivity|contradiction]). }
  destruct H as (b & Hb & Hw). exists b. split; [|split].
  - intros step'. rewrite <- Hb. apply editDistanceStep_unreachable.
  - rewrite <- Hb. apply editDistanceStep_unreachable.
  - exact Hw.
Qed.

Lemma isRelevantMatch_skips_edit_distance_witness :
  SearchBox.isRelevantMatch (fun _ _ => Throw TypeError) nginx None "NGINX"
  = Normal true.
Proof.
  destruct (isRelevantMatch_skips_edit_distance (fun _ _ => Throw TypeError)
              nginx None "NGINX") as (b & _ & Hb & Hw).
  rewrite Hb. f_equal. apply Hw. apply includes_iff. vm_compute. reflexivity.
Defined.

(** ** Scores of the search box *)

Lemma countInOrder_consumed (word query : string) :
  forall queryIndex matches,
    SearchBox.countInOrder word query queryIndex matches
    = matches + consumed word (dropS queryIndex query).
Proof.
  induction word as [|c word IH]; intros queryIndex matches;
    cbn [SearchBox.countInOrder consumed]; [lia|].
  pose proof (dropS_length queryIndex query) as Hl.
  rewrite get_dropS.
  destruct (Nat.ltb_spec queryIndex (String.length query)) as [Hq|Hq].
  - destruct (dropS queryIndex query) as [|qc r] eqn:Ed;
      [simpl in Hl; lia|].
    destruct (Ascii.eqb c qc).
    + rewrite IH, (dropS_next _ _ _ _ Ed). lia.
    + rewrite IH, Ed. reflexivity.
  - destruct (dropS queryIndex query) as [|qc r]; [lia|simpl in Hl; lia].
Qed.

(** X25.  [calculateFuzzyScore] is the share of the characters of the
    query that a left-to-right scan of the target finds in order: it
    lies between 0 and 1, and it is 1 exactly when neither string is
    empty and the characters of the query occur in the target in
    order. *)
Theorem calculateFuzzyScore_is_a_share :
  forall query target : string,
    (0 <= SearchBox.calculateFuzzyScore query target <= 1)%Q
    /\ ((SearchBox.calculateFuzzyScore query target == 1)%Q
        <-> query <> "" /\ target <> "" /\ Subsequence query target).
Proof.
  intros query target. unfold SearchBox.calculateFuzzyScore.
  rewrite countInOrder_consumed. simpl dropS. rewrite Nat.add_0_l.
  destruct query as [|a q].
  - simpl. split; [lra|]. split; [intros H; discriminate H|].
    intros [H _]. contradiction H. reflexivity.
  - destruct target as [|c t].
    + simpl. split; [lra|]. split; [intros H; discriminate H|].
      intros (_ & H & _). contradiction H. reflexivity.
    + cbn [String.length Nat.eqb orb].
      pose proof (consumed_le (String c t) (String a q)) as Hle.
      cbn [String.length] in Hle.
      destruct (rate_bounds _ _ Hle ltac:(lia)) as [Hb He].
      split; [exact Hb|]. rewrite He. split.
      * intros H. split; [discriminate|]. split; [discriminate|].
        apply consumed_all_iff. exact H.
      * intros (_ & _ & H). apply consumed_all_iff in H. exact H.
Qed.

Lemma calculateFuzzyScore_is_a_share_witness :
  (SearchBox.calculateFuzzyScore "ngx" "nginx" == 1)%Q.
Proof.
  apply (calculateFuzzyScore_is_a_share "ngx" "nginx").
  split; [discriminate|]. split; [discriminate|].
  apply consumed_all_iff. reflexivity.
Defined.

(** ** Results of the search box *)

Lemma getSimpleScore_name (guide : Item) (q : string) :
  (0 <= stars guide)%Z ->
  toLowerCase (name guide) = toLowerCase q ->
  (150 <= SearchBox.getSimpleScore guide q)%Z.
Proof.
  intros Hs Hn. unfold SearchBox.getSimpleScore. rewrite Hn, String.eqb_refl.
  assert (Hi : includes (toLowerCase q) (toLowerCase q) = true)
    by (apply includes_iff, Within_refl).
  rewrite Hi.
  destruct (_ =? _)%string; destruct (includes (toLowerCase (displayName guide)) _);
    destruct (includes (toLowerCase (description guide)) _);
    destruct (includes (category guide) _);
    destruct (language guide) as [l|];
    try destruct (includes (toLowerCase l) _); lia.
Qed.

Lemma getSimpleScore_unnamed (guide : Item) (q : string) :
  includes (toLowerCase (name guide)) (toLowerCase q) = false ->
  includes (toLowerCase (displayName guide)) (toLowerCase q) = false ->
  (SearchBox.getSimpleScore guide q <= 75)%Z.
Proof.
  intros Hn Hd. unfold SearchBox.getSimpleScore. rewrite Hn, Hd.
  destruct (String.eqb_spec (toLowerCase (name guide)) (toLowerCase q)) as [E|_].
  { rewrite E in Hn.
    assert (Hi : includes (toLowerCase q) (toLowerCase q) = true)
      by (apply includes_iff, Within_refl).
    congruence. }
  destruct (String.eqb_spec (toLowerCase (displayName guide)) (toLowerCase q))
    as [E|_].
  { rewrite E in Hd.
    assert (Hi : includes (toLowerCase q) (toLowerCase q) = true)
      by (apply includes_iff, Within_refl).
    congruence. }
  destruct (includes (toLowerCase (description guide)) _);
    destruct (includes (category guide) _);
    destruct (language guide) as [l|];
    try destruct (includes (toLowerCase l) _); lia.
Qed.

Lemma Qmin_le_l (a b : Q) : (Qmin a b <= a)%Q.
Proof.
  unfold Qmin. destruct (Qle_bool a b) eqn:E; [lra|].
  assert (~ (a <= b)%Q) by (intros H; apply Qle_bool_iff in H; congruence).
  lra.
Qed.

Section BoxResults.
Variable searchTextOf : Item -> option string.
Variable q : string.

Lemma searchGuides_sorted (guides : list Item) :
  StronglySorted
    (fun a b => (SearchBox.getSimpleScore b q <= SearchBox.getSimpleScore a q)%Z)
    (arraySort
       (fun a b =>
          inject_Z (SearchBox.getSimpleScore b q - SearchBox.getSimpleScore a q))
       guides).
Proof.
  eapply StronglySorted_weaken;
    [|apply (arraySort_ordered
               (fun a b =>
                  inject_Z (SearchBox.getSimpleScore b q
                            - SearchBox.getSimpleScore a q)))].
  - simpl. intros a b H. change 0%Q with (inject_Z 0) in H.
    rewrite <- Zle_Qle in H. lia.
  - intros a b H. change 0%Q with (inject_Z 0) in *.
    rewrite <- Zlt_Qlt in H. rewrite <- Zle_Qle. lia.
  - intros a b c H1 H2. change 0%Q with (inject_Z 0) in *.
    rewrite <- Zle_Qle in *. lia.
Qed.

Lemma name_in_content (guide : Item) :
  name guide <> "" ->
  Within (toLowerCase (name guide))
         (SearchBox.searchableContent guide (searchTextOf guide)).
Proof.
  intros Hn. unfold SearchBox.searchableContent.
  apply Within_toLowerCase, Within_join. unfold filterBoolean.
  apply in_flat_map. exists (Some (name guide)). split; [left; reflexivity|].
  destruct (String.eqb_spec (name guide) ""); [contradiction|].
  left. reflexivity.
Qed.
End BoxResults.

(** X26.  The debounced search of the box lists at most eight guides,
    each a guide of the catalog that passes the filter, by non-increasing
    simple score; a guide that passes the filter and is not listed has a
    score no greater than any listed one, and the list is then full. *)
Theorem searchGuides_lists_best_eight :
  forall (searchTextOf : Item -> option string) (guides : list Item)
         (q : string),
    List.length (SearchBox.searchGuides searchTextOf guides q) <= 8
    /\ (forall g,
           In g (SearchBox.searchGuides searchTextOf guides q) ->
           In g guides /\ SearchBox.passesFilter searchTextOf g q = true)
    /\ StronglySorted
         (fun a b => (SearchBox.getSimpleScore b q
                      <= SearchBox.getSimpleScore a q)%Z)
         (SearchBox.searchGuides searchTextOf guides q)
    /\ (forall g,
           In g guides -> SearchBox.passesFilter searchTextOf g q = true ->
           ~ In g (SearchBox.searchGuides searchTextOf guides q) ->
           List.length (SearchBox.searchGuides searchTextOf guides q) = 8
           /\ Forall (fun y => (SearchBox.getSimpleScore g q
                                <= SearchBox.getSimpleScore y q)%Z)
                     (SearchBox.searchGuides searchTextOf guides q)).
Proof.
  intros searchTextOf guides q. unfold SearchBox.searchGuides.
  split; [apply firstn_length_le|]. split; [|split].
  - intros g Hg. apply firstn_In, arraySort_In, filter_In in Hg. exact Hg.
  - apply StronglySorted_firstn, searchGuides_sorted.
  - intros g Hg Hp Hout.
    apply (firstn_top
             (fun a b => (SearchBox.getSimpleScore b q
                          <= SearchBox.getSimpleScore a q)%Z)
             g _ (searchGuides_sorted q _) 8);
      [|exact Hout].
    apply arraySort_In, filter_In. split; assumption.
Qed.

Lemma searchGuides_lists_best_eight_witness :
  In nginx (SearchBox.searchGuides (fun _ => None) [caddy; nginx] "nginx")
  /\ SearchBox.passesFilter (fun _ => None) nginx "nginx" = true.
Proof.
  destruct (searchGuides_lists_best_eight (fun _ => None) [caddy; nginx] "nginx")
    as (_ & H & _).
  split; [vm_compute; tauto|]. apply H. vm_compute. tauto.
Defined.

(** X27.  A guide whose name is the query, up to case, passes the filter
    of the box and, its stars not being negative, scores at least 150;
    so every guide listed before it has the query in its name or in its
    display name. *)
Theorem box_lists_named_guide_first :
  forall (searchTextOf : Item -> option string) (guides : list Item)
         (q : string) (e : Item),
    q <> "" ->
    toLowerCase (name e) = toLowerCase q ->
    (0 <= stars e)%Z ->
    SearchBox.passesFilter searchTextOf e q = true
    /\ (150 <= SearchBox.getSimpleScore e q)%Z
    /\ forall pre post,
         SearchBox.searchGuides searchTextOf guides q = pre ++ e :: post ->
         Forall (fun g => Within (toLowerCase q) (toLowerCase (name g))
                          \/ Within (toLowerCase q)
                                    (toLowerCase (displayName g)))
                pre.
Proof.
  intros searchTextOf guides q e Hq Hn Hs. split; [|split].
  - unfold SearchBox.passesFilter.
    assert (Hne : name e <> "").
    { intros E. rewrite E in Hn. destruct q; [contradiction|discriminate]. }
    pose proof (name_in_content searchTextOf e Hne) as Hw. rewrite Hn in Hw.
    apply includes_iff in Hw. rewrite Hw. reflexivity.
  - apply getSimpleScore_name; assumption.
  - intros pre post E.
    pose proof (StronglySorted_firstn _ 8 _
                  (searchGuides_sorted q
                     (filter (fun guide =>
                                SearchBox.passesFilter searchTextOf guide q)
                             guides))) as Hsorted.
    change (StronglySorted
              (fun a b => (SearchBox.getSimpleScore b q
                           <= SearchBox.getSimpleScore a q)%Z)
              (SearchBox.searchGuides searchTextOf guides q)) in Hsorted.
    rewrite E in Hsorted. apply StronglySorted_before in Hsorted.
    eapply Forall_impl; [|exact Hsorted]. simpl. intros g Hg.
    pose proof (getSimpleScore_name e q Hs Hn) as He.
    destruct (includes (toLowerCase (name g)) (toLowerCase q)) eqn:E1;
      [left; apply includes_iff, E1|].
    destruct (includes (toLowerCase (displayName g)) (toLowerCase q)) eqn:E2;
      [right; apply includes_iff, E2|].
    pose proof (getSimpleScore_unnamed g q E1 E2). lia.
Qed.

Lemma box_lists_named_guide_first_witness :
  (150 <= SearchBox.getSimpleScore nginx "NGINX")%Z.
Proof.
  apply (box_lists_named_guide_first (fun _ => None) [caddy; nginx] "NGINX"
           nginx).
  - discriminate.
  - reflexivity.
  - simpl. lia.
Defined.

(** X28.  The filter of the box accepts a guide as soon as the characters
    of the lower-cased query, three or more, occur in order in one of the
    words of its content. *)
Theorem box_filter_accepts_subsequences :
  forall (searchTextOf : Item -> option string) (guide : Item)
         (q word : string),
    3 <= String.length q ->
    In word (SearchBox.splitRuns
               (SearchBox.searchableContent guide (searchTextOf guide))) ->
    Subsequence (toLowerCase q) word ->
    SearchBox.passesFilter searchTextOf guide q = true.
Proof.
  intros searchTextOf guide q word Hl Hw Hs. unfold SearchBox.passesFilter.
  destruct (includes _ _); [reflexivity|].
  destruct (existsb (fun w => startsWith w (toLowerCase q)) _); [reflexivity|].
  rewrite toLowerCase_length.
  destruct (Nat.leb_spec 3 (String.length q)); [|lia].
  apply existsb_exists. exists word. split; [exact Hw|].
  pose proof (Subsequence_length _ _ Hs) as Hlen.
  rewrite toLowerCase_length in Hlen.
  destruct (Nat.ltb_spec (String.length word) 3); [lia|].
  rewrite countInOrder_consumed. simpl dropS.
  apply consumed_all_iff in Hs. rewrite Hs, toLowerCase_length, Nat.add_0_l.
  apply Qle_bool_iff.
  pose proof (Qmin_le_l (QofNat (String.length q) * 0.7)
                            (QofNat (String.length word) * 0.6)) as Hm.
  pose proof (QofNat_nonneg (String.length q)). lra.
Qed.

Lemma box_filter_accepts_subsequences_witness :
  SearchBox.passesFilter (fun _ => None) nginx "ngx" = true.
Proof.
  apply (box_filter_accepts_subsequences (fun _ => None) nginx "ngx" "nginx").
  - simpl. lia.
  - vm_compute. tauto.
  - apply consumed_all_iff. reflexivity.
Defined.

(** ** Entries that contain the query *)

(** X29.  [search] finds every entry that contains the query: when the
    threshold is at most 1 and the lower-cased value of one of the
    configured keys of an entry contains the normalized query, a query of
    two characters or more on which [search] returns has a result for
    that entry, with fuzzy score 1 and a score of at least 1. *)
Theorem search_finds_entries_containing_query :
  forall (T : Type) (this : FuzzySearch.t) (view : T -> Item)
         (items : list T) (q : string) (rs : list (SearchResult.t T))
         (i : nat) (x : T) (key : string),
    2 <= String.length q ->
    search this view items (Some q) = Normal rs ->
    (threshold this <= 1)%Q ->
    nth_error items i = Some x ->
    In key (keys this) ->
    getValue (view x) key <> "" ->
    Within (normalize q) (toLowerCase (getValue (view x) key)) ->
    exists r fs,
      In r rs
      /\ SearchResult.refIndex r = Some i
      /\ SearchResult.item r = x
      /\ SearchResult.fuzzyScore r = Some fs
      /\ (fs == 1)%Q
      /\ (1 <= SearchResult.score r)%Q.
Proof.
  intros T this view items q rs i x key Hl Hs Ht Hx Hk Hv Hw.
  rewrite search_long in Hs by assumption.
  destruct (expandSearchQuery (normalize q)) as [terms|e]; [|discriminate].
  unfold bind in Hs. injection Hs as <-.
  pose proof (keys_hit this view (normalize q) terms x (keys this) key Hk Hv Hw
                (mkBest 0%Q [] "") ltac:(simpl; lra)) as Hfs.
  pose proof (calculateSearchScore_ge (view x) q terms) as Hks.
  destruct (scoreItem this view q (normalize q) terms i x) as [r|] eqn:Er.
  - pose proof Er as Hr. unfold scoreItem in Hr.
    destruct (Qgeb _ _); [|discriminate]. injection Hr as Hr.
    exists r, (bestFuzzyScore
                 (fold_left (tryKey this view (normalize q) terms x) (keys this)
                            (mkBest 0%Q [] ""))).
    split.
    + apply arraySort_In, in_flat_map. exists (i, x).
      split; [apply entries_In, Hx|]. rewrite Er. left. reflexivity.
    + rewrite <- Hr. cbn [SearchResult.refIndex SearchResult.item
                          SearchResult.fuzzyScore SearchResult.score].
      repeat (split; [reflexivity|]). split; [exact Hfs|]. lra.
  - exfalso. unfold scoreItem in Er.
    destruct (Qgeb _ _) eqn:Eg; [discriminate|].
    assert (Hge : Qgeb (0 + calculateSearchScore (view x) q terms
                        + bestFuzzyScore
                            (fold_left (tryKey this view (normalize q) terms x)
                                       (keys this) (mkBest 0%Q [] "")))
                       (threshold this) = true)
      by (apply Qgeb_true; lra).
    congruence.
Qed.

Lemma search_finds_entries_containing_query_witness :
  exists r,
    In r (match search FuzzySearch.default id [caddy; nginxUi] (Some "NGINX")
          with Normal rs => rs | Throw _ => [] end)
    /\ SearchResult.item r = nginxUi.
Proof.
  destruct (search FuzzySearch.default id [caddy; nginxUi] (Some "NGINX"))
    as [rs|] eqn:E; [|vm_compute in E; discriminate].
  destruct (search_finds_entries_containing_query Item FuzzySearch.default id
              [caddy; nginxUi] "NGINX" rs 1 nginxUi "name"
              ltac:(simpl; lia) E ltac:(vm_compute; discriminate) eq_refl
              ltac:(left; reflexivity) ltac:(discriminate)
              ltac:(exists "", "-ui"; reflexivity))
    as (r & fs & Hr & _ & Hi & _).
  exists r. split; assumption.
Defined.

(** ** Popular terms of the tracked calls *)

Lemma mapGet_In (m : list (string * nat)) (k : string) (v : nat) :
  NoDup (map fst m) -> In (k, v) m -> SearchAnalytics.mapGet m k = Some v.
Proof.
  induction m as [|[k0 v0] m IH]; simpl; [intros _ []|].
  intros Hn [H|H].
  - injection H as -> ->. rewrite String.eqb_refl. reflexivity.
  - inversion Hn as [|? ? Hk0 Hm]; subst.
    destruct (String.eqb_spec k k0) as [->|_]; [|apply IH; assumption].
    contradiction Hk0. apply in_map_iff. exists (k0, v). split; [reflexivity|exact H].
Qed.

(** X30.  The counts that [getPopularTerms] reports after a sequence of
    [trackSearch] calls on a fresh instance are the numbers of calls:
    every reported term has two characters or more and was tracked at
    least once, its count is the number of calls made with it, and no
    term is reported twice. *)
Theorem popular_terms_count_the_calls :
  forall (calls : list Tracked) (limit : nat),
    NoDup (map fst (SearchAnalytics.getPopularTerms (trackAll calls) limit))
    /\ forall term count,
         In (term, count)
            (SearchAnalytics.getPopularTerms (trackAll calls) limit) ->
         2 <= String.length term
         /\ 0 < count
         /\ count = timesAsked calls term.
Proof.
  intros calls limit. destruct (trackAll_inv calls) as (_ & Hn & Hg).
  unfold SearchAnalytics.getPopularTerms. split.
  - set (sorted := arraySort _ (SearchAnalytics.popularTerms (trackAll calls))).
    assert (Hs : NoDup (map fst sorted)).
    { eapply Permutation_NoDup; [|exact Hn].
      apply Permutation_map, arraySort_perm. }
    rewrite <- (firstn_skipn limit sorted), map_app in Hs.
    apply NoDup_app_remove_r in Hs. exact Hs.
  - intros term count Hin. apply firstn_In, arraySort_In in Hin.
    pose proof (mapGet_In _ _ _ Hn Hin) as Hm. rewrite Hg in Hm.
    destruct (Nat.leb_spec 2 (String.length term)); [|discriminate].
    destruct (Nat.ltb_spec 0 (timesAsked calls term)); [|discriminate].
    injection Hm as <-. repeat split; assumption.
Qed.

Lemma popular_terms_count_the_calls_witness :
  In ("nginx", 2)
     (SearchAnalytics.getPopularTerms
        (trackAll [mkTracked "caddy" 1 None 0%Z; mkTracked "nginx" 3 None 1%Z;
                   mkTracked "nginx" 2 None 2%Z])
        1)
  /\ 2 = timesAsked [mkTracked "caddy" 1 None 0%Z; mkTracked "nginx" 3 None 1%Z;
                     mkTracked "nginx" 2 None 2%Z] "nginx".
Proof.
  assert (H : In ("nginx", 2)
                 (SearchAnalytics.getPopularTerms
                    (trackAll [mkTracked "caddy" 1 None 0%Z;
                               mkTracked "nginx" 3 None 1%Z;
                               mkTracked "nginx" 2 None 2%Z])
                    1))
    by (vm_compute; tauto).
  split; [exact H|].
  apply (popular_terms_count_the_calls _ 1) in H. apply H.
Defined.
